(** * Redump DAT filter: region extraction, parsing and filtering

    A shallow embedding of [src/shared/datParser.ts] (the parser, the
    region extraction and the region filter), of the load, current and
    preview handlers of the Electron main process and of the selection
    state of the renderer, followed by the properties of the
    specification that concern them and by further properties of the
    code.

    Conventions of the embedding.
    - A JavaScript string is a [string]: a sequence of code units, here the
      code units below 256.  The ECMAScript built-ins the code calls
      ([trim], [toLowerCase], [split], [replace], [matchAll], [join]) are
      modelled in [Js] and [Regex] on that alphabet.
    - The tree returned by [xmlParser.parse] is a [RawValue]; the XML
      tokenizer itself (fast-xml-parser) is outside the repository.
    - A thrown [Error] is the [Err] case of [result].
    - [String.prototype.localeCompare] and the clock are inputs; so are
      the file system, the dialogs and the XML parser in the handlers of
      the main process.  The XML builder is outside the repository too:
      the text it returns is an input of [finishXml]. *)

From Stdlib Require Import String Ascii List NArith ZArith Arith Lia Bool.
From Stdlib Require Import Sorting.Sorted DecimalString.
Import ListNotations.

Local Open Scope string_scope.
Local Open Scope list_scope.

(* ================================================================== *)
(** ** ECMAScript string built-ins *)
(* ================================================================== *)

Module Js.

(** [WhiteSpace] and [LineTerminator] code units below 256: TAB, LF, VT,
    FF, CR, SPACE and NBSP.  Both [\s] and [trim] use this class. *)
Definition isWhiteSpace (c : ascii) : bool :=
  let n := N_of_ascii c in
  (((9 <=? n) && (n <=? 13)) || (n =? 32) || (n =? 160))%N.

Definition isLineTerminator (c : ascii) : bool :=
  let n := N_of_ascii c in ((n =? 10) || (n =? 13))%N.

Definition isDigit (c : ascii) : bool :=
  let n := N_of_ascii c in ((48 <=? n) && (n <=? 57))%N.

(** A string is truthy when it is not empty. *)
Definition truthy (s : string) : bool :=
  match s with EmptyString => false | String _ _ => true end.

Fixpoint trimStart (s : string) : string :=
  match s with
  | String c s' => if isWhiteSpace c then trimStart s' else s
  | EmptyString => EmptyString
  end.

Fixpoint trimEnd (s : string) : string :=
  match s with
  | String c s' =>
      match trimEnd s' with
      | EmptyString => if isWhiteSpace c then EmptyString else String c EmptyString
      | r => String c r
      end
  | EmptyString => EmptyString
  end.

Definition trim (s : string) : string := trimEnd (trimStart s).

(** Lower-casing of one code unit: A-Z, and the Latin-1 capitals
    U+00C0..U+00DE except the multiplication sign U+00D7. *)
Definition lowerChar (c : ascii) : ascii :=
  let n := N_of_ascii c in
  if (((65 <=? n) && (n <=? 90))
      || ((192 <=? n) && (n <=? 222) && negb (n =? 215)))%N
  then ascii_of_N (n + 32) else c.

Fixpoint toLowerCase (s : string) : string :=
  match s with
  | String c s' => String (lowerChar c) (toLowerCase s')
  | EmptyString => EmptyString
  end.

(** [Array.prototype.join]. *)
Definition join (sep : string) (l : list string) : string :=
  String.concat sep l.

(** [String(n)] for an array length. *)
Definition ofNat (n : nat) : string :=
  NilZero.string_of_uint (Nat.to_uint n).

(** [s.split(sep)[0]] for a one-character separator: the text before
    its first occurrence, or all of [s]. *)
Fixpoint beforeFirst (sep : ascii) (s : string) : string :=
  match s with
  | String c s' => if Ascii.eqb c sep then EmptyString else String c (beforeFirst sep s')
  | EmptyString => EmptyString
  end.

(** Insertion-ordered [Set] of strings, as [Array.from(set)] lists it. *)
Definition has (x : string) (l : list string) : bool :=
  existsb (String.eqb x) l.

Definition add (l : list string) (x : string) : list string :=
  if has x l then l else l ++ [x].

Definition addAll (l : list string) (xs : list string) : list string :=
  fold_left add xs l.

Definition setOf (xs : list string) : list string := addAll [] xs.

End Js.

(* ================================================================== *)
(** ** A backtracking matcher for the regular expressions of the code *)
(* ================================================================== *)

Module Regex.

(** The patterns of [datParser.ts] are sequences of literals, character
    classes, quantified character classes, capture parentheses and the
    end anchor. *)
Inductive atom : Type :=
| Lit (c : ascii)
| Cls (p : ascii -> bool)
| Rep (greedy : bool) (min : nat) (p : ascii -> bool)
| Open
| Close
| Eos.

Definition regex := list atom.

(** Captures closed so far (latest first) and the text of the groups
    still open. *)
Record caps := { closed : list string; opened : list string }.

Definition start : caps := {| closed := []; opened := [] |}.

Definition feed (c : ascii) (st : caps) : caps :=
  {| closed := closed st;
     opened := map (fun g => (g ++ String c EmptyString)%string) (opened st) |}.

Definition openGroup (st : caps) : caps :=
  {| closed := closed st; opened := EmptyString :: opened st |}.

Definition closeGroup (st : caps) : caps :=
  match opened st with
  | g :: rest => {| closed := g :: closed st; opened := rest |}
  | [] => st
  end.

(** What remains to be matched after an atom: a function of the input
    left and of the captures. *)
Definition continuation := string -> caps -> option (list string * string).

(** A quantified class, [n] repetitions in: a greedy quantifier takes one
    more character first and falls back on the continuation, a lazy one
    tries the continuation first. *)
Fixpoint repeatClass (greedy : bool) (min : nat) (p : ascii -> bool) (k : continuation)
    (n : nat) (s : string) (st : caps) {struct s} : option (list string * string) :=
  let stop := if Nat.leb min n then k s st else None in
  match s with
  | String d s' =>
      if p d then
        if greedy then
          match repeatClass greedy min p k (S n) s' (feed d st) with
          | Some x => Some x
          | None => stop
          end
        else
          match stop with
          | Some x => Some x
          | None => repeatClass greedy min p k (S n) s' (feed d st)
          end
      else stop
  | EmptyString => stop
  end.

(** [matchHere r s st]: match [r] at the start of [s]; the result is the
    captures in group order and the input left after the match.  The
    alternatives are tried in the order of a backtracking engine. *)
Fixpoint matchHere (r : regex) : continuation :=
  match r with
  | [] => fun s st => Some (rev (closed st), s)
  | Lit c :: r' => fun s st =>
      match s with
      | String d s' => if Ascii.eqb c d then matchHere r' s' (feed d st) else None
      | EmptyString => None
      end
  | Cls p :: r' => fun s st =>
      match s with
      | String d s' => if p d then matchHere r' s' (feed d st) else None
      | EmptyString => None
      end
  | Open :: r' => fun s st => matchHere r' s (openGroup st)
  | Close :: r' => fun s st => matchHere r' s (closeGroup st)
  | Eos :: r' => fun s st =>
      match s with
      | EmptyString => matchHere r' s st
      | String _ _ => None
      end
  | Rep greedy min p :: r' => repeatClass greedy min p (matchHere r') 0
  end.

(** The leftmost match: the text before it, its groups, the text after. *)
Record found := { before : string; groups : list string; after : string }.

Fixpoint exec (r : regex) (s : string) : option found :=
  match matchHere r s start with
  | Some (g, rest) => Some {| before := EmptyString; groups := g; after := rest |}
  | None =>
      match s with
      | String c s' =>
          match exec r s' with
          | Some m => Some {| before := String c (before m);
                              groups := groups m; after := after m |}
          | None => None
          end
      | EmptyString => None
      end
  end.

(** A pattern anchored with [^]. *)
Definition execAnchored (r : regex) (s : string) : option (list string) :=
  match matchHere r s start with
  | Some (g, _) => Some g
  | None => None
  end.

Definition test (r : regex) (s : string) : bool :=
  match exec r s with Some _ => true | None => false end.

(** A pattern that cannot match the empty string: its first atom that is
    not a parenthesis reads a character. *)
Fixpoint consumes (r : regex) : bool :=
  match r with
  | Lit _ :: _ | Cls _ :: _ | Rep _ (S _) _ :: _ => true
  | Open :: r' | Close :: r' => consumes r'
  | _ => false
  end.

(** Global operations.  Every global pattern of the code consumes at
    least one character per match, so [S (length s)] rounds suffice. *)
Fixpoint matchAllFrom (fuel : nat) (r : regex) (s : string) : list (list string) :=
  match fuel with
  | 0 => []
  | S fuel' =>
      match exec r s with
      | Some m => groups m :: matchAllFrom fuel' r (after m)
      | None => []
      end
  end.

Definition matchAll (r : regex) (s : string) : list (list string) :=
  matchAllFrom (S (String.length s)) r s.

Fixpoint splitFrom (fuel : nat) (r : regex) (s : string) : list string :=
  match fuel with
  | 0 => [s]
  | S fuel' =>
      match exec r s with
      | Some m => before m :: splitFrom fuel' r (after m)
      | None => [s]
      end
  end.

Definition split (r : regex) (s : string) : list string :=
  splitFrom (S (String.length s)) r s.

Fixpoint replaceFrom (fuel : nat) (r : regex) (by_ : string) (s : string) : string :=
  match fuel with
  | 0 => s
  | S fuel' =>
      match exec r s with
      | Some m => (before m ++ by_ ++ replaceFrom fuel' r by_ (after m))%string
      | None => s
      end
  end.

Definition replaceAll (r : regex) (by_ : string) (s : string) : string :=
  replaceFrom (S (String.length s)) r by_ s.

(** Literal text, as [escapeRegExp] makes it. *)
Fixpoint literal (s : string) : regex :=
  match s with
  | String c s' => Lit c :: literal s'
  | EmptyString => []
  end.

(** Literal text under the [i] flag.  Without the [u] flag a code unit
    above 127 never matches an ASCII one, so the case folding is the
    ASCII one. *)
Definition asciiLower (c : ascii) : ascii :=
  let n := N_of_ascii c in
  if ((65 <=? n) && (n <=? 90))%N then ascii_of_N (n + 32) else c.

Fixpoint literalIgnoreCase (s : string) : regex :=
  match s with
  | String c s' => Cls (fun d => Ascii.eqb (asciiLower d) (asciiLower c)) :: literalIgnoreCase s'
  | EmptyString => []
  end.

End Regex.

Import Regex.

(* ================================================================== *)
(** ** Region vocabulary *)
(* ================================================================== *)

Definition REGION_SYNONYMS : list (string * string) :=
  [ ("world", "World"); ("worldwide", "World");
    ("usa", "USA"); ("u.s.a.", "USA"); ("us", "USA"); ("u.s.", "USA");
    ("north america", "USA");
    ("europe", "Europe"); ("eur", "Europe"); ("pal", "Europe");
    ("japan", "Japan"); ("jpn", "Japan");
    ("asia", "Asia"); ("asia pacific", "Asia"); ("asia-pacific", "Asia");
    ("australia", "Australia"); ("australasia", "Australia");
    ("brazil", "Brazil"); ("canada", "Canada"); ("china", "China");
    ("denmark", "Denmark"); ("finland", "Finland"); ("france", "France");
    ("germany", "Germany"); ("hong kong", "Hong Kong"); ("italy", "Italy");
    ("korea", "Korea"); ("south korea", "Korea"); ("republic of korea", "Korea");
    ("mexico", "Mexico"); ("netherlands", "Netherlands");
    ("new zealand", "New Zealand"); ("norway", "Norway"); ("russia", "Russia");
    ("spain", "Spain"); ("sweden", "Sweden"); ("switzerland", "Switzerland");
    ("taiwan", "Taiwan");
    ("uk", "United Kingdom"); ("united kingdom", "United Kingdom");
    ("england", "United Kingdom");
    ("ireland", "Ireland"); ("poland", "Poland"); ("portugal", "Portugal");
    ("belgium", "Belgium"); ("greece", "Greece");
    ("czech republic", "Czech Republic"); ("south africa", "South Africa");
    ("latin america", "Latin America"); ("middle east", "Middle East");
    ("africa", "Africa"); ("asia minor", "Asia"); ("united states", "USA") ].

Definition DEFAULT_REGION : string := "Unknown".

(** [Map.prototype.get]. *)
Fixpoint mapGet (m : list (string * string)) (k : string) : option string :=
  match m with
  | (k', v) :: m' => if String.eqb k k' then Some v else mapGet m' k
  | [] => None
  end.

Definition CANONICAL_REGIONS : list string :=
  Js.add (Js.setOf (Js.setOf (map snd REGION_SYNONYMS))) DEFAULT_REGION.

(** [/\.+/g] and [/\s+/g]. *)
Definition reDots : regex := [Rep true 1 (Ascii.eqb ".")].
Definition reSpaces : regex := [Rep true 1 Js.isWhiteSpace].

Definition normalizeRegionToken (token : string) : option string :=
  if negb (Js.truthy token) then None else
  let cleaned := Js.trim (replaceAll reSpaces " " (replaceAll reDots "" token)) in
  if negb (Js.truthy cleaned) then None else
  let lower := Js.toLowerCase cleaned in
  match mapGet REGION_SYNONYMS lower with
  | Some synonym => Some synonym
  | None => if Js.has cleaned CANONICAL_REGIONS then Some cleaned else None
  end.

(** [/[/,&]/g] and [/\s{2,}/g]. *)
Definition reSeparators : regex :=
  [Cls (fun c => Ascii.eqb c "/" || Ascii.eqb c "," || Ascii.eqb c "&")].
Definition reWideGap : regex := [Rep true 2 Js.isWhiteSpace].

Definition tokenizeRegionSegment (segment : string) : list string :=
  filter Js.truthy
    (map Js.trim
       (flat_map (split reWideGap)
          (map Js.trim (split reSeparators segment)))).

(** [/\(([^()]+)\)/g]. *)
Definition notParen (c : ascii) : bool :=
  negb (Ascii.eqb c "(" || Ascii.eqb c ")").
Definition reGroup : regex := [Lit "("; Open; Rep true 1 notParen; Close; Lit ")"].

(** The first capture of a match; every match of a pattern with a group
    has one. *)
Definition group1 (g : list string) : string := nth 0 g EmptyString.

(** The parenthesized groups of a text, left to right ([match[1]] of every
    match of [matchAll]). *)
Definition parenGroups (input : string) : list string :=
  map group1 (matchAll reGroup input).

(** The canonical labels of the tokens of one group, with repetitions. *)
Fixpoint filterMap {A B} (f : A -> option B) (l : list A) : list B :=
  match l with
  | x :: l' => match f x with Some y => y :: filterMap f l' | None => filterMap f l' end
  | [] => []
  end.

Definition normalizedTokens (inside : string) : list string :=
  filterMap normalizeRegionToken (tokenizeRegionSegment inside).

(** The loop of [extractRegions] over the matches. *)
Fixpoint firstRecognized (matches : list string) : option (list string) :=
  match matches with
  | inside :: rest =>
      match normalizedTokens inside with
      | [] => firstRecognized rest
      | tokens => Some (Js.setOf tokens)
      end
  | [] => None
  end.

(** [extractRegions]; [None] is an absent ([undefined]) argument. *)
Definition extractRegions (input : option string) : option (list string) :=
  match input with
  | None => None
  | Some s => if negb (Js.truthy s) then None else firstRecognized (parenGroups s)
  end.

(* ================================================================== *)
(** ** The tree of the XML parser *)
(* ================================================================== *)

(** What [xmlParser.parse] returns.  With [parseTagValue] and
    [parseAttributeValue] off it holds no numbers; [true] is the value of
    an attribute written without one.  [RUndefined] is the value of a
    property that is not there.  The fields of an object are listed in
    the order in which [Object.entries] enumerates them, and a later
    binding of a key replaces an earlier one. *)
#[warnings="-register-all"] Inductive RawValue : Type :=
| RUndefined
| RNull
| RBool (b : bool)
| RString (s : string)
| RArray (items : list RawValue)
| RObject (fields : list (string * RawValue)).

Definition RawRecord := RawValue.

Fixpoint lookup {A} (fields : list (string * A)) (key : string) : option A :=
  match fields with
  | (k, v) :: rest =>
      match lookup rest key with
      | Some v' => Some v'
      | None => if String.eqb key k then Some v else None
      end
  | [] => None
  end.

(** The value of the decimal digits of a text. *)
Fixpoint digitsValue (acc : N) (s : string) : option N :=
  match s with
  | String c s' =>
      if Js.isDigit c then digitsValue (10 * acc + (N_of_ascii c - 48))%N s' else None
  | EmptyString => Some acc
  end.

(** An array index: the canonical decimal text of an integer below
    2^32 - 1.  The properties of an object with such keys are enumerated
    first, in ascending order; the others follow in creation order. *)
Definition arrayIndex (key : string) : option N :=
  match key with
  | EmptyString => None
  | String c rest =>
      if Ascii.eqb c "0" && negb (String.eqb rest "") then None
      else
        match digitsValue 0 key with
        | Some n => if (n <=? 4294967294)%N then Some n else None
        | None => None
        end
  end.

(** A new property [key] is enumerated before the property [k]. *)
Definition entersBefore (key k : string) : bool :=
  match arrayIndex key, arrayIndex k with
  | Some n, Some m => (n <? m)%N
  | Some _, None => true
  | None, _ => false
  end.

Definition hasKey {A} (fields : list (string * A)) (key : string) : bool :=
  existsb (fun entry => String.eqb (fst entry) key) fields.

(** A property that exists keeps its place. *)
Definition replaceValue {A} (fields : list (string * A)) (key : string) (v : A)
  : list (string * A) :=
  map (fun entry => if String.eqb (fst entry) key then (fst entry, v) else entry) fields.

(** A new property takes its place in the enumeration. *)
Fixpoint insertKey {A} (fields : list (string * A)) (key : string) (v : A)
  : list (string * A) :=
  match fields with
  | (k, x) :: rest =>
      if entersBefore key k then (key, v) :: fields else (k, x) :: insertKey rest key v
  | [] => [(key, v)]
  end.

(** [obj[key] = v] on a plain object, for a value that is a string (the
    code assigns texts only).  [__proto__] is the accessor inherited from
    [Object.prototype], whose setter ignores a value that is not an
    object: the assignment stores nothing. *)
Definition setKey {A} (fields : list (string * A)) (key : string) (v : A)
  : list (string * A) :=
  if String.eqb key "__proto__" then fields
  else if hasKey fields key then replaceValue fields key v
  else insertKey fields key v.

(** [value.key] for the keys the code reads ([datafile], [header], [game],
    [name], [description], [category], [rom], [@_name]): none of them
    exists on a string, a boolean or an array. *)
Definition getProp (v : RawValue) (key : string) : RawValue :=
  match v with
  | RObject fields => match lookup fields key with Some x => x | None => RUndefined end
  | _ => RUndefined
  end.

Definition isNullish (v : RawValue) : bool :=
  match v with RUndefined | RNull => true | _ => false end.

Definition isFalsy (v : RawValue) : bool :=
  match v with
  | RUndefined | RNull | RBool false | RString EmptyString => true
  | _ => false
  end.

(** [Object.entries]. *)
Fixpoint indexed {A} (i : nat) (l : list A) : list (string * A) :=
  match l with
  | x :: l' => (Js.ofNat i, x) :: indexed (S i) l'
  | [] => []
  end.

Fixpoint chars (s : string) : list RawValue :=
  match s with
  | String c s' => RString (String c EmptyString) :: chars s'
  | EmptyString => []
  end.

Definition objectEntries (v : RawValue) : list (string * RawValue) :=
  match v with
  | RObject fields => fields
  | RArray items => indexed 0 items
  | RString s => indexed 0 (chars s)
  | _ => []
  end.

Fixpoint coerceText (value : RawValue) : string :=
  match value with
  | RUndefined | RNull => ""
  | RString s => s
  | RBool b => if b then "true" else "false"
  | RArray items =>
      match items with
      | first :: _ => coerceText first
      | [] => ""
      end
  | RObject fields =>
      (* the binding of ["#text"], when there is one *)
      match
        (fix text (fs : list (string * RawValue)) : option string :=
           match fs with
           | (k, v) :: rest =>
               match text rest with
               | Some t => Some t
               | None => if String.eqb "#text" k then Some (coerceText v) else None
               end
           | [] => None
           end) fields
      with
      | Some t => t
      | None => ""
      end
  end.

Definition toArray (value : RawValue) : list RawValue :=
  match value with
  | RArray items => items
  | RUndefined | RNull => []
  | v => [v]
  end.

(* ================================================================== *)
(** ** Errors *)
(* ================================================================== *)

(** The three [throw]s of the parser and the filter, under the names of
    the specification, and the [TypeError] of a property read on
    [null] or [undefined]. *)
Inductive error : Type :=
| InvalidFormat (message : string)
| NoMatches (message : string)
| TypeError (message : string).

Definition errorMessage (e : error) : string :=
  match e with
  | InvalidFormat m | NoMatches m | TypeError m => m
  end.

Inductive result (A : Type) : Type :=
| Ok (value : A)
| Err (e : error).
Arguments Ok {A} value.
Arguments Err {A} e.

Definition bind {A B} (r : result A) (f : A -> result B) : result B :=
  match r with
  | Ok a => f a
  | Err e => Err e
  end.

Notation "x <- r ;; k" := (bind r (fun x => k))
  (at level 61, r at next level, right associativity).

(** [Array.prototype.map] with a callback that may throw: the first
    throw ends the loop. *)
Fixpoint mapM {A B} (f : A -> result B) (l : list A) : result (list B) :=
  match l with
  | x :: l' => y <- f x ;; ys <- mapM f l' ;; Ok (y :: ys)
  | [] => Ok []
  end.

(* ================================================================== *)
(** ** The data model *)
(* ================================================================== *)

Module DatHeader.
Record t : Type := {
  name : string;
  description : option string;
  version : option string;
  date : option string;
  author : option string;
  homepage : option string;
  url : option string;
  extra : list (string * string)
}.
End DatHeader.

Module DatRom.
Record t : Type := { attributes : list (string * string) }.
End DatRom.

Module DatGame.
Record t : Type := {
  name : string;
  description : string;
  category : string;
  roms : list DatRom.t;
  regions : list string;
  raw : RawRecord
}.
End DatGame.

Module ParsedDat.
Record t : Type := {
  header : DatHeader.t;
  games : list DatGame.t;
  availableRegions : list string;
  descriptor : string;
  normalizedDescriptor : string;
  versionLabel : option string;
  rawRootExtras : list (string * RawValue)
}.
End ParsedDat.

Module FilterSummary.
Record t : Type := {
  initialGames : nat;
  filteredGames : nat;
  removedGames : nat;
  selectedRegions : list string;
  regionLabel : string;
  descriptor : string;
  normalizedDescriptor : string;
  versionLabel : option string
}.
End FilterSummary.

(** The [xml] field is the text fast-xml-parser's builder writes; it is
    left out. *)
Module FilteredDatResult.
Record t : Type := {
  filename : string;
  header : DatHeader.t;
  games : list DatGame.t;
  summary : FilterSummary.t
}.
End FilteredDatResult.

(* ================================================================== *)
(** ** Parser *)
(* ================================================================== *)

Definition emptyHeader : DatHeader.t :=
  {| DatHeader.name := ""; DatHeader.description := None;
     DatHeader.version := None; DatHeader.date := None;
     DatHeader.author := None; DatHeader.homepage := None;
     DatHeader.url := None; DatHeader.extra := [] |}.

(** One round of the loop of [normalizeHeader]. *)
Definition assignHeader (header : DatHeader.t) (entry : string * RawValue) : DatHeader.t :=
  let (key, value) := entry in
  let textValue := coerceText value in
  let '(DatHeader.Build_t n d v dt a hp u ex) := header in
  if String.eqb key "name" then DatHeader.Build_t textValue d v dt a hp u ex
  else if String.eqb key "description" then DatHeader.Build_t n (Some textValue) v dt a hp u ex
  else if String.eqb key "version" then DatHeader.Build_t n d (Some textValue) dt a hp u ex
  else if String.eqb key "date" then DatHeader.Build_t n d v (Some textValue) a hp u ex
  else if String.eqb key "author" then DatHeader.Build_t n d v dt (Some textValue) hp u ex
  else if String.eqb key "homepage" then DatHeader.Build_t n d v dt a (Some textValue) u ex
  else if String.eqb key "url" then DatHeader.Build_t n d v dt a hp (Some textValue) ex
  else DatHeader.Build_t n d v dt a hp u (setKey ex key textValue).

Definition normalizeHeader (rawHeader : RawRecord) : result DatHeader.t :=
  let entries := objectEntries (if isNullish rawHeader then RObject [] else rawHeader) in
  let header := fold_left assignHeader entries emptyHeader in
  if negb (Js.truthy (DatHeader.name header))
  then Err (InvalidFormat "Invalid DAT header: missing <name>.")
  else Ok header.

Definition startsWith (prefix s : string) : bool := String.prefix prefix s.

(** [key.slice(2)]. *)
Definition slice2 (key : string) : string :=
  String.substring 2 (String.length key - 2) key.

Definition mapRomAttributes (rawRom : RawRecord) : list (string * string) :=
  if isFalsy rawRom then [] else
  fold_left
    (fun attributes entry =>
       let (key, value) := entry : string * RawValue in
       if startsWith "@_" key
       then setKey attributes (slice2 key) (coerceText value)
       else attributes)
    (objectEntries rawRom) [].

(** [a ?? b] on the results of [extractRegions]. *)
Definition orElse {A} (a : option A) (b : option A) : option A :=
  match a with Some _ => a | None => b end.

Definition normalizeGame (rawGame : RawRecord) : result DatGame.t :=
  match rawGame with
  | RUndefined =>
      Err (TypeError "Cannot read properties of undefined (reading 'name')")
  | RNull =>
      Err (TypeError "Cannot read properties of null (reading 'name')")
  | _ =>
      let name :=
        match getProp rawGame "@_name" with
        | RString s => s
        | _ => coerceText (getProp rawGame "name")
        end in
      let description := coerceText (getProp rawGame "description") in
      let category := coerceText (getProp rawGame "category") in
      let romEntries :=
        map (fun rom => {| DatRom.attributes := mapRomAttributes rom |})
            (toArray (getProp rawGame "rom")) in
      let regions :=
        match
          orElse (extractRegions (Some name))
            (orElse (extractRegions (Some description))
               (match romEntries with
                | first :: _ => extractRegions (lookup (DatRom.attributes first) "name")
                | [] => None
                end))
        with
        | Some found => found
        | None => []
        end in
      Ok {| DatGame.name := name;
            DatGame.description := description;
            DatGame.category := category;
            DatGame.roms := romEntries;
            DatGame.regions := match regions with [] => [] | _ => regions end;
            DatGame.raw := rawGame |}
  end.

(** *** Descriptors *)

Definition notLineTerminator (c : ascii) : bool := negb (Js.isLineTerminator c).
Definition notDashParen (c : ascii) : bool :=
  negb (Ascii.eqb c "-" || Ascii.eqb c "(" || Ascii.eqb c ")").

(** [^<system>\s*-\s*(.+?)\s*\(<count>\)] with both texts escaped. *)
Definition reDescriptor (systemName : string) (totalGames : nat) : regex :=
  literal systemName
  ++ [Rep true 0 Js.isWhiteSpace; Lit "-"; Rep true 0 Js.isWhiteSpace;
      Open; Rep false 1 notLineTerminator; Close;
      Rep true 0 Js.isWhiteSpace; Lit "("]
  ++ literal (Js.ofNat totalGames) ++ [Lit ")"].

Definition tryExtractDescriptor (description systemName : string) (totalGames : nat)
  : option string :=
  if negb (Js.truthy description) then None else
  match execAnchored (reDescriptor systemName totalGames) description with
  | Some g => if Js.truthy (group1 g) then Some (Js.trim (group1 g)) else None
  | None => None
  end.

(** [/-\s*([^-()]+)\s*\(\d+\)/]. *)
Definition reGenericDescriptor : regex :=
  [Lit "-"; Rep true 0 Js.isWhiteSpace; Open; Rep true 1 notDashParen; Close;
   Rep true 0 Js.isWhiteSpace; Lit "("; Rep true 1 Js.isDigit; Lit ")"].

(** [/datfile/i] and [/disc/i]. *)
Definition reDatfile : regex := literalIgnoreCase "datfile".
Definition reDisc : regex := literalIgnoreCase "disc".

Definition extractGenericDescriptor (description : string) : option string :=
  match exec reGenericDescriptor description with
  | Some fallbackMatch =>
      if Js.truthy (group1 (groups fallbackMatch))
      then Some (Js.trim (group1 (groups fallbackMatch)))
      else if test reDatfile description then Some "Datfile" else None
  | None => if test reDatfile description then Some "Datfile" else None
  end.

Definition normalizeDescriptorLabel (label : string) : string :=
  if test reDatfile label then "Datfile"
  else if test reDisc label then "Datfile"
  else label.

Definition deriveDescriptors (header : DatHeader.t) (totalGames : nat) : string * string :=
  let description :=
    match DatHeader.description header with Some d => d | None => "" end in
  let candidate := tryExtractDescriptor description (DatHeader.name header) totalGames in
  let generic := orElse candidate (extractGenericDescriptor description) in
  let normalized :=
    normalizeDescriptorLabel (match generic with Some g => g | None => "Datfile" end) in
  let originalDescriptor := match generic with Some g => g | None => normalized end in
  (originalDescriptor, normalized).

(** *** The document *)

(** One round of the loop that fills [availableRegionSet]. *)
Definition collectStep (availableRegionSet : list string) (game : DatGame.t) : list string :=
  match DatGame.regions game with
  | [] => Js.add availableRegionSet DEFAULT_REGION
  | _ => Js.addAll availableRegionSet (DatGame.regions game)
  end.

Definition collectRegions (gamesArray : list DatGame.t) : list string :=
  fold_left collectStep gamesArray [].

Section Collation.

(** [a.localeCompare(b)]: negative, zero or positive.  It depends on the
    locale of the process. *)
Variable localeCompare : string -> string -> Z.

(** [Array.prototype.sort] is stable; with a consistent comparator it
    returns the list this insertion sort returns. *)
Fixpoint insertSorted (x : string) (l : list string) : list string :=
  match l with
  | y :: l' => if (localeCompare x y <=? 0)%Z then x :: l else y :: insertSorted x l'
  | [] => [x]
  end.

Fixpoint sort (l : list string) : list string :=
  match l with
  | x :: l' => insertSorted x (sort l')
  | [] => []
  end.

(** [parsed] is the value of [xmlParser.parse(xmlInput)]. *)
Definition parseDat (parsed : RawValue) : result ParsedDat.t :=
  let datafile := getProp parsed "datafile" in
  if isFalsy datafile
  then Err (InvalidFormat "Invalid DAT: missing <datafile> root node.")
  else
    let rawHeader :=
      match getProp datafile "header" with RUndefined => RObject [] | v => v end in
    let rawGame :=
      match getProp datafile "game" with RUndefined => RArray [] | v => v end in
    let rootExtras :=
      filter (fun entry => negb (String.eqb (fst entry) "header"
                                 || String.eqb (fst entry) "game"))
             (objectEntries datafile) in
    header <- normalizeHeader rawHeader ;;
    let versionLabel := orElse (DatHeader.version header) (DatHeader.date header) in
    gamesArray <- mapM normalizeGame (toArray rawGame) ;;
    let availableRegionSet := collectRegions gamesArray in
    let '(originalDescriptor, normalizedDescriptor) :=
      deriveDescriptors header (List.length gamesArray) in
    let availableRegions := sort availableRegionSet in
    Ok {| ParsedDat.header := header;
          ParsedDat.games := gamesArray;
          ParsedDat.availableRegions := availableRegions;
          ParsedDat.descriptor := originalDescriptor;
          ParsedDat.normalizedDescriptor := normalizedDescriptor;
          ParsedDat.versionLabel := versionLabel;
          ParsedDat.rawRootExtras := rootExtras |}.

End Collation.

Definition getAvailableRegions (parsed : ParsedDat.t) : list string :=
  ParsedDat.availableRegions parsed.

(* ================================================================== *)
(** ** Filter *)
(* ================================================================== *)

Definition createRegionLabel (selectedRegions : list string) : string :=
  match selectedRegions with
  | [] => ""
  | _ => Js.join ", " selectedRegions
  end.

(** [nowISO] is [new Date().toISOString()]. *)
Definition buildFilteredHeader (header : DatHeader.t) (filteredCount : nat)
    (selectedRegions : list string) (descriptorOriginal : string)
    (versionLabel : option string) (nowISO : string) : DatHeader.t :=
  let regionLabel := createRegionLabel selectedRegions in
  let systemName := DatHeader.name header in
  let version :=
    match orElse versionLabel (orElse (DatHeader.version header) (DatHeader.date header)) with
    | Some v => v
    | None => Js.beforeFirst "T" nowISO
    end in
  let decoratedSystem :=
    if Js.truthy regionLabel
    then (systemName ++ " (" ++ regionLabel ++ ")")%string
    else systemName in
  let description :=
    (decoratedSystem ++ " - " ++ descriptorOriginal
       ++ " (" ++ Js.ofNat filteredCount ++ ") (" ++ version ++ ")")%string in
  {| DatHeader.name := decoratedSystem;
     DatHeader.description := Some description;
     DatHeader.version := DatHeader.version header;
     DatHeader.date := DatHeader.date header;
     DatHeader.author := DatHeader.author header;
     DatHeader.homepage := DatHeader.homepage header;
     DatHeader.url := DatHeader.url header;
     DatHeader.extra := DatHeader.extra header |}.

(** The character class of [sanitizeFilename]: less-than, greater-than,
    colon, double quote, slash, backslash, bar, question mark, star. *)
Definition illegalInFilename (c : ascii) : bool :=
  existsb (Ascii.eqb c)
    ["<"; ">"; ":"; ascii_of_nat 34; "/"; ascii_of_nat 92; "|"; "?"; "*"]%char.

Definition sanitizeFilename (input : string) : string :=
  Js.trim (replaceAll reSpaces " " (replaceAll [Cls illegalInFilename] " " input)).

(** [/(\.[^.]+)$/]. *)
Definition reExtension : regex :=
  [Open; Lit "."; Rep true 1 (fun c => negb (Ascii.eqb c ".")); Close; Eos].

(** The pattern of [deriveFilteredFilename], anchored at both ends: a lazy
    prefix, a dash between optional blanks, a lazy descriptor free of
    dashes and parentheses, digits in parentheses, the rest of the line. *)
Definition reFilename : regex :=
  [Open; Rep false 0 notLineTerminator; Close;
   Rep true 0 Js.isWhiteSpace; Lit "-"; Rep true 0 Js.isWhiteSpace;
   Open; Rep false 1 notDashParen; Close;
   Rep true 0 Js.isWhiteSpace; Lit "(";
   Open; Rep true 1 Js.isDigit; Close; Lit ")";
   Open; Rep true 0 notLineTerminator; Close; Eos].

Definition versionSuffix (versionLabel : option string) : string :=
  match versionLabel with
  | Some v => if Js.truthy v then (" (" ++ v ++ ")")%string else ""
  | None => ""
  end.

Definition deriveFilteredFilename (baseFilename headerDescription : option string)
    (decoratedSystem descriptorNormalized : string) (filteredCount : nat)
    (versionLabel : option string) : string :=
  let extensionMatch :=
    match baseFilename with Some b => exec reExtension b | None => None end in
  let extension :=
    match extensionMatch with Some m => group1 (groups m) | None => ".dat" end in
  let baseWithoutExtension :=
    match baseFilename, extensionMatch with
    | Some b, Some m => if Js.truthy b then Some (before m) else baseFilename
    | _, _ => baseFilename
    end in
  let rebuilt (suffix : string) :=
    (sanitizeFilename
       (decoratedSystem ++ " - " ++ descriptorNormalized
          ++ " (" ++ Js.ofNat filteredCount ++ ")" ++ suffix) ++ extension)%string in
  let withoutBase :=
    match headerDescription with
    | Some d =>
        if Js.truthy d then (sanitizeFilename d ++ extension)%string
        else rebuilt (versionSuffix versionLabel)
    | None => rebuilt (versionSuffix versionLabel)
    end in
  match baseWithoutExtension with
  | Some b =>
      if Js.truthy b then
        match execAnchored reFilename b with
        | Some g =>
            let rest := nth 3 g "" in
            let restTrimmed := Js.trim rest in
            rebuilt (if Js.truthy restTrimmed
                     then (" " ++ restTrimmed)%string
                     else versionSuffix versionLabel)
        | None => withoutBase
        end
      else withoutBase
  | None => withoutBase
  end.

(** The first statement of [filterDatByRegions]. *)
Definition canonicalSelections (selectedRegions : list string) : list string :=
  Js.setOf
    (filter Js.truthy
       (map (fun value =>
               match normalizeRegionToken value with
               | Some canonical => canonical
               | None => value
               end)
            selectedRegions)).

(** The entries [filterDatByRegions] keeps. *)
Definition keptGames (parsed : ParsedDat.t) (selectedRegions : list string)
  : list DatGame.t :=
  let normalizedSelection := Js.setOf (canonicalSelections selectedRegions) in
  let selectionActive := Nat.ltb 0 (List.length normalizedSelection) in
  if selectionActive
  then filter
         (fun game =>
            existsb (fun region => Js.has region normalizedSelection)
                    (DatGame.regions game))
         (ParsedDat.games parsed)
  else ParsedDat.games parsed.

Definition filterDatByRegions (parsed : ParsedDat.t) (selectedRegions : list string)
    (baseFilename : option string) (nowISO : string) : result FilteredDatResult.t :=
  let canonicalSelections := canonicalSelections selectedRegions in
  let games := keptGames parsed selectedRegions in
  match games with
  | [] => Err (NoMatches "No games match the selected region filters.")
  | _ =>
      let descriptorOriginal :=
        if Js.truthy (ParsedDat.descriptor parsed)
        then ParsedDat.descriptor parsed else "Datfile" in
      let descriptorNormalized :=
        if Js.truthy (ParsedDat.normalizedDescriptor parsed)
        then ParsedDat.normalizedDescriptor parsed
        else normalizeDescriptorLabel descriptorOriginal in
      let header :=
        buildFilteredHeader (ParsedDat.header parsed) (List.length games)
          canonicalSelections descriptorOriginal (ParsedDat.versionLabel parsed) nowISO in
      let filename :=
        deriveFilteredFilename baseFilename (DatHeader.description header)
          (DatHeader.name header) descriptorNormalized (List.length games)
          (ParsedDat.versionLabel parsed) in
      let summary :=
        {| FilterSummary.initialGames := List.length (ParsedDat.games parsed);
           FilterSummary.filteredGames := List.length games;
           FilterSummary.removedGames :=
             List.length (ParsedDat.games parsed) - List.length games;
           FilterSummary.selectedRegions := canonicalSelections;
           FilterSummary.regionLabel := createRegionLabel canonicalSelections;
           FilterSummary.descriptor := descriptorOriginal;
           FilterSummary.normalizedDescriptor := descriptorNormalized;
           FilterSummary.versionLabel := ParsedDat.versionLabel parsed |} in
      Ok {| FilteredDatResult.filename := filename;
            FilteredDatResult.header := header;
            FilteredDatResult.games := games;
            FilteredDatResult.summary := summary |}
  end.

(* ================================================================== *)
(** ** The preview handler of the main process *)
(* ================================================================== *)

Module LoadedDatState.
Record t : Type := {
  sourcePath : string;
  originalFilename : string;
  parsed : ParsedDat.t
}.
End LoadedDatState.

Module FilterPreviewResponse.
Record t : Type := {
  success : bool;
  error : option string;
  header : option DatHeader.t;
  summary : option FilterSummary.t;
  filename : option string
}.
End FilterPreviewResponse.

Definition runFilter (state : LoadedDatState.t) (regions : list string) (nowISO : string)
  : result FilteredDatResult.t :=
  filterDatByRegions (LoadedDatState.parsed state) regions
    (Some (LoadedDatState.originalFilename state)) nowISO.

(** [handlePreviewFilter] reads the module variable [loadedDat]; the
    handler is a function of that variable and of the request, and returns
    the response with the variable's value afterwards. *)
Definition handlePreviewFilter (loadedDat : option LoadedDatState.t)
    (regions : list string) (nowISO : string)
  : FilterPreviewResponse.t * option LoadedDatState.t :=
  match loadedDat with
  | None =>
      ({| FilterPreviewResponse.success := false;
          FilterPreviewResponse.error := Some "No DAT file loaded.";
          FilterPreviewResponse.header := None;
          FilterPreviewResponse.summary := None;
          FilterPreviewResponse.filename := None |}, loadedDat)
  | Some state =>
      match runFilter state regions nowISO with
      | Ok result =>
          ({| FilterPreviewResponse.success := true;
              FilterPreviewResponse.error := None;
              FilterPreviewResponse.header := Some (FilteredDatResult.header result);
              FilterPreviewResponse.summary := Some (FilteredDatResult.summary result);
              FilterPreviewResponse.filename := Some (FilteredDatResult.filename result) |},
           loadedDat)
      | Err e =>
          ({| FilterPreviewResponse.success := false;
              FilterPreviewResponse.error := Some (errorMessage e);
              FilterPreviewResponse.header := None;
              FilterPreviewResponse.summary := None;
              FilterPreviewResponse.filename := None |}, loadedDat)
      end
  end.

(* ================================================================== *)
(** ** Vocabulary of the statements *)
(* ================================================================== *)

(** First-occurrence order: an element seen before is skipped, a new one
    is listed and remembered. *)
Fixpoint firstSeen (seen xs : list string) : list string :=
  match xs with
  | x :: rest =>
      if Js.has x seen then firstSeen seen rest
      else x :: firstSeen (seen ++ [x]) rest
  | [] => []
  end.

Definition differs (x y : string) : bool := negb (String.eqb y x).

(** What the filter makes of one selected string: its canonical label
    when token normalization recognizes it, else the string itself. *)
Definition canonicalOrKept (value : string) : string :=
  match normalizeRegionToken value with
  | Some canonical => canonical
  | None => value
  end.

Definition nonEmpty (value : string) : bool := negb (String.eqb value "").

(** The longest prefix of characters of a class, and what follows it. *)
Fixpoint takeWhile (p : ascii -> bool) (s : string) : string :=
  match s with
  | String c s' => if p c then String c (takeWhile p s') else EmptyString
  | EmptyString => EmptyString
  end.

Fixpoint dropWhile (p : ascii -> bool) (s : string) : string :=
  match s with
  | String c s' => if p c then dropWhile p s' else s
  | EmptyString => EmptyString
  end.

Fixpoint feedAll (run : string) (st : caps) : caps :=
  match run with
  | String c run' => feedAll run' (feed c st)
  | EmptyString => st
  end.

(** A continuation never returns more input than it was given. *)
Definition shrinking (k : continuation) : Prop :=
  forall s st x, k s st = Some x -> String.length (snd x) <= String.length s.

Fixpoint lowerAscii (s : string) : string :=
  match s with
  | String c s' => String (asciiLower c) (lowerAscii s')
  | EmptyString => EmptyString
  end.

(** [text] contains [word] up to ASCII case. *)
Definition mentions (word text : string) : Prop :=
  exists pre mid post,
    text = (pre ++ mid ++ post)%string /\ lowerAscii mid = lowerAscii word.

(** Normalization returns the label itself, and the label is not empty. *)
Definition fixedByNormalization (c : string) : bool :=
  match normalizeRegionToken c with
  | Some c' => String.eqb c' c && Js.truthy c
  | None => false
  end.

(** The header element of a parsed tree and the binding of its [name]
    child, when it has one. *)
Definition rawHeaderOf (parsed : RawValue) : RawValue :=
  getProp (getProp parsed "datafile") "header".

Definition nameField (parsed : RawValue) : option RawValue :=
  match rawHeaderOf parsed with
  | RObject fields => lookup fields "name"
  | _ => None
  end.

(** The name child is absent, or its text is empty. *)
Definition nameAbsentOrEmpty (parsed : RawValue) : Prop :=
  match nameField parsed with
  | None => True
  | Some v => coerceText v = ""
  end.

(** The root element is absent. *)
Definition rootAbsent (parsed : RawValue) : Prop :=
  getProp parsed "datafile" = RUndefined.

(** The defaults of the destructuring in [parseDat]. *)
Definition headerOrEmpty (v : RawValue) : RawValue :=
  match v with RUndefined => RObject [] | _ => v end.

Definition gamesOrEmpty (v : RawValue) : RawValue :=
  match v with RUndefined => RArray [] | _ => v end.

(** Where an entry's regions come from: its name, else its description,
    else the name attribute of its first sub-record. *)
Definition detected (g : DatGame.t) : option (list string) :=
  orElse (extractRegions (Some (DatGame.name g)))
    (orElse (extractRegions (Some (DatGame.description g)))
       (match DatGame.roms g with
        | first :: _ => extractRegions (lookup (DatRom.attributes first) "name")
        | [] => None
        end)).

(** The order [sort] produces. *)
Definition precedes (cmp : string -> string -> Z) (a b : string) : Prop :=
  (cmp a b <= 0)%Z.

(** Two region lists have a label in common. *)
Definition sharesRegion (regions selection : list string) : Prop :=
  exists r, In r regions /\ In r selection.

(** The test of the filter on one entry. *)
Definition keeps (selection : list string) (game : DatGame.t) : bool :=
  existsb (fun region => Js.has region selection) (DatGame.regions game).

(** The count a filter reports, when it succeeds. *)
Definition filteredCount (r : result FilteredDatResult.t) : option nat :=
  match r with
  | Ok x => Some (FilterSummary.filteredGames (FilteredDatResult.summary x))
  | Err _ => None
  end.

(* ================================================================== *)
(** ** Sample inputs *)
(* ================================================================== *)

(** A comparator for the examples: code-unit order. *)
Definition codeUnitCompare (a b : string) : Z :=
  match String.compare a b with
  | Lt => (-1)%Z
  | Eq => 0%Z
  | Gt => 1%Z
  end.

(** A reading of the clock. *)
Definition sampleNow : string := "2026-01-01T00:00:00.000Z".

Definition game (name : string) : RawValue :=
  RObject [("@_name", RString name); ("description", RString name)].

(** Four entries: one without a recognizable region. *)
Definition sampleDat : RawValue :=
  RObject
    [("datafile",
      RObject
        [("header",
          RObject [("name", RString "Microsoft - Xbox");
                   ("description", RString "Microsoft - Xbox - Datfile (4) (2025-11-07 05-38-55)");
                   ("version", RString "2025-11-07 05-38-55")]);
         ("game",
          RArray [game "Halo (USA)"; game "Fable (Europe) (En,Fr,De)";
                  game "Demo Disc"; game "Otogi (Japan, USA)"])])].

(** A document with one entry, tagged "(Unknown)". *)
Definition unknownTaggedDat : RawValue :=
  RObject
    [("datafile",
      RObject
        [("header", RObject [("name", RString "Sony - PlayStation")]);
         ("game", RObject [("@_name", RString "Mystery (Unknown)")])])].

(** Three entries, each with a recognized region. *)
Definition taggedDat : RawValue :=
  RObject
    [("datafile",
      RObject
        [("header", RObject [("name", RString "Sega - Saturn"); ("date", RString "2024-05-01")]);
         ("game",
          RArray [game "Nights (USA)"; game "Sakura (Japan) (Rev A)";
                  game "Mystery (Unknown)"])])].

(** A document whose header has a name child with no text. *)
Definition namelessDat : RawValue :=
  RObject
    [("datafile",
      RObject [("header", RObject [("name", RString ""); ("version", RString "1")]);
               ("game", RObject [("@_name", RString "Halo (USA)")])])].

(** A header whose description matches neither descriptor pattern. *)
Definition bareHeader : DatHeader.t :=
  {| DatHeader.name := "Redump"; DatHeader.description := Some "Redump DATFILE";
     DatHeader.version := None; DatHeader.date := None;
     DatHeader.author := None; DatHeader.homepage := None;
     DatHeader.url := None; DatHeader.extra := [] |}.

Definition emptyDoc : ParsedDat.t :=
  {| ParsedDat.header := emptyHeader; ParsedDat.games := [];
     ParsedDat.availableRegions := []; ParsedDat.descriptor := "";
     ParsedDat.normalizedDescriptor := ""; ParsedDat.versionLabel := None;
     ParsedDat.rawRootExtras := [] |}.

(** The document [parseDat] returns for [sampleDat]. *)
Definition sampleDoc : ParsedDat.t :=
  Eval vm_compute in
    match parseDat codeUnitCompare sampleDat with Ok doc => doc | Err _ => emptyDoc end.

(** The document [parseDat] returns for [taggedDat]. *)
Definition taggedDoc : ParsedDat.t :=
  Eval vm_compute in
    match parseDat codeUnitCompare taggedDat with Ok doc => doc | Err _ => emptyDoc end.

(** The document [parseDat] returns for [unknownTaggedDat]. *)
Definition unknownTaggedDoc : ParsedDat.t :=
  Eval vm_compute in
    match parseDat codeUnitCompare unknownTaggedDat with
    | Ok doc => doc
    | Err _ => emptyDoc
    end.

(* ================================================================== *)
(** ** Further vocabulary of the statements *)
(* ================================================================== *)

(** Every character of a string satisfies a test. *)
Fixpoint allChars (q : ascii -> bool) (s : string) : bool :=
  match s with
  | String c s' => q c && allChars q s'
  | EmptyString => true
  end.

(** [cleaned] of [normalizeRegionToken]. *)
Definition cleanToken (token : string) : string :=
  Js.trim (replaceAll reSpaces " " (replaceAll reDots "" token)).

(** A match leaves a suffix of the text. *)
Definition suffixing (k : continuation) : Prop :=
  forall s st x, k s st = Some x -> exists mid, s = (mid ++ snd x)%string.

(** A pattern that matches wherever a character of class [p] stands. *)
Definition triggeredBy (p : ascii -> bool) (r : regex) : Prop :=
  forall c s, p c = true -> matchHere r (String c s) start <> None.

Definition notDot (c : ascii) : bool := negb (Ascii.eqb c ".").

Definition notSeparator (c : ascii) : bool :=
  negb (Ascii.eqb c "/" || Ascii.eqb c "," || Ascii.eqb c "&").

Definition legalInFilename (c : ascii) : bool := negb (illegalInFilename c).

(** A canonical label other than the sentinel is the value of its own
    lower-case form in the synonym table. *)
Definition reachedBySynonym (c : string) : bool :=
  String.eqb c DEFAULT_REGION
  || match mapGet REGION_SYNONYMS (Js.toLowerCase c) with
     | Some v => String.eqb v c
     | None => false
     end.

(** [extension] of [deriveFilteredFilename]. *)
Definition fileExtension (baseFilename : option string) : string :=
  match baseFilename with
  | Some b =>
      match exec reExtension b with
      | Some m => group1 (groups m)
      | None => ".dat"
      end
  | None => ".dat"
  end.

(** The header fields [normalizeHeader] knows. *)
Definition knownHeaderKey (key : string) : bool :=
  existsb (String.eqb key)
    ["name"; "description"; "version"; "date"; "author"; "homepage"; "url"].

(** The children of a header that its extra mapping does not hold: the
    known fields, and [__proto__]. *)
Definition keptApart (key : string) : bool :=
  knownHeaderKey key || String.eqb key "__proto__".

(** The text of a field of an object, when the object has the field. *)
Definition fieldText (fields : list (string * RawValue)) (key : string) : option string :=
  match lookup fields key with
  | Some v => Some (coerceText v)
  | None => None
  end.

(** A field found in the object, else the one kept so far. *)
Definition orKeep (found kept : option string) : option string :=
  match found with Some t => Some t | None => kept end.

(** One round of the loop of [mapRomAttributes]. *)
Definition romStep (attributes : list (string * string)) (entry : string * RawValue)
  : list (string * string) :=
  let (key, value) := entry in
  if startsWith "@_" key
  then setKey attributes (slice2 key) (coerceText value)
  else attributes.

(* ================================================================== *)
(** ** The selection of the renderer *)
(* ================================================================== *)

(** [pickDefaultRegions] of the renderer. *)
Definition preferredDefaultRegions : list string := ["USA"; "World"].

Definition pickDefaultRegions (regions : list string) : list string :=
  let defaults := filter (fun region => Js.has region regions) preferredDefaultRegions in
  match defaults with
  | [] => []
  | _ => defaults
  end.

(** The state update of [handleToggleRegion]. *)
Definition toggleRegion (current : list string) (region : string) : list string :=
  if Js.has region current
  then filter (fun value => negb (String.eqb value region)) current
  else current ++ [region].

(** What the user does to the selection in the renderer:
    [handleToggleRegion], [handleSelectAll], [handleClearSelection]. *)
Inductive SelectionAction : Type :=
  | ToggleRegion (region : string)
  | SelectAll
  | ClearSelection.

(** The state update of each handler, given the regions of the loaded
    document. *)
Definition applyAction (regions : list string) (current : list string)
    (action : SelectionAction) : list string :=
  match action with
  | ToggleRegion region => toggleRegion current region
  | SelectAll => regions
  | ClearSelection => []
  end.

(** The renderer draws one checkbox per region of the loaded document, so
    a toggle is always of such a region. *)
Definition offered (regions : list string) (action : SelectionAction) : bool :=
  match action with
  | ToggleRegion region => Js.has region regions
  | _ => true
  end.

(** [regionLabel] of the renderer. *)
Definition regionLabel (selectedRegions : list string) : string :=
  match selectedRegions with
  | [] => "All regions"
  | _ => Js.join ", " selectedRegions
  end.

(* ================================================================== *)
(** ** The XML text of the filtered document *)
(* ================================================================== *)

(** The characters of a line break, and the double quote. *)
Definition LF : ascii := "010"%char.

Definition CR : ascii := "013"%char.

Definition quote : string := String (Ascii.ascii_of_nat 34) "".

Definition XML_DECLARATION : string :=
  "<?xml version=" ++ quote ++ "1.0" ++ quote ++ "?>".

Definition DATAFILE_DOCTYPE : string :=
  "<!DOCTYPE datafile PUBLIC " ++ quote
  ++ "-//Logiqx//DTD ROM Management Datafile//EN" ++ quote ++ " " ++ quote
  ++ "http://www.logiqx.com/Dats/datafile.dtd" ++ quote ++ ">".

(** The global replacement of an optional carriage return and a line feed
    by a carriage return and a line feed: at a line feed, or at a carriage
    return with a line feed behind it, the pair is written; any other
    character is copied. *)
Fixpoint normalizeLineEndings (s : string) : string :=
  match s with
  | String c rest =>
      if Ascii.eqb c LF then String CR (String LF (normalizeLineEndings rest))
      else if Ascii.eqb c CR then
        match rest with
        | String d rest' =>
            if Ascii.eqb d LF then String CR (String LF (normalizeLineEndings rest'))
            else String c (normalizeLineEndings rest)
        | EmptyString => String c EmptyString
        end
      else String c (normalizeLineEndings rest)
  | EmptyString => EmptyString
  end.

(** The text [filterDatByRegions] returns as [xml], from the text
    [xmlBuilder.build] returns. *)
Definition finishXml (xmlContent : string) : string :=
  let xml := Js.join (String LF "") [XML_DECLARATION; DATAFILE_DOCTYPE; xmlContent] in
  let xml := replaceAll (literal "&apos;") "'" xml in
  normalizeLineEndings xml.

(** Every line feed of [s] follows a carriage return; [afterReturn] tells
    whether the character before [s] is one. *)
Fixpoint lineFeedsFollowReturns (afterReturn : bool) (s : string) : bool :=
  match s with
  | String c rest =>
      if Ascii.eqb c LF then afterReturn && lineFeedsFollowReturns false rest
      else lineFeedsFollowReturns (Ascii.eqb c CR) rest
  | EmptyString => true
  end.

(** The text without its carriage returns. *)
Fixpoint withoutReturns (s : string) : string :=
  match s with
  | String c rest =>
      if Ascii.eqb c CR then withoutReturns rest else String c (withoutReturns rest)
  | EmptyString => EmptyString
  end.

(** A character that is no line break and no ampersand. *)
Definition plain (c : ascii) : bool :=
  negb (Ascii.eqb c LF) && negb (Ascii.eqb c CR) && negb (Ascii.eqb c "&").

(* ================================================================== *)
(** ** The load handlers of the main process *)
(* ================================================================== *)

(** What a call into the file system or the XML parser gives: a value,
    or an Error with its message. *)
Inductive io (A : Type) : Type :=
  | Done (value : A)
  | Failed (message : string).

Arguments Done {A} value.

Arguments Failed {A} message.

(** What the main process reads of its surroundings: [fs.access],
    [fs.readFile], [xmlParser.parse], [path.basename] and the collation of
    [localeCompare]. *)
Module World.
Record t : Type := {
  localeCompare : string -> string -> Z;
  access : string -> io unit;
  readFile : string -> io string;
  parse : string -> io RawValue;
  basename : string -> string
}.
End World.

Module LoadedDatPayload.
Record t : Type := {
  filePath : string;
  originalFilename : string;
  header : DatHeader.t;
  regions : list string;
  totalGames : nat;
  descriptor : string;
  normalizedDescriptor : string;
  versionLabel : option string
}.
End LoadedDatPayload.

(** [OpenDatResponse] and [LoadFromPathResponse]: the first has
    [canceled], the second [success]. *)
Module LoadResponse.
Record t : Type := {
  canceled : option bool;
  success : option bool;
  data : option LoadedDatPayload.t;
  error : option string
}.
End LoadResponse.

Module CurrentDatResponse.
Record t : Type := {
  loaded : bool;
  data : option LoadedDatPayload.t
}.
End CurrentDatResponse.

Module OpenDialogReturnValue.
Record t : Type := {
  canceled : bool;
  filePaths : list string
}.
End OpenDialogReturnValue.

Definition buildLoadedPayload (state : LoadedDatState.t) : LoadedDatPayload.t :=
  {| LoadedDatPayload.filePath := LoadedDatState.sourcePath state;
     LoadedDatPayload.originalFilename := LoadedDatState.originalFilename state;
     LoadedDatPayload.header := ParsedDat.header (LoadedDatState.parsed state);
     LoadedDatPayload.regions := ParsedDat.availableRegions (LoadedDatState.parsed state);
     LoadedDatPayload.totalGames := List.length (ParsedDat.games (LoadedDatState.parsed state));
     LoadedDatPayload.descriptor := ParsedDat.descriptor (LoadedDatState.parsed state);
     LoadedDatPayload.normalizedDescriptor :=
       ParsedDat.normalizedDescriptor (LoadedDatState.parsed state);
     LoadedDatPayload.versionLabel := ParsedDat.versionLabel (LoadedDatState.parsed state) |}.

Definition loadStateFromFile (w : World.t) (filePath : string) : io LoadedDatState.t :=
  match World.access w filePath with
  | Failed message => Failed message
  | Done _ =>
      match World.readFile w filePath with
      | Failed message => Failed message
      | Done fileContent =>
          match World.parse w fileContent with
          | Failed message => Failed message
          | Done tree =>
              match parseDat (World.localeCompare w) tree with
              | Err e => Failed (errorMessage e)
              | Ok parsed =>
                  Done {| LoadedDatState.sourcePath := filePath;
                          LoadedDatState.originalFilename := World.basename w filePath;
                          LoadedDatState.parsed := parsed |}
              end
          end
      end
  end.

Definition loadFailure (respondWithStatus : bool) (message : string) : LoadResponse.t :=
  if respondWithStatus
  then {| LoadResponse.canceled := None; LoadResponse.success := Some false;
          LoadResponse.data := None; LoadResponse.error := Some message |}
  else {| LoadResponse.canceled := Some false; LoadResponse.success := None;
          LoadResponse.data := None; LoadResponse.error := Some message |}.

Definition loadSuccess (respondWithStatus : bool) (data : LoadedDatPayload.t)
  : LoadResponse.t :=
  if respondWithStatus
  then {| LoadResponse.canceled := None; LoadResponse.success := Some true;
          LoadResponse.data := Some data; LoadResponse.error := None |}
  else {| LoadResponse.canceled := Some false; LoadResponse.success := None;
          LoadResponse.data := Some data; LoadResponse.error := None |}.

(** [loadDatFromPath], with the module variable [loadedDat] before and
    after. *)
Definition loadDatFromPath (w : World.t) (loadedDat : option LoadedDatState.t)
    (filePath : string) (respondWithStatus : bool)
  : LoadResponse.t * option LoadedDatState.t :=
  if negb (Js.truthy filePath)
  then (loadFailure respondWithStatus "No file path provided.", loadedDat)
  else
    match loadStateFromFile w filePath with
    | Done state => (loadSuccess respondWithStatus (buildLoadedPayload state), Some state)
    | Failed message => (loadFailure respondWithStatus message, loadedDat)
    end.

Definition handleLoadFromPath (w : World.t) (loadedDat : option LoadedDatState.t)
    (filePath : string) : LoadResponse.t * option LoadedDatState.t :=
  loadDatFromPath w loadedDat filePath true.

(** [handleOpenDat], from what the dialog returned. *)
Definition handleOpenDat (w : World.t) (loadedDat : option LoadedDatState.t)
    (dialogResult : OpenDialogReturnValue.t)
  : LoadResponse.t * option LoadedDatState.t :=
  match OpenDialogReturnValue.canceled dialogResult,
        OpenDialogReturnValue.filePaths dialogResult with
  | false, filePath :: _ => loadDatFromPath w loadedDat filePath false
  | _, _ =>
      ({| LoadResponse.canceled := Some true; LoadResponse.success := None;
          LoadResponse.data := None; LoadResponse.error := None |}, loadedDat)
  end.

Definition handleGetCurrentDat (loadedDat : option LoadedDatState.t)
  : CurrentDatResponse.t * option LoadedDatState.t :=
  match loadedDat with
  | None => ({| CurrentDatResponse.loaded := false; CurrentDatResponse.data := None |},
             loadedDat)
  | Some state =>
      ({| CurrentDatResponse.loaded := true;
          CurrentDatResponse.data := Some (buildLoadedPayload state) |}, loadedDat)
  end.

(** The requests of the renderer these handlers serve. *)
Inductive Request : Type :=
  | OpenDat (dialogResult : OpenDialogReturnValue.t)
  | LoadFromPath (filePath : string)
  | GetCurrent
  | PreviewFilter (regions : list string) (nowISO : string).

(** The module variable [loadedDat] after a request. *)
Definition afterRequest (w : World.t) (loadedDat : option LoadedDatState.t)
    (request : Request) : option LoadedDatState.t :=
  match request with
  | OpenDat dialogResult => snd (handleOpenDat w loadedDat dialogResult)
  | LoadFromPath filePath => snd (handleLoadFromPath w loadedDat filePath)
  | GetCurrent => snd (handleGetCurrentDat loadedDat)
  | PreviewFilter regions nowISO => snd (handlePreviewFilter loadedDat regions nowISO)
  end.

(** The state holds what [loadStateFromFile] read at its path. *)
Definition readFrom (w : World.t) (state : LoadedDatState.t) : Prop :=
  LoadedDatState.sourcePath state <> ""
  /\ LoadedDatState.originalFilename state
     = World.basename w (LoadedDatState.sourcePath state)
  /\ exists fileContent tree,
       World.readFile w (LoadedDatState.sourcePath state) = Done fileContent
       /\ World.parse w fileContent = Done tree
       /\ parseDat (World.localeCompare w) tree = Ok (LoadedDatState.parsed state).

(** A world with one file. *)
Definition sampleWorld : World.t :=
  {| World.localeCompare := codeUnitCompare;
     World.access := fun path =>
       if String.eqb path "/dats/xbox.dat" then Done tt
       else Failed "ENOENT: no such file or directory";
     World.readFile := fun path =>
       if String.eqb path "/dats/xbox.dat" then Done "<datafile/>"
       else Failed "ENOENT: no such file or directory";
     World.parse := fun _ => Done sampleDat;
     World.basename := fun _ => "xbox.dat" |}.

(* ================================================================== *)
(** ** Worked examples, checked by evaluation *)
(* ================================================================== *)

Example parenGroups_ex :
  parenGroups "Some Game (Europe) (En,Fr,De)" = ["Europe"; "En,Fr,De"].
Proof. vm_compute. reflexivity. Qed.

Example parenGroups_nested :
  parenGroups "a ((x) (y (z)) () (w" = ["x"; "z"].
Proof. vm_compute. reflexivity. Qed.

Example tokenize_ex :
  tokenizeRegionSegment " USA ,Europe / Japan  Asia & hong  kong" =
  ["USA"; "Europe"; "Japan"; "Asia"; "hong"; "kong"].
Proof. vm_compute. reflexivity. Qed.

Example normalize_ex :
  map normalizeRegionToken ["U.S.A."; " north   america "; "PAL"; "En"; "Unknown"; "unknown"; "Hong Kong"] =
  [Some "USA"; Some "USA"; Some "Europe"; None; Some "Unknown"; None; Some "Hong Kong"].
Proof. vm_compute. reflexivity. Qed.

Example extract_ex :
  extractRegions (Some "Some Game (Europe) (En,Fr,De)") = Some ["Europe"].
Proof. vm_compute. reflexivity. Qed.

Example extract_ex2 :
  extractRegions (Some "Game (Disc 1) (usa, Europe, US) (Japan)") = Some ["USA"; "Europe"].
Proof. vm_compute. reflexivity. Qed.

Example extract_unrecognized :
  extractRegions (Some "Some Game (Unknown Country)") = None.
Proof. vm_compute. reflexivity. Qed.

Example descriptor_anchored :
  tryExtractDescriptor "Microsoft - Xbox - Datfile (2665) (2025-11-07 05-38-55)"
    "Microsoft - Xbox" 2665 = Some "Datfile".
Proof. vm_compute. reflexivity. Qed.

Example descriptor_anchored_blank :
  tryExtractDescriptor "Sys - (5)" "Sys" 5 = Some "".
Proof. vm_compute. reflexivity. Qed.

Example descriptor_generic :
  map extractGenericDescriptor
    ["Sony - PlayStation - BIOS Discs (12) (x)"; "A datFILE of things"; "plain text"]
  = [Some "BIOS Discs"; Some "Datfile"; None].
Proof. vm_compute. reflexivity. Qed.

Example descriptor_normalized :
  map normalizeDescriptorLabel ["BIOS Discs"; "DATFILE v2"; "Cuesheets"]
  = ["Datfile"; "Datfile"; "Cuesheets"].
Proof. vm_compute. reflexivity. Qed.

Example ofNat_ex : map Js.ofNat [0; 7; 1107] = ["0"; "7"; "1107"].
Proof. vm_compute. reflexivity. Qed.

Example sample_parse :
  match parseDat codeUnitCompare sampleDat with
  | Ok doc =>
      ParsedDat.availableRegions doc = ["Europe"; "Japan"; "USA"; "Unknown"]
      /\ map DatGame.regions (ParsedDat.games doc) = [["USA"]; ["Europe"]; []; ["Japan"; "USA"]]
      /\ ParsedDat.descriptor doc = "Datfile"
      /\ ParsedDat.normalizedDescriptor doc = "Datfile"
      /\ ParsedDat.versionLabel doc = Some "2025-11-07 05-38-55"
  | Err _ => False
  end.
Proof. vm_compute. repeat split. Qed.

Example sample_filter :
  match parseDat codeUnitCompare sampleDat with
  | Ok doc =>
      match filterDatByRegions doc ["USA"; "World"]
              (Some "Microsoft - Xbox - Datfile (4) (2025-11-07 05-38-55).dat")
              "2026-01-01T00:00:00.000Z" with
      | Ok r =>
          DatHeader.name (FilteredDatResult.header r) = "Microsoft - Xbox (USA, World)"
          /\ DatHeader.description (FilteredDatResult.header r)
             = Some "Microsoft - Xbox (USA, World) - Datfile (2) (2025-11-07 05-38-55)"
          /\ FilteredDatResult.filename r
             = "Microsoft - Xbox (USA, World) - Datfile (2) (2025-11-07 05-38-55).dat"
          /\ FilterSummary.removedGames (FilteredDatResult.summary r) = 2
      | Err _ => False
      end
  | Err _ => False
  end.
Proof. vm_compute. repeat split. Qed.

(** Assignments to a plain object: integer keys are enumerated first, in
    ascending order; a key that exists keeps its place; [__proto__] is not
    stored. *)
Example setKey_order :
  setKey (setKey (setKey (setKey (setKey [] "b" "1") "10" "2") "9" "3") "b" "4")
         "__proto__" "5"
  = [("9", "3"); ("10", "2"); ("b", "4")].
Proof. vm_compute. reflexivity. Qed.

Example mapRomAttributes_ex :
  mapRomAttributes
    (RObject [("@_name", RString "a.bin"); ("@___proto__", RString "x");
              ("@_size", RString "1"); ("#text", RString "t")])
  = [("name", "a.bin"); ("size", "1")].
Proof. vm_compute. reflexivity. Qed.

(* ================================================================== *)
(** ** Insertion-ordered sets *)
(* ================================================================== *)

Section SetFacts.

Lemma has_In (x : string) (l : list string) : Js.has x l = true <-> In x l.
Proof.
  unfold Js.has. rewrite existsb_exists. split.
  - intros [y [Hy Heq]]. apply String.eqb_eq in Heq. now subst.
  - intros H. exists x. split; [assumption | apply String.eqb_refl].
Qed.

Lemma has_false (x : string) (l : list string) : Js.has x l = false <-> ~ In x l.
Proof.
  rewrite <- has_In. destruct (Js.has x l); split; congruence.
Qed.

Lemma In_add (l : list string) (x y : string) :
  In y (Js.add l x) <-> In y l \/ y = x.
Proof.
  unfold Js.add. destruct (Js.has x l) eqn:E.
  - apply has_In in E. split; [tauto | intros [H | ->]; assumption].
  - rewrite in_app_iff. simpl. split; intros [H | H]; auto.
    destruct H as [H | []]; auto.
Qed.

Lemma NoDup_add (l : list string) (x : string) : NoDup l -> NoDup (Js.add l x).
Proof.
  intros Hl. unfold Js.add. destruct (Js.has x l) eqn:E; [assumption |].
  apply has_false in E. apply NoDup_app; [assumption | repeat constructor; intros [] | ].
  intros a Ha [<- | []]. exact (E Ha).
Qed.

Lemma In_addAll (xs l : list string) (y : string) :
  In y (Js.addAll l xs) <-> In y l \/ In y xs.
Proof.
  unfold Js.addAll. revert l. induction xs as [| x xs IH]; intros l; simpl.
  - tauto.
  - rewrite IH, In_add. intuition congruence.
Qed.

Lemma NoDup_addAll (xs l : list string) : NoDup l -> NoDup (Js.addAll l xs).
Proof.
  unfold Js.addAll. revert l. induction xs as [| x xs IH]; intros l Hl; simpl.
  - assumption.
  - apply IH, NoDup_add, Hl.
Qed.

Lemma In_setOf (xs : list string) (y : string) : In y (Js.setOf xs) <-> In y xs.
Proof. unfold Js.setOf. rewrite In_addAll. simpl. tauto. Qed.

Lemma NoDup_setOf (xs : list string) : NoDup (Js.setOf xs).
Proof. apply NoDup_addAll. constructor. Qed.

(** Adding fresh, pairwise different elements appends them in order. *)
Lemma addAll_fresh (xs l : list string) :
  NoDup (l ++ xs) -> Js.addAll l xs = l ++ xs.
Proof.
  unfold Js.addAll. revert l. induction xs as [| x xs IH]; intros l H; simpl.
  - now rewrite app_nil_r.
  - assert (Hx : Js.has x l = false).
    { apply has_false. intros Hin. apply NoDup_remove_2 in H.
      apply H. apply in_or_app. now left. }
    unfold Js.add at 2. rewrite Hx.
    replace (l ++ x :: xs) with ((l ++ [x]) ++ xs) in * by now rewrite <- app_assoc.
    now apply IH.
Qed.

Lemma setOf_NoDup (xs : list string) : NoDup xs -> Js.setOf xs = xs.
Proof. intros H. unfold Js.setOf. now rewrite addAll_fresh. Qed.

Lemma setOf_nil_inv (xs : list string) : Js.setOf xs = [] -> xs = [].
Proof.
  intros H. destruct xs as [| x xs]; [reflexivity |].
  assert (Hin : In x (Js.setOf (x :: xs))) by (apply In_setOf; now left).
  rewrite H in Hin. destruct Hin.
Qed.

Lemma addAll_firstSeen (xs l : list string) :
  Js.addAll l xs = l ++ firstSeen l xs.
Proof.
  unfold Js.addAll. revert l. induction xs as [| x xs IH]; intros l; simpl.
  - now rewrite app_nil_r.
  - rewrite IH. unfold Js.add. destruct (Js.has x l); [reflexivity |].
    now rewrite <- app_assoc.
Qed.

Lemma has_snoc (y x : string) (seen : list string) :
  Js.has y (seen ++ [x]) = Js.has y seen || String.eqb y x.
Proof. unfold Js.has. rewrite existsb_app. simpl. now rewrite orb_false_r. Qed.

Lemma firstSeen_filter_len (n : nat) :
  forall xs seen, List.length xs <= n ->
    firstSeen seen xs = firstSeen [] (filter (fun y => negb (Js.has y seen)) xs).
Proof.
  induction n as [| n IH]; intros xs seen Hlen.
  - destruct xs; [reflexivity | simpl in Hlen; lia].
  - destruct xs as [| x xs]; [reflexivity |]. simpl in Hlen. simpl.
    destruct (Js.has x seen) eqn:E; simpl.
    + apply IH. lia.
    + f_equal. rewrite (IH xs (seen ++ [x])) by lia.
      rewrite (IH (filter (fun y => negb (Js.has y seen)) xs) [x]).
      2:{ pose proof (filter_length_le (fun y => negb (Js.has y seen)) xs). lia. }
      f_equal. clear. induction xs as [| y ys IHys]; [reflexivity |]. simpl.
      rewrite has_snoc. destruct (Js.has y seen); simpl; [exact IHys |].
      change (Js.has y [x]) with (String.eqb y x || false). rewrite orb_false_r.
      destruct (String.eqb y x); simpl; [exact IHys | now rewrite IHys].
Qed.

(** The equation of first-occurrence deduplication. *)
Lemma setOf_cons (x : string) (xs : list string) :
  Js.setOf (x :: xs) = x :: Js.setOf (filter (differs x) xs).
Proof.
  unfold Js.setOf. rewrite !addAll_firstSeen. simpl. f_equal.
  rewrite (firstSeen_filter_len (List.length xs)) by lia. f_equal.
  apply filter_ext. intros y.
  change (Js.has y [x]) with (String.eqb y x || false). now rewrite orb_false_r.
Qed.

End SetFacts.

(* ================================================================== *)
(** ** The matcher terminates the global operations *)
(* ================================================================== *)

Section RegexFacts.

Lemma repeatClass_shrinking (greedy : bool) (min : nat) (p : ascii -> bool)
    (k : continuation) :
  shrinking k -> forall n, shrinking (repeatClass greedy min p k n).
Proof.
  intros Hk n s. revert n. induction s as [| d s IH]; intros n st x; cbn [repeatClass].
  - destruct (Nat.leb min n); [apply Hk | discriminate].
  - assert (Hstop : (if Nat.leb min n then k (String d s) st else None) = Some x ->
                    String.length (snd x) <= String.length (String d s)).
    { destruct (Nat.leb min n); [apply Hk | discriminate]. }
    destruct (p d); [| exact Hstop].
    destruct greedy.
    + destruct (repeatClass true min p k (S n) s (feed d st)) as [y |] eqn:E;
        [| exact Hstop].
      intros H. injection H as <-. apply IH in E. simpl. lia.
    + destruct (if Nat.leb min n then k (String d s) st else None) as [y |] eqn:E.
      * intros H. injection H as <-. now apply Hstop.
      * intros H. apply IH in H. simpl. lia.
Qed.

Lemma repeatClass_progress (greedy : bool) (min : nat) (p : ascii -> bool)
    (k : continuation) (n : nat) (s : string) (st : caps) (x : list string * string) :
  shrinking k -> n < min ->
  repeatClass greedy min p k n s st = Some x ->
  String.length (snd x) < String.length s.
Proof.
  intros Hk Hn. apply Nat.leb_gt in Hn.
  destruct s as [| d s]; cbn [repeatClass]; rewrite Hn; [discriminate |].
  destruct (p d); [| discriminate].
  destruct greedy.
  - destruct (repeatClass true min p k (S n) s (feed d st)) as [y |] eqn:E;
      [| discriminate].
    intros H. injection H as <-.
    apply (repeatClass_shrinking true min p k Hk) in E. simpl. lia.
  - intros H. apply (repeatClass_shrinking false min p k Hk) in H. simpl. lia.
Qed.

Lemma matchHere_shrinking (r : regex) : shrinking (matchHere r).
Proof.
  induction r as [| a r IH]; cbn [matchHere].
  - intros s st x H. injection H as <-. simpl. lia.
  - destruct a as [c | p | greedy min p | | |].
    + intros [| d s] st x; [discriminate |].
      destruct (Ascii.eqb c d); [| discriminate]. intros H. apply IH in H. simpl. lia.
    + intros [| d s] st x; [discriminate |].
      destruct (p d); [| discriminate]. intros H. apply IH in H. simpl. lia.
    + now apply repeatClass_shrinking.
    + intros s st x H. now apply IH in H.
    + intros s st x H. now apply IH in H.
    + intros [| d s] st x; [| discriminate]. intros H. now apply IH in H.
Qed.

Lemma matchHere_progress (r : regex) (s : string) (st : caps) (x : list string * string) :
  consumes r = true -> matchHere r s st = Some x ->
  String.length (snd x) < String.length s.
Proof.
  revert s st. induction r as [| a r IH]; intros s st; cbn [consumes matchHere];
    [discriminate |].
  destruct a as [c | p | greedy min p | | |].
  - intros _. destruct s as [| d s]; [discriminate |].
    destruct (Ascii.eqb c d); [| discriminate].
    intros H. apply matchHere_shrinking in H. simpl. lia.
  - intros _. destruct s as [| d s]; [discriminate |].
    destruct (p d); [| discriminate].
    intros H. apply matchHere_shrinking in H. simpl. lia.
  - destruct min as [| min]; [discriminate |]. intros _.
    apply repeatClass_progress; [apply matchHere_shrinking | lia].
  - intros Hc. now apply IH.
  - intros Hc. now apply IH.
  - discriminate.
Qed.

(** What is left after a match of a consuming pattern is shorter than
    the text searched. *)
Lemma exec_after_shorter (r : regex) (s : string) (m : found) :
  consumes r = true -> exec r s = Some m ->
  String.length (after m) < String.length s.
Proof.
  intros Hc. revert m. induction s as [| c s IH]; intros m; cbn [exec].
  - destruct (matchHere r "" start) as [[g rest] |] eqn:E; [| discriminate].
    intros H. injection H as <-. apply (matchHere_progress r _ _ _ Hc) in E. exact E.
  - destruct (matchHere r (String c s) start) as [[g rest] |] eqn:E.
    + intros H. injection H as <-. apply (matchHere_progress r _ _ _ Hc) in E. exact E.
    + destruct (exec r s) as [m' |]; [| discriminate].
      intros H. injection H as <-. specialize (IH m' eq_refl). simpl in *. lia.
Qed.

(** More rounds than the text has characters change nothing. *)
Lemma matchAllFrom_enough (r : regex) :
  consumes r = true ->
  forall fuel s, String.length s < fuel -> matchAllFrom fuel r s = matchAll r s.
Proof.
  intros Hc. unfold matchAll.
  assert (G : forall n m s, String.length s < n -> String.length s < m ->
                            matchAllFrom n r s = matchAllFrom m r s).
  { induction n as [| n IH]; intros m s Hn Hm; [lia |].
    destruct m as [| m]; [lia |]. cbn [matchAllFrom].
    destruct (exec r s) as [f |] eqn:E; [| reflexivity].
    apply (exec_after_shorter r s f Hc) in E. f_equal. apply IH; lia. }
  intros fuel s H. apply G; lia.
Qed.

Lemma splitFrom_enough (r : regex) :
  consumes r = true ->
  forall fuel s, String.length s < fuel -> splitFrom fuel r s = split r s.
Proof.
  intros Hc. unfold split.
  assert (G : forall n m s, String.length s < n -> String.length s < m ->
                            splitFrom n r s = splitFrom m r s).
  { induction n as [| n IH]; intros m s Hn Hm; [lia |].
    destruct m as [| m]; [lia |]. cbn [splitFrom].
    destruct (exec r s) as [f |] eqn:E; [| reflexivity].
    apply (exec_after_shorter r s f Hc) in E. f_equal. apply IH; lia. }
  intros fuel s H. apply G; lia.
Qed.

Lemma replaceFrom_enough (r : regex) (by_ : string) :
  consumes r = true ->
  forall fuel s, String.length s < fuel -> replaceFrom fuel r by_ s = replaceAll r by_ s.
Proof.
  intros Hc. unfold replaceAll.
  assert (G : forall n m s, String.length s < n -> String.length s < m ->
                            replaceFrom n r by_ s = replaceFrom m r by_ s).
  { induction n as [| n IH]; intros m s Hn Hm; [lia |].
    destruct m as [| m]; [lia |]. cbn [replaceFrom].
    destruct (exec r s) as [f |] eqn:E; [| reflexivity].
    apply (exec_after_shorter r s f Hc) in E. do 2 f_equal. apply IH; lia. }
  intros fuel s H. apply G; lia.
Qed.

(** The equations of the global operations: no round is cut short. *)
Lemma matchAll_step (r : regex) (s : string) :
  consumes r = true ->
  matchAll r s
  = match exec r s with
    | Some m => groups m :: matchAll r (after m)
    | None => []
    end.
Proof.
  intros Hc. unfold matchAll at 1. cbn [matchAllFrom].
  destruct (exec r s) as [m |] eqn:E; [| reflexivity].
  f_equal. apply matchAllFrom_enough; [assumption |].
  apply (exec_after_shorter r s m Hc) in E. lia.
Qed.

Lemma split_step (r : regex) (s : string) :
  consumes r = true ->
  split r s
  = match exec r s with
    | Some m => before m :: split r (after m)
    | None => [s]
    end.
Proof.
  intros Hc. unfold split at 1. cbn [splitFrom].
  destruct (exec r s) as [m |] eqn:E; [| reflexivity].
  f_equal. apply splitFrom_enough; [assumption |].
  apply (exec_after_shorter r s m Hc) in E. lia.
Qed.

Lemma replaceAll_step (r : regex) (by_ s : string) :
  consumes r = true ->
  replaceAll r by_ s
  = match exec r s with
    | Some m => (before m ++ by_ ++ replaceAll r by_ (after m))%string
    | None => s
    end.
Proof.
  intros Hc. unfold replaceAll at 1. cbn [replaceFrom].
  destruct (exec r s) as [m |] eqn:E; [| reflexivity].
  do 2 f_equal. apply replaceFrom_enough; [assumption |].
  apply (exec_after_shorter r s m Hc) in E. lia.
Qed.

(** Every pattern the code uses globally consumes. *)
Lemma global_patterns_consume :
  forallb consumes
    [reGroup; reSeparators; reWideGap; reDots; reSpaces; [Cls illegalInFilename]] = true.
Proof. reflexivity. Qed.

End RegexFacts.

(* ================================================================== *)
(** ** The pattern of the parenthesized groups *)
(* ================================================================== *)

Section GroupPattern.

Lemma takeWhile_dropWhile (p : ascii -> bool) (s : string) :
  (takeWhile p s ++ dropWhile p s)%string = s.
Proof.
  induction s as [| c s IH]; simpl; [reflexivity |].
  destruct (p c); simpl; [now rewrite IH | reflexivity].
Qed.

(** A greedy class followed by something that cannot start in the class
    takes the whole run: there is nothing to backtrack to. *)
Lemma repeatClass_greedy_run (min : nat) (p : ascii -> bool) (k : continuation) :
  (forall d s st, p d = true -> k (String d s) st = None) ->
  forall s n st,
    repeatClass true min p k n s st
    = if Nat.leb min (n + String.length (takeWhile p s))
      then k (dropWhile p s) (feedAll (takeWhile p s) st)
      else None.
Proof.
  intros Hk. induction s as [| d s IH]; intros n st; cbn [repeatClass takeWhile dropWhile].
  - simpl. now rewrite Nat.add_0_r.
  - destruct (p d) eqn:E.
    + rewrite IH. cbn [String.length feedAll].
      rewrite (Hk d s st E). rewrite Nat.add_succ_r.
      destruct (Nat.leb min n); simpl;
        destruct (Nat.leb min (S (n + String.length (takeWhile p s))));
        try reflexivity;
        destruct (k (dropWhile p s) (feedAll (takeWhile p s) (feed d st))); reflexivity.
    + simpl. now rewrite Nat.add_0_r.
Qed.

Lemma feedAll_closed (run : string) (st : caps) :
  closed (feedAll run st) = closed st.
Proof. revert st. induction run as [| c run IH]; intros st; simpl; [reflexivity | now rewrite IH]. Qed.

Lemma append_nil_r (s : string) : (s ++ "")%string = s.
Proof. induction s as [| c s IH]; simpl; [reflexivity | now rewrite IH]. Qed.

Lemma append_assoc (a b c : string) : ((a ++ b) ++ c)%string = (a ++ b ++ c)%string.
Proof. induction a as [| x a IH]; simpl; [reflexivity | now rewrite IH]. Qed.

Lemma feedAll_opened_one (run g : string) (done : list string) :
  opened (feedAll run {| closed := done; opened := [g] |}) = [(g ++ run)%string].
Proof.
  revert g. induction run as [| c run IH]; intros g; simpl.
  - now rewrite append_nil_r.
  - unfold feed at 1. simpl. rewrite IH. now rewrite append_assoc.
Qed.

Lemma dropWhile_head (p : ascii -> bool) (s : string) :
  match dropWhile p s with
  | String c _ => p c = false
  | EmptyString => True
  end.
Proof.
  induction s as [| c s IH]; simpl; [exact I |].
  destruct (p c) eqn:E; [exact IH | exact E].
Qed.

(** One match of the group pattern at the start of a text: an opening
    parenthesis, the longest run free of parentheses, which is not empty
    and is the capture, and a closing parenthesis. *)
Lemma reGroup_matchHere (s : string) :
  matchHere reGroup s start
  = match s with
    | String "(" s1 =>
        match takeWhile notParen s1, dropWhile notParen s1 with
        | String c inside, String ")" rest => Some ([String c inside], rest)
        | _, _ => None
        end
    | _ => None
    end.
Proof.
  unfold reGroup. cbn [matchHere].
  destruct s as [| c0 s1]; [reflexivity |].
  destruct (Ascii.eqb "(" c0) eqn:E0.
  - apply Ascii.eqb_eq in E0. subst c0.
    rewrite repeatClass_greedy_run.
    2:{ intros d s st Hd. cbn [matchHere].
        destruct (Ascii.eqb ")" d) eqn:E; [| reflexivity].
        apply Ascii.eqb_eq in E. subst d. discriminate Hd. }
    cbn [matchHere].
    pose proof (dropWhile_head notParen s1) as Hh.
    destruct (takeWhile notParen s1) as [| c inside] eqn:Et.
    + simpl. destruct (dropWhile notParen s1) as [| d rest]; [reflexivity |].
      destruct d as [[] [] [] [] [] [] [] []]; reflexivity.
    + cbn [String.length Nat.add Nat.leb].
      destruct (dropWhile notParen s1) as [| d rest]; [reflexivity |].
      destruct (Ascii.eqb ")" d) eqn:E.
      * apply Ascii.eqb_eq in E. subst d.
        unfold closeGroup, openGroup, feed at 2. cbn [opened closed map].
        rewrite feedAll_opened_one. cbn [closed opened].
        rewrite feedAll_closed. reflexivity.
      * apply Ascii.eqb_neq in E.
        destruct d as [[] [] [] [] [] [] [] []]; try reflexivity. congruence.
  - apply Ascii.eqb_neq in E0.
    destruct c0 as [[] [] [] [] [] [] [] []]; try reflexivity. congruence.
Qed.

End GroupPattern.

Section GroupScan.

Lemma matchAll_skip (r : regex) (c : ascii) (s : string) :
  consumes r = true ->
  matchHere r (String c s) start = None ->
  matchAll r (String c s) = matchAll r s.
Proof.
  intros Hc Hm. rewrite (matchAll_step r (String c s) Hc), (matchAll_step r s Hc).
  cbn [exec]. rewrite Hm. destruct (exec r s) as [m |]; reflexivity.
Qed.

Lemma matchAll_here (r : regex) (s : string) (g : list string) (rest : string) :
  consumes r = true ->
  matchHere r s start = Some (g, rest) ->
  matchAll r s = g :: matchAll r rest.
Proof.
  intros Hc Hm. rewrite (matchAll_step r s Hc).
  destruct s as [| c s]; cbn [exec]; rewrite Hm; reflexivity.
Qed.

(** The parenthesized groups, read off a left-to-right scan: at an
    opening parenthesis followed by a non-empty run free of parentheses
    and a closing parenthesis, the run is a group and the scan goes on
    after the closing parenthesis; anywhere else it moves one character
    on. *)
Lemma parenGroups_scan (c : ascii) (s1 : string) :
  parenGroups (String c s1)
  = if Ascii.eqb c "("
    then match takeWhile notParen s1, dropWhile notParen s1 with
         | String x inside, String ")" rest => String x inside :: parenGroups rest
         | _, _ => parenGroups s1
         end
    else parenGroups s1.
Proof.
  unfold parenGroups.
  pose proof (reGroup_matchHere (String c s1)) as M.
  destruct (Ascii.eqb c "(") eqn:E.
  - apply Ascii.eqb_eq in E. subst c.
    destruct (takeWhile notParen s1) as [| x inside].
    + rewrite matchAll_skip; [reflexivity | reflexivity | exact M].
    + destruct (dropWhile notParen s1) as [| d rest].
      * rewrite matchAll_skip; [reflexivity | reflexivity | exact M].
      * destruct (Ascii.eqb d ")") eqn:Ed.
        -- apply Ascii.eqb_eq in Ed. subst d.
           rewrite (matchAll_here reGroup _ _ _ eq_refl M). reflexivity.
        -- apply Ascii.eqb_neq in Ed.
           assert (M' : matchHere reGroup (String "(" s1) start = None).
           { rewrite M. destruct d as [[] [] [] [] [] [] [] []]; try reflexivity.
             congruence. }
           rewrite (matchAll_skip reGroup _ _ eq_refl M').
           destruct d as [[] [] [] [] [] [] [] []]; try reflexivity. congruence.
  - apply Ascii.eqb_neq in E.
    assert (M' : matchHere reGroup (String c s1) start = None).
    { rewrite M. destruct c as [[] [] [] [] [] [] [] []]; try reflexivity. congruence. }
    now rewrite (matchAll_skip reGroup _ _ eq_refl M').
Qed.

End GroupScan.

(* ================================================================== *)
(** ** Token normalization and the canonical labels *)
(* ================================================================== *)

Section Vocabulary.

Lemma mapGet_In (m : list (string * string)) (k v : string) :
  mapGet m k = Some v -> In v (map snd m).
Proof.
  induction m as [| [k' v'] m IH]; simpl; [discriminate |].
  destruct (String.eqb k k'); intros H.
  - injection H as ->. now left.
  - right. now apply IH.
Qed.

Lemma In_canonical (c : string) :
  In c CANONICAL_REGIONS <-> In c (map snd REGION_SYNONYMS) \/ c = DEFAULT_REGION.
Proof. unfold CANONICAL_REGIONS. now rewrite In_add, !In_setOf. Qed.

#[local] Opaque CANONICAL_REGIONS REGION_SYNONYMS.

(** Whatever normalization returns is a canonical label. *)
Lemma normalizeRegionToken_canonical (token c : string) :
  normalizeRegionToken token = Some c -> In c CANONICAL_REGIONS.
Proof.
  unfold normalizeRegionToken.
  destruct (Js.truthy token); simpl negb; cbv iota; [| intros H; discriminate H].
  set (cleaned := Js.trim _).
  destruct (Js.truthy cleaned); simpl negb; cbv iota; [| intros H; discriminate H].
  destruct (mapGet REGION_SYNONYMS (Js.toLowerCase cleaned)) as [synonym |] eqn:E.
  - intros H. injection H as <-. apply <- In_canonical. left. eapply mapGet_In, E.
  - destruct (Js.has cleaned CANONICAL_REGIONS) eqn:Hc; [| intros H; discriminate H].
    intros H. injection H as <-. exact (proj1 (has_In _ _) Hc).
Qed.

Lemma canonical_all_fixed : forallb fixedByNormalization CANONICAL_REGIONS = true.
Proof. vm_compute. reflexivity. Qed.

(** Normalization leaves a canonical label as it is. *)
Lemma canonical_fixed (c : string) :
  In c CANONICAL_REGIONS -> normalizeRegionToken c = Some c.
Proof.
  intros H. pose proof canonical_all_fixed as A.
  rewrite forallb_forall in A. specialize (A c H). unfold fixedByNormalization in A.
  destruct (normalizeRegionToken c) as [c' |]; [| discriminate].
  apply andb_prop in A. destruct A as [A _]. apply String.eqb_eq in A. now subst.
Qed.

Lemma canonical_truthy (c : string) : In c CANONICAL_REGIONS -> Js.truthy c = true.
Proof.
  intros H. pose proof canonical_all_fixed as A.
  rewrite forallb_forall in A. specialize (A c H). unfold fixedByNormalization in A.
  destruct (normalizeRegionToken c); [| discriminate].
  apply andb_prop in A. tauto.
Qed.

Lemma truthy_nonempty (s : string) : Js.truthy s = true <-> s <> "".
Proof. destruct s; simpl; split; congruence. Qed.

Lemma In_filterMap {A B} (f : A -> option B) (l : list A) (y : B) :
  In y (filterMap f l) <-> exists x, In x l /\ f x = Some y.
Proof.
  induction l as [| a l IH]; simpl.
  - split; [intros [] | intros [x [[] _]]].
  - destruct (f a) as [b |] eqn:E; simpl; rewrite IH; split.
    + intros [<- | [x [Hx Hf]]]; [exists a | exists x]; auto.
    + intros [x [[<- | Hx] Hf]]; [left; congruence | right; exists x; auto].
    + intros [x [Hx Hf]]. exists x. auto.
    + intros [x [[<- | Hx] Hf]]; [congruence | exists x; auto].
Qed.

Lemma normalizedTokens_canonical (inside c : string) :
  In c (normalizedTokens inside) -> In c CANONICAL_REGIONS.
Proof.
  unfold normalizedTokens. rewrite In_filterMap.
  intros [t [_ Ht]]. eapply normalizeRegionToken_canonical, Ht.
Qed.

(** The loop of [extractRegions]: the groups before the winner yield no
    label, the winner yields at least one, the groups after it are free. *)
Lemma firstRecognized_Some (matches found : list string) :
  firstRecognized matches = Some found <->
  exists before inside after,
    matches = before ++ inside :: after
    /\ (forall g, In g before -> normalizedTokens g = [])
    /\ normalizedTokens inside <> []
    /\ found = Js.setOf (normalizedTokens inside).
Proof.
  induction matches as [| m matches IH]; simpl.
  - split; [discriminate | intros [[| ? ?] [? [? [H _]]]]; discriminate].
  - destruct (normalizedTokens m) as [| t ts] eqn:E.
    + rewrite IH. split.
      * intros [b [i [a [-> [Hb [Hi Hf]]]]]]. exists (m :: b), i, a.
        repeat split; auto. intros g [<- | Hg]; auto.
      * intros [[| b0 b] [i [a [Heq [Hb [Hi Hf]]]]]]; simpl in Heq;
          injection Heq as <- ->.
        -- congruence.
        -- exists b, i, a. repeat split; auto. intros g Hg. apply Hb. now right.
    + split.
      * intros H. injection H as <-. exists [], m, matches.
        repeat split; [intros g [] | congruence | now rewrite E].
      * intros [[| b0 b] [i [a [Heq [Hb [Hi Hf]]]]]]; simpl in Heq;
          injection Heq as <- ->.
        -- now rewrite Hf, E.
        -- specialize (Hb m (or_introl eq_refl)). congruence.
Qed.

Lemma firstRecognized_None (matches : list string) :
  firstRecognized matches = None <-> forall g, In g matches -> normalizedTokens g = [].
Proof.
  induction matches as [| m matches IH]; simpl.
  - split; [intros _ g [] | reflexivity].
  - destruct (normalizedTokens m) as [| t ts] eqn:E.
    + rewrite IH. split.
      * intros H g [<- | Hg]; auto.
      * intros H g Hg. apply H. now right.
    + split; [discriminate |]. intros H.
      specialize (H m (or_introl eq_refl)). congruence.
Qed.

Lemma parenGroups_empty : parenGroups "" = [].
Proof. reflexivity. Qed.

Lemma extractRegions_groups (s : string) :
  extractRegions (Some s) = firstRecognized (parenGroups s).
Proof. destruct s; reflexivity. Qed.

Lemma extractRegions_canonical (input : option string) (found : list string) (c : string) :
  extractRegions input = Some found -> In c found -> In c CANONICAL_REGIONS.
Proof.
  destruct input as [s |]; [| discriminate].
  rewrite extractRegions_groups, firstRecognized_Some.
  intros [b [i [a [_ [_ [_ ->]]]]]]. rewrite In_setOf.
  apply normalizedTokens_canonical.
Qed.

Lemma extractRegions_nonempty (input : option string) :
  extractRegions input <> Some [].
Proof.
  destruct input as [s |]; [| discriminate].
  rewrite extractRegions_groups. intros H. apply firstRecognized_Some in H.
  destruct H as [b [i [a [_ [_ [Hi Hf]]]]]]. symmetry in Hf.
  apply setOf_nil_inv in Hf. contradiction.
Qed.

End Vocabulary.

(* ================================================================== *)
(** ** The selection and the kept entries *)
(* ================================================================== *)

Section Selection.

#[local] Opaque normalizeRegionToken CANONICAL_REGIONS.

Lemma canonicalSelections_NoDup (sel : list string) : NoDup (canonicalSelections sel).
Proof. apply NoDup_setOf. Qed.

Lemma In_canonicalSelections (sel : list string) (r : string) :
  In r (canonicalSelections sel) <->
  (exists v, In v sel /\ normalizeRegionToken v = Some r)
  \/ (In r sel /\ normalizeRegionToken r = None /\ r <> "").
Proof.
  unfold canonicalSelections. rewrite In_setOf, filter_In, in_map_iff. split.
  - intros [[v [Hv Hin]] Ht]. destruct (normalizeRegionToken v) as [c |] eqn:E.
    + left. exists v. subst. auto.
    + right. subst v. repeat split; auto. now apply truthy_nonempty.
  - intros [[v [Hin Hv]] | [Hin [Hn Hr]]].
    + split.
      * exists v. rewrite Hv. auto.
      * eapply canonical_truthy, normalizeRegionToken_canonical, Hv.
    + split.
      * exists r. rewrite Hn. auto.
      * now apply truthy_nonempty.
Qed.

Lemma normalizedSelection_same (sel : list string) :
  Js.setOf (canonicalSelections sel) = canonicalSelections sel.
Proof. apply setOf_NoDup, canonicalSelections_NoDup. Qed.

(** A duplicate-free selection of canonical labels is taken as it is. *)
Lemma canonicalSelections_fixed (sel : list string) :
  NoDup sel -> (forall r, In r sel -> In r CANONICAL_REGIONS) ->
  canonicalSelections sel = sel.
Proof.
  intros Hnd Hc. unfold canonicalSelections.
  assert (E : filter Js.truthy
                (map (fun value => match normalizeRegionToken value with
                                   | Some canonical => canonical
                                   | None => value
                                   end) sel) = sel).
  { clear Hnd. induction sel as [| x sel IH]; [reflexivity |]. simpl.
    rewrite (canonical_fixed x) by (apply Hc; now left).
    rewrite (canonical_truthy x) by (apply Hc; now left).
    f_equal. apply IH. intros r Hr. apply Hc. now right. }
  rewrite E. now apply setOf_NoDup.
Qed.

Lemma keeps_shares (selection : list string) (game : DatGame.t) :
  keeps selection game = true <-> sharesRegion (DatGame.regions game) selection.
Proof.
  unfold keeps, sharesRegion. rewrite existsb_exists.
  split; intros [r [Hr Hs]]; exists r; split; auto; now apply has_In.
Qed.

Lemma keptGames_inactive (doc : ParsedDat.t) (sel : list string) :
  canonicalSelections sel = [] -> keptGames doc sel = ParsedDat.games doc.
Proof. intros H. unfold keptGames. now rewrite normalizedSelection_same, H. Qed.

Lemma keptGames_active (doc : ParsedDat.t) (sel : list string) :
  canonicalSelections sel <> [] ->
  keptGames doc sel = filter (keeps (canonicalSelections sel)) (ParsedDat.games doc).
Proof.
  intros H. unfold keptGames. rewrite normalizedSelection_same.
  destruct (canonicalSelections sel); [congruence | reflexivity].
Qed.

Lemma filter_unfold (doc : ParsedDat.t) (sel : list string) (base : option string)
    (now : string) :
  filterDatByRegions doc sel base now =
  match keptGames doc sel with
  | [] => Err (NoMatches "No games match the selected region filters.")
  | _ =>
      let original :=
        if Js.truthy (ParsedDat.descriptor doc) then ParsedDat.descriptor doc
        else "Datfile" in
      let normalized :=
        if Js.truthy (ParsedDat.normalizedDescriptor doc)
        then ParsedDat.normalizedDescriptor doc
        else normalizeDescriptorLabel original in
      let header :=
        buildFilteredHeader (ParsedDat.header doc) (List.length (keptGames doc sel))
          (canonicalSelections sel) original (ParsedDat.versionLabel doc) now in
      Ok {| FilteredDatResult.filename :=
              deriveFilteredFilename base (DatHeader.description header)
                (DatHeader.name header) normalized (List.length (keptGames doc sel))
                (ParsedDat.versionLabel doc);
            FilteredDatResult.header := header;
            FilteredDatResult.games := keptGames doc sel;
            FilteredDatResult.summary :=
              {| FilterSummary.initialGames := List.length (ParsedDat.games doc);
                 FilterSummary.filteredGames := List.length (keptGames doc sel);
                 FilterSummary.removedGames :=
                   List.length (ParsedDat.games doc) - List.length (keptGames doc sel);
                 FilterSummary.selectedRegions := canonicalSelections sel;
                 FilterSummary.regionLabel := createRegionLabel (canonicalSelections sel);
                 FilterSummary.descriptor := original;
                 FilterSummary.normalizedDescriptor := normalized;
                 FilterSummary.versionLabel := ParsedDat.versionLabel doc |} |}
  end.
Proof. reflexivity. Qed.

Lemma filter_Ok_inv (doc : ParsedDat.t) (sel : list string) (base : option string)
    (now : string) (res : FilteredDatResult.t) :
  filterDatByRegions doc sel base now = Ok res ->
  keptGames doc sel <> []
  /\ FilteredDatResult.games res = keptGames doc sel
  /\ FilterSummary.selectedRegions (FilteredDatResult.summary res) = canonicalSelections sel
  /\ FilterSummary.filteredGames (FilteredDatResult.summary res)
     = List.length (keptGames doc sel)
  /\ FilterSummary.descriptor (FilteredDatResult.summary res)
     = (if Js.truthy (ParsedDat.descriptor doc) then ParsedDat.descriptor doc else "Datfile")
  /\ FilteredDatResult.header res
     = buildFilteredHeader (ParsedDat.header doc) (List.length (keptGames doc sel))
         (canonicalSelections sel)
         (FilterSummary.descriptor (FilteredDatResult.summary res))
         (ParsedDat.versionLabel doc) now.
Proof.
  rewrite filter_unfold. destruct (keptGames doc sel) as [| g gs] eqn:E.
  - intros H. discriminate H.
  - intros H. injection H as <-. cbn -[buildFilteredHeader deriveFilteredFilename].
    repeat split; congruence.
Qed.

Lemma filter_Err_iff (doc : ParsedDat.t) (sel : list string) (base : option string)
    (now : string) (e : error) :
  filterDatByRegions doc sel base now = Err e <->
  keptGames doc sel = []
  /\ e = NoMatches "No games match the selected region filters.".
Proof.
  rewrite filter_unfold. destruct (keptGames doc sel) as [| g gs].
  - split; [intros H; injection H as <-; auto | intros [_ ->]; reflexivity].
  - split; [intros H; discriminate H | intros [H _]; discriminate H].
Qed.

Lemma filter_Ok_exists (doc : ParsedDat.t) (sel : list string) (base : option string)
    (now : string) :
  keptGames doc sel <> [] -> exists res, filterDatByRegions doc sel base now = Ok res.
Proof.
  intros H. rewrite filter_unfold. destruct (keptGames doc sel); [congruence |].
  eexists. reflexivity.
Qed.

End Selection.

(* ================================================================== *)
(** ** Claims about the filter *)
(* ================================================================== *)

Lemma sampleDoc_parsed : parseDat codeUnitCompare sampleDat = Ok sampleDoc.
Proof. vm_compute. reflexivity. Qed.

(** C1, as the claim states it, fails: an unrecognized selection is not
    dropped.  The selected string "Atlantis" normalizes to no canonical
    label, yet it is a member of the selected-region set of the result. *)
Lemma C1_counterexample :
  parseDat codeUnitCompare sampleDat = Ok sampleDoc
  /\ normalizeRegionToken "Atlantis" = None
  /\ ~ In "Atlantis" CANONICAL_REGIONS
  /\ exists res,
       filterDatByRegions sampleDoc ["Atlantis"; "USA"] None sampleNow = Ok res
       /\ FilterSummary.selectedRegions (FilteredDatResult.summary res) = ["Atlantis"; "USA"].
Proof.
  split; [exact sampleDoc_parsed |].
  split; [vm_compute; reflexivity |].
  split.
  - apply has_false. vm_compute. reflexivity.
  - eexists. split; vm_compute; reflexivity.
Qed.

(** C1 (amended).  For every document and every list of selected strings,
    a successful filter reports as selected-region set the list obtained by
    replacing each selected string that token normalization recognizes by
    its canonical label, keeping the others as they are, dropping the
    empty ones and skipping every string already listed: the set is
    duplicate-free and in first-occurrence order.  Its members are exactly
    the canonical labels of the recognized selected strings together with
    the non-empty unrecognized ones; so every member is a canonical label
    or an unrecognized selected string. *)
Theorem C1_selection_canonicalized_or_kept
    (doc : ParsedDat.t) (sel : list string) (base : option string) (now : string)
    (res : FilteredDatResult.t) :
  filterDatByRegions doc sel base now = Ok res ->
  let chosen := FilterSummary.selectedRegions (FilteredDatResult.summary res) in
  chosen = firstSeen [] (filter nonEmpty (map canonicalOrKept sel))
  /\ NoDup chosen
  /\ (forall r, In r chosen <->
        (exists v, In v sel /\ normalizeRegionToken v = Some r)
        \/ (In r sel /\ normalizeRegionToken r = None /\ r <> ""))
  /\ (forall r, In r chosen ->
        In r CANONICAL_REGIONS \/ (In r sel /\ normalizeRegionToken r = None)).
Proof.
  intros H chosen. apply filter_Ok_inv in H. destruct H as [_ [_ [Hsel _]]].
  subst chosen. rewrite Hsel. split.
  { unfold canonicalSelections, Js.setOf. rewrite addAll_firstSeen. cbn [app].
    f_equal. apply filter_ext. intros v. unfold nonEmpty. destruct v; reflexivity. }
  split; [apply canonicalSelections_NoDup |].
  split; [intros r; apply In_canonicalSelections |].
  intros r Hr. apply In_canonicalSelections in Hr.
  destruct Hr as [[v [_ Hv]] | [Hin [Hn _]]].
  - left. eapply normalizeRegionToken_canonical, Hv.
  - right. auto.
Qed.

Lemma C1_witness :
  exists res,
    filterDatByRegions sampleDoc [" u.s.a "; "Atlantis"; ""; "USA"; "pal"] None sampleNow = Ok res
    /\ FilterSummary.selectedRegions (FilteredDatResult.summary res)
       = ["USA"; "Atlantis"; "Europe"]
    /\ let chosen := FilterSummary.selectedRegions (FilteredDatResult.summary res) in
       chosen = firstSeen []
                  (filter nonEmpty
                     (map canonicalOrKept [" u.s.a "; "Atlantis"; ""; "USA"; "pal"]))
       /\ NoDup chosen
       /\ (forall r, In r chosen <->
             (exists v, In v [" u.s.a "; "Atlantis"; ""; "USA"; "pal"]
                        /\ normalizeRegionToken v = Some r)
             \/ (In r [" u.s.a "; "Atlantis"; ""; "USA"; "pal"]
                 /\ normalizeRegionToken r = None /\ r <> ""))
       /\ (forall r, In r chosen ->
             In r CANONICAL_REGIONS
             \/ (In r [" u.s.a "; "Atlantis"; ""; "USA"; "pal"]
                 /\ normalizeRegionToken r = None)).
Proof.
  eexists. split; [vm_compute; reflexivity |].
  split; [vm_compute; reflexivity |].
  apply (C1_selection_canonicalized_or_kept sampleDoc
           [" u.s.a "; "Atlantis"; ""; "USA"; "pal"] None sampleNow).
  vm_compute. reflexivity.
Defined.

(** C4.  When the canonicalized selection is empty the filter keeps every
    entry; when it is not, the filter keeps, in order, exactly the entries
    whose region list shares a label with the selection, so an entry
    without regions is dropped.  The entries of a successful result are
    the kept ones. *)
Theorem C4_select_all_or_intersect (doc : ParsedDat.t) (sel : list string) :
  (canonicalSelections sel = [] -> keptGames doc sel = ParsedDat.games doc)
  /\ (canonicalSelections sel <> [] ->
      exists keep : DatGame.t -> bool,
        (forall g, keep g = true
                   <-> sharesRegion (DatGame.regions g) (canonicalSelections sel))
        /\ keptGames doc sel = filter keep (ParsedDat.games doc))
  /\ (canonicalSelections sel <> [] ->
      forall g, DatGame.regions g = [] -> ~ In g (keptGames doc sel))
  /\ (forall base now res,
        filterDatByRegions doc sel base now = Ok res ->
        FilteredDatResult.games res = keptGames doc sel
        /\ FilterSummary.selectedRegions (FilteredDatResult.summary res)
           = canonicalSelections sel).
Proof.
  split; [apply keptGames_inactive |].
  split.
  { intros H. exists (keeps (canonicalSelections sel)). split.
    - intros g. apply keeps_shares.
    - now apply keptGames_active. }
  split.
  { intros H g Hg Hin. rewrite keptGames_active in Hin by assumption.
    apply filter_In in Hin. destruct Hin as [_ Hk].
    unfold keeps in Hk. rewrite Hg in Hk. discriminate Hk. }
  intros base now res H. apply filter_Ok_inv in H. tauto.
Qed.

Lemma C4_witness :
  canonicalSelections [] = []
  /\ keptGames sampleDoc [] = ParsedDat.games sampleDoc
  /\ canonicalSelections ["usa"; "Japan"] <> []
  /\ map DatGame.name (keptGames sampleDoc ["usa"; "Japan"])
     = ["Halo (USA)"; "Otogi (Japan, USA)"]
  /\ exists keep : DatGame.t -> bool,
       (forall g, keep g = true
                  <-> sharesRegion (DatGame.regions g) (canonicalSelections ["usa"; "Japan"]))
       /\ keptGames sampleDoc ["usa"; "Japan"] = filter keep (ParsedDat.games sampleDoc).
Proof.
  split; [reflexivity |].
  split; [apply (proj1 (C4_select_all_or_intersect sampleDoc [])); reflexivity |].
  split; [vm_compute; discriminate |].
  split; [vm_compute; reflexivity |].
  apply (proj1 (proj2 (C4_select_all_or_intersect sampleDoc ["usa"; "Japan"]))).
  vm_compute. discriminate.
Defined.

(** C5.  The filter fails exactly when no entry is kept, and then with
    [NoMatches]; it has no other failure.  A non-empty selection that
    shares no label with any entry fails so.  A failed preview answers
    without header, summary or file name and leaves the loaded document
    as it was. *)
Theorem C5_no_matches_iff_nothing_kept
    (doc : ParsedDat.t) (sel : list string) (base : option string) (now : string) :
  ((exists m, filterDatByRegions doc sel base now = Err (NoMatches m))
   <-> keptGames doc sel = [])
  /\ (forall e, filterDatByRegions doc sel base now = Err e -> exists m, e = NoMatches m)
  /\ (canonicalSelections sel <> [] ->
      (forall g, In g (ParsedDat.games doc) ->
                 ~ sharesRegion (DatGame.regions g) (canonicalSelections sel)) ->
      exists m, filterDatByRegions doc sel base now = Err (NoMatches m))
  /\ (forall state e,
        LoadedDatState.parsed state = doc ->
        runFilter state sel now = Err e ->
        handlePreviewFilter (Some state) sel now
        = ({| FilterPreviewResponse.success := false;
              FilterPreviewResponse.error := Some (errorMessage e);
              FilterPreviewResponse.header := None;
              FilterPreviewResponse.summary := None;
              FilterPreviewResponse.filename := None |}, Some state)).
Proof.
  split.
  { split.
    - intros [m H]. apply filter_Err_iff in H. tauto.
    - intros H. eexists. apply filter_Err_iff. split; [exact H | reflexivity]. }
  split.
  { intros e H. apply filter_Err_iff in H. destruct H as [_ ->]. eexists. reflexivity. }
  split.
  { intros Hact Hdis. eexists. apply filter_Err_iff. split; [| reflexivity].
    rewrite keptGames_active by assumption.
    destruct (filter (keeps (canonicalSelections sel)) (ParsedDat.games doc))
      as [| g gs] eqn:E; [reflexivity |].
    assert (Hg : In g (filter (keeps (canonicalSelections sel)) (ParsedDat.games doc)))
      by (rewrite E; now left).
    apply filter_In in Hg. destruct Hg as [Hin Hk].
    apply keeps_shares in Hk. now apply Hdis in Hk. }
  intros state e Hdoc H. unfold handlePreviewFilter. now rewrite H.
Qed.

Lemma C5_witness :
  keptGames sampleDoc ["Korea"] = []
  /\ exists m, filterDatByRegions sampleDoc ["Korea"] None sampleNow = Err (NoMatches m).
Proof.
  split; [vm_compute; reflexivity |].
  apply (proj2 (proj1 (C5_no_matches_iff_nothing_kept sampleDoc ["Korea"] None sampleNow))).
  vm_compute. reflexivity.
Defined.

(* ================================================================== *)
(** ** The parser *)
(* ================================================================== *)

Section ParserFacts.

Variable localeCompare : string -> string -> Z.

Lemma assignHeader_name (h : DatHeader.t) (k : string) (v : RawValue) :
  DatHeader.name (assignHeader h (k, v))
  = if String.eqb "name" k then coerceText v else DatHeader.name h.
Proof.
  unfold assignHeader. destruct h as [n d ver dt a hp u ex].
  rewrite (String.eqb_sym "name" k).
  destruct (String.eqb k "name") eqn:E; [reflexivity |].
  repeat match goal with
         | |- context [if ?b then _ else _] => destruct b
         end; reflexivity.
Qed.

(** The name the loop of [normalizeHeader] leaves: the text of the last
    [name] entry. *)
Lemma fold_assignHeader_name (entries : list (string * RawValue)) (h : DatHeader.t) :
  DatHeader.name (fold_left assignHeader entries h)
  = match lookup entries "name" with
    | Some v => coerceText v
    | None => DatHeader.name h
    end.
Proof.
  revert h. induction entries as [| [k v] entries IH]; intros h;
    cbn [fold_left lookup]; [reflexivity |].
  rewrite IH, assignHeader_name.
  destruct (lookup entries "name"); [reflexivity |].
  destruct (String.eqb "name" k); reflexivity.
Qed.

Lemma ofNat_not_name (i : nat) : String.eqb "name" (Js.ofNat i) = false.
Proof.
  unfold Js.ofNat. destruct (Nat.to_uint i); reflexivity.
Qed.

Lemma lookup_indexed_name {A} (l : list A) (i : nat) : lookup (indexed i l) "name" = None.
Proof.
  revert i. induction l as [| x l IH]; intros i; cbn [indexed lookup]; [reflexivity |].
  now rewrite IH, ofNat_not_name.
Qed.

Lemma lookup_entries_name (parsed : RawValue) :
  lookup
    (objectEntries
       (if isNullish (headerOrEmpty (rawHeaderOf parsed))
        then RObject [] else headerOrEmpty (rawHeaderOf parsed)))
    "name"
  = nameField parsed.
Proof.
  unfold nameField. destruct (rawHeaderOf parsed); simpl; try reflexivity;
    apply lookup_indexed_name.
Qed.

Lemma normalizeHeader_spec (parsed : RawValue) :
  normalizeHeader (headerOrEmpty (rawHeaderOf parsed))
  = let header :=
      fold_left assignHeader
        (objectEntries
           (if isNullish (headerOrEmpty (rawHeaderOf parsed))
            then RObject [] else headerOrEmpty (rawHeaderOf parsed)))
        emptyHeader in
    if Js.truthy (DatHeader.name header) then Ok header
    else Err (InvalidFormat "Invalid DAT header: missing <name>.").
Proof.
  unfold normalizeHeader. cbv zeta.
  destruct (Js.truthy _); reflexivity.
Qed.

Lemma normalizeHeader_Err (parsed : RawValue) (e : error) :
  normalizeHeader (headerOrEmpty (rawHeaderOf parsed)) = Err e ->
  nameAbsentOrEmpty parsed /\ e = InvalidFormat "Invalid DAT header: missing <name>.".
Proof.
  rewrite normalizeHeader_spec. cbv zeta.
  rewrite fold_assignHeader_name, lookup_entries_name. unfold nameAbsentOrEmpty.
  destruct (nameField parsed) as [v |]; simpl.
  - destruct (coerceText v); simpl; intros H; [| discriminate H].
    injection H as <-. auto.
  - intros H. injection H as <-. auto.
Qed.

Lemma normalizeHeader_Ok (parsed : RawValue) (h : DatHeader.t) :
  normalizeHeader (headerOrEmpty (rawHeaderOf parsed)) = Ok h ->
  ~ nameAbsentOrEmpty parsed /\ DatHeader.name h <> "".
Proof.
  rewrite normalizeHeader_spec. cbv zeta.
  destruct (Js.truthy _) eqn:E; intros H; [| discriminate H].
  injection H as <-. split; [| now apply truthy_nonempty].
  rewrite fold_assignHeader_name, lookup_entries_name in E. unfold nameAbsentOrEmpty.
  destruct (nameField parsed) as [v |]; simpl in *.
  - intros Hv. rewrite Hv in E. discriminate E.
  - discriminate E.
Qed.

Lemma normalizeGame_Err (raw : RawValue) (e : error) :
  normalizeGame raw = Err e -> exists m, e = TypeError m.
Proof.
  destruct raw; intros H; try discriminate H; injection H as <-; eexists; reflexivity.
Qed.

Lemma mapM_Err {A B} (f : A -> result B) (l : list A) (e : error) :
  mapM f l = Err e -> exists x, In x l /\ f x = Err e.
Proof.
  induction l as [| a l IH]; simpl; [discriminate |].
  destruct (f a) as [b | e'] eqn:E; simpl.
  - destruct (mapM f l) as [ys | e''] eqn:El; simpl; [discriminate |].
    intros H. injection H as <-. destruct (IH eq_refl) as [x [Hx Hf]].
    exists x. auto.
  - intros H. injection H as <-. exists a. auto.
Qed.

Lemma mapM_Ok_In {A B} (f : A -> result B) (l : list A) (ys : list B) (y : B) :
  mapM f l = Ok ys -> In y ys -> exists x, In x l /\ f x = Ok y.
Proof.
  revert ys. induction l as [| a l IH]; simpl; intros ys.
  - intros H. injection H as <-. intros [].
  - destruct (f a) as [b | e'] eqn:E; simpl; [| discriminate].
    destruct (mapM f l) as [zs | e''] eqn:El; simpl; [| discriminate].
    intros H. injection H as <-. intros [<- | Hy].
    + exists a. auto.
    + destruct (IH zs eq_refl Hy) as [x [Hx Hf]]. exists x. auto.
Qed.

#[local] Opaque normalizeGame normalizeHeader deriveDescriptors collectRegions.

(** [parseDat], step by step. *)
Lemma parseDat_unfold (parsed : RawValue) :
  parseDat localeCompare parsed =
  if isFalsy (getProp parsed "datafile")
  then Err (InvalidFormat "Invalid DAT: missing <datafile> root node.")
  else
    header <- normalizeHeader (headerOrEmpty (rawHeaderOf parsed)) ;;
    gamesArray <-
      mapM normalizeGame
        (toArray (gamesOrEmpty (getProp (getProp parsed "datafile") "game"))) ;;
    Ok {| ParsedDat.header := header;
          ParsedDat.games := gamesArray;
          ParsedDat.availableRegions := sort localeCompare (collectRegions gamesArray);
          ParsedDat.descriptor := fst (deriveDescriptors header (List.length gamesArray));
          ParsedDat.normalizedDescriptor :=
            snd (deriveDescriptors header (List.length gamesArray));
          ParsedDat.versionLabel :=
            orElse (DatHeader.version header) (DatHeader.date header);
          ParsedDat.rawRootExtras :=
            filter (fun entry => negb (String.eqb (fst entry) "header"
                                       || String.eqb (fst entry) "game"))
                   (objectEntries (getProp parsed "datafile")) |}.
Proof.
  unfold parseDat, rawHeaderOf, headerOrEmpty, gamesOrEmpty.
  destruct (isFalsy (getProp parsed "datafile")); [reflexivity |].
  destruct (getProp (getProp parsed "datafile") "header");
    destruct (getProp (getProp parsed "datafile") "game");
    (destruct (normalizeHeader _) as [header | e]; [| reflexivity]);
    cbn [bind];
    (destruct (mapM normalizeGame _) as [gamesArray | e]; [| reflexivity]);
    cbn [bind];
    destruct (deriveDescriptors header (List.length gamesArray)); reflexivity.
Qed.

Lemma parseDat_Ok_inv (parsed : RawValue) (doc : ParsedDat.t) :
  parseDat localeCompare parsed = Ok doc ->
  isFalsy (getProp parsed "datafile") = false
  /\ normalizeHeader (headerOrEmpty (rawHeaderOf parsed)) = Ok (ParsedDat.header doc)
  /\ mapM normalizeGame
       (toArray (gamesOrEmpty (getProp (getProp parsed "datafile") "game")))
     = Ok (ParsedDat.games doc)
  /\ ParsedDat.availableRegions doc
     = sort localeCompare (collectRegions (ParsedDat.games doc))
  /\ ParsedDat.versionLabel doc
     = orElse (DatHeader.version (ParsedDat.header doc)) (DatHeader.date (ParsedDat.header doc))
  /\ (ParsedDat.descriptor doc, ParsedDat.normalizedDescriptor doc)
     = deriveDescriptors (ParsedDat.header doc) (List.length (ParsedDat.games doc)).
Proof.
  rewrite parseDat_unfold.
  destruct (isFalsy _); [intros H; discriminate H |].
  destruct (normalizeHeader _) as [header | e]; simpl; [| intros H; discriminate H].
  destruct (mapM normalizeGame _) as [gamesArray | e]; simpl; [| intros H; discriminate H].
  intros H. injection H as <-. cbn.
  repeat split; try reflexivity.
Qed.

Lemma falsy_no_name (parsed : RawValue) :
  isFalsy (getProp parsed "datafile") = true -> nameAbsentOrEmpty parsed.
Proof.
  unfold nameAbsentOrEmpty, nameField, rawHeaderOf.
  destruct (getProp parsed "datafile") as [| | [|] | [|] | |]; simpl;
    intros H; try discriminate H; exact I.
Qed.

(** C7.  [parseDat] fails with [InvalidFormat] exactly when the root
    element is absent or the name child of the header is absent or has an
    empty text; the header name of a parsed document is not empty. *)
Theorem C7_invalid_format_iff (parsed : RawValue) :
  ((exists m, parseDat localeCompare parsed = Err (InvalidFormat m))
   <-> rootAbsent parsed \/ nameAbsentOrEmpty parsed)
  /\ (forall doc, parseDat localeCompare parsed = Ok doc ->
                  DatHeader.name (ParsedDat.header doc) <> "").
Proof.
  split.
  - rewrite parseDat_unfold. unfold rootAbsent.
    destruct (isFalsy (getProp parsed "datafile")) eqn:F.
    + split; [| intros _; eexists; reflexivity].
      intros _. right. now apply falsy_no_name.
    + destruct (normalizeHeader _) as [header | e] eqn:Hh; simpl.
      * apply normalizeHeader_Ok in Hh. destruct Hh as [Hname _].
        split.
        -- destruct (mapM normalizeGame _) as [gs | e] eqn:Hg; simpl;
             intros [m H]; [discriminate H |].
           injection H as ->. apply mapM_Err in Hg. destruct Hg as [x [_ Hx]].
           apply normalizeGame_Err in Hx. destruct Hx as [m' Hx]. discriminate Hx.
        -- intros [Hroot | Hn]; [| contradiction].
           rewrite Hroot in F. discriminate F.
      * apply normalizeHeader_Err in Hh. destruct Hh as [Hname ->].
        split; [intros _; now right | intros _; eexists; reflexivity].
  - intros doc H. apply parseDat_Ok_inv in H. destruct H as [_ [Hh _]].
    apply normalizeHeader_Ok in Hh. tauto.
Qed.

End ParserFacts.

Lemma C7_witness :
  nameAbsentOrEmpty namelessDat
  /\ exists m, parseDat codeUnitCompare namelessDat = Err (InvalidFormat m).
Proof.
  split; [vm_compute; reflexivity |].
  apply (proj2 (proj1 (C7_invalid_format_iff codeUnitCompare namelessDat))).
  right. vm_compute. reflexivity.
Defined.

(* ================================================================== *)
(** ** Region detection of an entry *)
(* ================================================================== *)

Section Detection.

#[local] Opaque extractRegions.

Lemma normalizeGame_regions (raw : RawValue) (g : DatGame.t) :
  normalizeGame raw = Ok g ->
  DatGame.regions g = match detected g with Some found => found | None => [] end.
Proof.
  unfold normalizeGame, detected.
  destruct raw; intros H; try discriminate H; injection H as <-;
    cbn [DatGame.regions DatGame.name DatGame.description DatGame.roms];
    match goal with
    | |- match ?x with [] => [] | _ :: _ => _ end = _ => destruct x; reflexivity
    end.
Qed.

Lemma normalizeGame_canonical (raw : RawValue) (g : DatGame.t) (r : string) :
  normalizeGame raw = Ok g -> In r (DatGame.regions g) -> In r CANONICAL_REGIONS.
Proof.
  intros H. rewrite (normalizeGame_regions raw g H). unfold detected, orElse.
  destruct (extractRegions (Some (DatGame.name g))) eqn:E1;
    [intros Hr; eapply extractRegions_canonical; eassumption |].
  destruct (extractRegions (Some (DatGame.description g))) eqn:E2;
    [intros Hr; eapply extractRegions_canonical; eassumption |].
  destruct (DatGame.roms g) as [| first rest]; [intros [] |].
  destruct (extractRegions (lookup (DatRom.attributes first) "name")) eqn:E3;
    [intros Hr; eapply extractRegions_canonical; eassumption | intros []].
Qed.

(** C6.  The regions of an entry are those extracted from its name; when
    the name yields none, those extracted from its description; when that
    yields none too, those extracted from the name attribute of its first
    sub-record; else none.  The labels of different sources are never
    merged.  Within one text the first parenthesized group with a
    recognized token decides: the result is the labels of that group in
    first-occurrence order without repetition, whatever groups follow.
    A group is a non-empty run free of parentheses between an opening and
    a closing parenthesis, and the groups are found by a scan from the
    left. *)
Theorem C6_first_source_first_group (raw : RawValue) (g : DatGame.t) :
  normalizeGame raw = Ok g ->
  (forall found, extractRegions (Some (DatGame.name g)) = Some found ->
                 DatGame.regions g = found)
  /\ (extractRegions (Some (DatGame.name g)) = None ->
      forall found, extractRegions (Some (DatGame.description g)) = Some found ->
                    DatGame.regions g = found)
  /\ (extractRegions (Some (DatGame.name g)) = None ->
      extractRegions (Some (DatGame.description g)) = None ->
      DatGame.regions g
      = match DatGame.roms g with
        | first :: _ =>
            match extractRegions (lookup (DatRom.attributes first) "name") with
            | Some found => found
            | None => []
            end
        | [] => []
        end)
  /\ (forall (input : string) (found : list string),
        extractRegions (Some input) = Some found <->
        exists earlier inside later,
          parenGroups input = earlier ++ inside :: later
          /\ (forall group, In group earlier -> normalizedTokens group = [])
          /\ normalizedTokens inside <> []
          /\ found = Js.setOf (normalizedTokens inside))
  /\ (forall (input : string),
        extractRegions (Some input) = None <->
        forall group, In group (parenGroups input) -> normalizedTokens group = [])
  /\ (forall x xs, Js.setOf (x :: xs) = x :: Js.setOf (filter (differs x) xs))
  /\ Js.setOf [] = []
  /\ (forall c s1,
        parenGroups (String c s1)
        = if Ascii.eqb c "("
          then match takeWhile notParen s1, dropWhile notParen s1 with
               | String x inside, String ")" rest => String x inside :: parenGroups rest
               | _, _ => parenGroups s1
               end
          else parenGroups s1)
  /\ parenGroups "" = [].
Proof.
  intros H. pose proof (normalizeGame_regions raw g H) as R. unfold detected, orElse in R.
  split; [intros found E; now rewrite E in R |].
  split; [intros E1 found E2; now rewrite E1, E2 in R |].
  split.
  { intros E1 E2. rewrite E1, E2 in R. rewrite R.
    destruct (DatGame.roms g); reflexivity. }
  split; [intros input found; rewrite extractRegions_groups; apply firstRecognized_Some |].
  split; [intros input; rewrite extractRegions_groups; apply firstRecognized_None |].
  split; [apply setOf_cons |].
  split; [reflexivity |].
  split; [apply parenGroups_scan | reflexivity].
Qed.

Lemma C6_witness :
  exists g,
    normalizeGame
      (RObject [("@_name", RString "Otogi (Disc 1) (usa, Europe, US) (Japan)");
                ("description", RString "Otogi (Asia)")]) = Ok g
    /\ DatGame.regions g = ["USA"; "Europe"]
    /\ (forall found, extractRegions (Some (DatGame.name g)) = Some found ->
                      DatGame.regions g = found).
Proof.
  eexists. split; [vm_compute; reflexivity |].
  split; [vm_compute; reflexivity |].
  apply (C6_first_source_first_group
           (RObject [("@_name", RString "Otogi (Disc 1) (usa, Europe, US) (Japan)");
                     ("description", RString "Otogi (Asia)")])).
  vm_compute. reflexivity.
Defined.

(** C10.  "Unknown" is a canonical label and token normalization returns
    it for the token "Unknown".  An entry whose name has "(Unknown)" as
    its first group with a recognized token gets the regions ["Unknown"].
    A filter whose selection contains "Unknown" keeps such an entry, and
    succeeds; it keeps no entry without regions. *)
Theorem C10_unknown_is_a_region_tag :
  In DEFAULT_REGION CANONICAL_REGIONS
  /\ normalizeRegionToken "Unknown" = Some "Unknown"
  /\ (forall raw g before after,
        normalizeGame raw = Ok g ->
        parenGroups (DatGame.name g) = before ++ "Unknown" :: after ->
        (forall group, In group before -> normalizedTokens group = []) ->
        DatGame.regions g = ["Unknown"])
  /\ (forall doc sel g,
        In "Unknown" sel ->
        In g (ParsedDat.games doc) ->
        DatGame.regions g = ["Unknown"] ->
        In g (keptGames doc sel)
        /\ forall base now, exists res,
             filterDatByRegions doc sel base now = Ok res
             /\ In g (FilteredDatResult.games res))
  /\ (forall doc sel g,
        In "Unknown" sel ->
        DatGame.regions g = [] ->
        ~ In g (keptGames doc sel)).
Proof.
  assert (Hsel : forall sel, In "Unknown" sel -> In "Unknown" (canonicalSelections sel)).
  { intros sel Hin. apply In_canonicalSelections. left. exists "Unknown".
    split; [assumption | vm_compute; reflexivity]. }
  split; [apply (proj1 (has_In DEFAULT_REGION CANONICAL_REGIONS)); vm_compute; reflexivity |].
  split; [vm_compute; reflexivity |].
  split.
  { intros raw g before after Hg Hgroups Hbefore.
    rewrite (normalizeGame_regions raw g Hg). unfold detected.
    assert (E : extractRegions (Some (DatGame.name g)) = Some ["Unknown"]).
    { rewrite extractRegions_groups. apply firstRecognized_Some.
      exists before, "Unknown", after.
      split; [assumption |]. split; [assumption |].
      split; vm_compute; [discriminate | reflexivity]. }
    now rewrite E. }
  split.
  { intros doc sel g Hin Hg Hr.
    assert (Hact : canonicalSelections sel <> []).
    { intros E. specialize (Hsel sel Hin). rewrite E in Hsel. destruct Hsel. }
    assert (Hkept : In g (keptGames doc sel)).
    { rewrite keptGames_active by assumption. apply filter_In. split; [assumption |].
      apply keeps_shares. exists "Unknown". split; [rewrite Hr; now left | auto]. }
    split; [assumption |].
    intros base now.
    destruct (filter_Ok_exists doc sel base now) as [res Hres].
    { intros E. rewrite E in Hkept. destruct Hkept. }
    exists res. split; [assumption |].
    apply filter_Ok_inv in Hres. destruct Hres as [_ [-> _]]. assumption. }
  intros doc sel g Hin Hr Hk.
  assert (Hact : canonicalSelections sel <> []).
  { intros E. specialize (Hsel sel Hin). rewrite E in Hsel. destruct Hsel. }
  rewrite keptGames_active in Hk by assumption.
  apply filter_In in Hk. destruct Hk as [_ Hk].
  unfold keeps in Hk. rewrite Hr in Hk. discriminate Hk.
Qed.

Lemma C10_witness :
  exists g,
    In g (ParsedDat.games unknownTaggedDoc)
    /\ DatGame.regions g = ["Unknown"]
    /\ In g (keptGames unknownTaggedDoc ["USA"; "Unknown"])
    /\ forall base now, exists res,
         filterDatByRegions unknownTaggedDoc ["USA"; "Unknown"] base now = Ok res
         /\ In g (FilteredDatResult.games res).
Proof.
  destruct (ParsedDat.games unknownTaggedDoc) as [| g rest] eqn:E; [discriminate E |].
  exists g. split; [now left |].
  assert (R : DatGame.regions g = ["Unknown"]).
  { vm_compute in E. injection E as <- _. reflexivity. }
  split; [exact R |].
  destruct C10_unknown_is_a_region_tag as [_ [_ [_ [K _]]]].
  apply (K unknownTaggedDoc ["USA"; "Unknown"] g).
  - right. now left.
  - rewrite E. now left.
  - exact R.
Defined.

End Detection.

(* ================================================================== *)
(** ** The region vocabulary of a document *)
(* ================================================================== *)

Section Aggregation.

Variable localeCompare : string -> string -> Z.

Lemma In_insertSorted (x y : string) (l : list string) :
  In y (insertSorted localeCompare x l) <-> y = x \/ In y l.
Proof.
  induction l as [| z l IH]; simpl.
  - intuition congruence.
  - destruct (localeCompare x z <=? 0)%Z; simpl; [intuition congruence |].
    rewrite IH. tauto.
Qed.

Lemma In_sort (y : string) (l : list string) :
  In y (sort localeCompare l) <-> In y l.
Proof.
  induction l as [| x l IH]; simpl; [tauto |].
  rewrite In_insertSorted, IH. intuition congruence.
Qed.

Lemma NoDup_insertSorted (x : string) (l : list string) :
  ~ In x l -> NoDup l -> NoDup (insertSorted localeCompare x l).
Proof.
  induction l as [| z l IH]; simpl; intros Hx Hl.
  - constructor; [intros [] | constructor].
  - destruct (localeCompare x z <=? 0)%Z.
    + constructor; [simpl; tauto | assumption].
    + inversion Hl as [| ? ? Hz Hl']; subst. constructor.
      * rewrite In_insertSorted. intros [-> | Hin]; tauto.
      * apply IH; tauto.
Qed.

Lemma NoDup_sort (l : list string) : NoDup l -> NoDup (sort localeCompare l).
Proof.
  induction l as [| x l IH]; simpl; intros H; [constructor |].
  inversion H as [| ? ? Hx Hl]; subst.
  apply NoDup_insertSorted; [now rewrite In_sort | now apply IH].
Qed.

Section Ordered.

(** A consistent comparator: any two strings are comparable, and the
    order is transitive. *)
Hypothesis total : forall a b, (0 < localeCompare a b)%Z -> (localeCompare b a <= 0)%Z.
Hypothesis transitive :
  forall a b c, precedes localeCompare a b -> precedes localeCompare b c ->
                precedes localeCompare a c.

Lemma sorted_insertSorted (x : string) (l : list string) :
  StronglySorted (precedes localeCompare) l ->
  StronglySorted (precedes localeCompare) (insertSorted localeCompare x l).
Proof.
  induction l as [| z l IH]; simpl; intros Hl.
  - constructor; constructor.
  - inversion Hl as [| ? ? Hl' Hz]; subst.
    destruct (localeCompare x z <=? 0)%Z eqn:E.
    + apply Z.leb_le in E. constructor; [assumption |].
      constructor; [exact E |].
      rewrite Forall_forall in *. intros y Hy. eapply transitive; [exact E | now apply Hz].
    + apply Z.leb_gt in E. constructor; [now apply IH |].
      rewrite Forall_forall in *. intros y Hy. apply In_insertSorted in Hy.
      destruct Hy as [-> | Hy]; [now apply total | now apply Hz].
Qed.

Lemma sorted_sort (l : list string) :
  StronglySorted (precedes localeCompare) (sort localeCompare l).
Proof.
  induction l as [| x l IH]; simpl; [constructor | now apply sorted_insertSorted].
Qed.

End Ordered.

Lemma collectRegions_fold (games : list DatGame.t) :
  collectRegions games = fold_left collectStep games [].
Proof. reflexivity. Qed.

Lemma In_collectStep (acc : list string) (g : DatGame.t) (r : string) :
  In r (collectStep acc g) <->
  In r acc \/ In r (DatGame.regions g) \/ (r = DEFAULT_REGION /\ DatGame.regions g = []).
Proof.
  unfold collectStep. destruct (DatGame.regions g) as [| x xs] eqn:E.
  - rewrite In_add. simpl. intuition congruence.
  - rewrite In_addAll. intuition congruence.
Qed.

Lemma NoDup_collectStep (acc : list string) (g : DatGame.t) :
  NoDup acc -> NoDup (collectStep acc g).
Proof.
  unfold collectStep. destruct (DatGame.regions g);
    [apply NoDup_add | apply NoDup_addAll].
Qed.

Lemma In_fold_collect (games : list DatGame.t) (acc : list string) (r : string) :
  In r (fold_left collectStep games acc) <->
  In r acc
  \/ (exists g, In g games /\ In r (DatGame.regions g))
  \/ (r = DEFAULT_REGION /\ exists g, In g games /\ DatGame.regions g = []).
Proof.
  revert acc. induction games as [| g games IH]; intros acc; simpl.
  - split; [tauto | intros [H | [[g [[] _]] | [_ [g [[] _]]]]]; assumption].
  - rewrite IH, In_collectStep. split.
    + intros [[H | [H | [H1 H2]]] | [[g' [Hg Hr]] | [H1 [g' [Hg Hr]]]]].
      * now left.
      * right. left. exists g. auto.
      * right. right. split; [assumption | exists g; auto].
      * right. left. exists g'. auto.
      * right. right. split; [assumption | exists g'; auto].
    + intros [H | [[g' [[<- | Hg] Hr]] | [H1 [g' [[<- | Hg] Hr]]]]].
      * left. now left.
      * left. right. now left.
      * right. left. exists g'. auto.
      * left. right. right. auto.
      * right. right. split; [assumption | exists g'; auto].
Qed.

Lemma NoDup_fold_collect (games : list DatGame.t) (acc : list string) :
  NoDup acc -> NoDup (fold_left collectStep games acc).
Proof.
  revert acc. induction games as [| g games IH]; intros acc H; simpl;
    [assumption | apply IH, NoDup_collectStep, H].
Qed.

Lemma In_availableRegions (parsed : RawValue) (doc : ParsedDat.t) (r : string) :
  parseDat localeCompare parsed = Ok doc ->
  (In r (ParsedDat.availableRegions doc) <->
   (exists g, In g (ParsedDat.games doc) /\ In r (DatGame.regions g))
   \/ (r = DEFAULT_REGION
       /\ exists g, In g (ParsedDat.games doc) /\ DatGame.regions g = [])).
Proof.
  intros H. apply parseDat_Ok_inv in H. destruct H as [_ [_ [_ [-> _]]]].
  rewrite In_sort, collectRegions_fold, In_fold_collect. simpl. tauto.
Qed.

Lemma parsed_regions_canonical (parsed : RawValue) (doc : ParsedDat.t)
    (g : DatGame.t) (r : string) :
  parseDat localeCompare parsed = Ok doc ->
  In g (ParsedDat.games doc) -> In r (DatGame.regions g) -> In r CANONICAL_REGIONS.
Proof.
  intros H Hg Hr. apply parseDat_Ok_inv in H. destruct H as [_ [_ [Hm _]]].
  destruct (mapM_Ok_In _ _ _ _ Hm Hg) as [raw [_ Hraw]].
  eapply normalizeGame_canonical; eassumption.
Qed.

End Aggregation.

(* ================================================================== *)
(** ** Code-unit order is a consistent comparator *)
(* ================================================================== *)

Section CodeUnitOrder.

Lemma compare_not_Gt_trans (a b c : string) :
  String.compare a b <> Gt -> String.compare b c <> Gt -> String.compare a c <> Gt.
Proof.
  revert b c. induction a as [| x a IH]; intros [| y b] [| z c]; simpl;
    try congruence.
  unfold Ascii.compare.
  destruct (N.compare_spec (N_of_ascii x) (N_of_ascii y)) as [Exy | Lxy | Gxy];
    destruct (N.compare_spec (N_of_ascii y) (N_of_ascii z)) as [Eyz | Lyz | Gyz];
    destruct (N.compare_spec (N_of_ascii x) (N_of_ascii z)) as [Exz | Lxz | Gxz];
    try congruence; try lia.
  apply IH.
Qed.

Lemma codeUnitCompare_le (a b : string) :
  (codeUnitCompare a b <= 0)%Z <-> String.compare a b <> Gt.
Proof.
  unfold codeUnitCompare. destruct (String.compare a b); split; (lia || congruence).
Qed.

Lemma codeUnitCompare_total (a b : string) :
  (0 < codeUnitCompare a b)%Z -> (codeUnitCompare b a <= 0)%Z.
Proof.
  unfold codeUnitCompare. rewrite (String.compare_antisym b a).
  destruct (String.compare a b); simpl; lia.
Qed.

Lemma codeUnitCompare_transitive (a b c : string) :
  precedes codeUnitCompare a b -> precedes codeUnitCompare b c ->
  precedes codeUnitCompare a c.
Proof.
  unfold precedes. rewrite !codeUnitCompare_le. apply compare_not_Gt_trans.
Qed.

End CodeUnitOrder.

(* ================================================================== *)
(** ** Claims about the region vocabulary *)
(* ================================================================== *)

Lemma unknownTaggedDoc_parsed : parseDat codeUnitCompare unknownTaggedDat = Ok unknownTaggedDoc.
Proof. vm_compute. reflexivity. Qed.

(** C3, as the claim states it, fails: the document whose only entry is
    named "Mystery (Unknown)" lists "Unknown" among its available regions
    although no entry has zero detected regions. *)
Lemma C3_counterexample :
  parseDat codeUnitCompare unknownTaggedDat = Ok unknownTaggedDoc
  /\ In "Unknown" (ParsedDat.availableRegions unknownTaggedDoc)
  /\ ~ (exists g, In g (ParsedDat.games unknownTaggedDoc) /\ DatGame.regions g = []).
Proof.
  split; [exact unknownTaggedDoc_parsed |].
  split; [vm_compute; auto |].
  intros [g [[<- | []] Hg]]. vm_compute in Hg. discriminate Hg.
Qed.

(** C3 (amended).  For every parsed document, and a comparator that is
    total and transitive, the availableRegions list is sorted by the
    comparator, has no repetition, and holds exactly the labels of the
    region lists of the entries, together with "Unknown" when some entry
    has zero detected regions.  Every member is a canonical label, and
    "Unknown" is present if and only if some entry has zero detected
    regions or some entry has "Unknown" among its detected regions. *)
Theorem C3_vocabulary_sorted_distinct_reachable
    (localeCompare : string -> string -> Z)
    (total : forall a b, (0 < localeCompare a b)%Z -> (localeCompare b a <= 0)%Z)
    (transitive : forall a b c, precedes localeCompare a b -> precedes localeCompare b c ->
                                precedes localeCompare a c)
    (parsed : RawValue) (doc : ParsedDat.t) :
  parseDat localeCompare parsed = Ok doc ->
  let available := ParsedDat.availableRegions doc in
  StronglySorted (precedes localeCompare) available
  /\ NoDup available
  /\ (forall r, In r available <->
        (exists g, In g (ParsedDat.games doc) /\ In r (DatGame.regions g))
        \/ (r = "Unknown"
            /\ exists g, In g (ParsedDat.games doc) /\ DatGame.regions g = []))
  /\ (forall r, In r available -> In r CANONICAL_REGIONS)
  /\ (In "Unknown" available <->
        (exists g, In g (ParsedDat.games doc) /\ DatGame.regions g = [])
        \/ (exists g, In g (ParsedDat.games doc) /\ In "Unknown" (DatGame.regions g))).
Proof.
  intros H available.
  assert (Hin : forall r, In r available <->
        (exists g, In g (ParsedDat.games doc) /\ In r (DatGame.regions g))
        \/ (r = "Unknown"
            /\ exists g, In g (ParsedDat.games doc) /\ DatGame.regions g = []))
    by (intros r; apply (In_availableRegions localeCompare parsed doc r H)).
  pose proof (parseDat_Ok_inv localeCompare parsed doc H) as [_ [_ [_ [Hav _]]]].
  split; [subst available; rewrite Hav; now apply sorted_sort |].
  split.
  { subst available. rewrite Hav. apply NoDup_sort. rewrite collectRegions_fold.
    apply NoDup_fold_collect. constructor. }
  split; [exact Hin |].
  split.
  { intros r Hr. apply Hin in Hr. destruct Hr as [[g [Hg Hr]] | [-> _]].
    - eapply parsed_regions_canonical; eassumption.
    - apply (proj1 (has_In "Unknown" CANONICAL_REGIONS)). vm_compute. reflexivity. }
  rewrite Hin. split.
  - intros [Hg | [_ Hg]]; [now right | now left].
  - intros [Hg | Hg]; [right; split; [reflexivity | assumption] | now left].
Qed.

Lemma C3_witness :
  let available := ParsedDat.availableRegions sampleDoc in
  StronglySorted (precedes codeUnitCompare) available
  /\ NoDup available
  /\ (forall r, In r available <->
        (exists g, In g (ParsedDat.games sampleDoc) /\ In r (DatGame.regions g))
        \/ (r = "Unknown"
            /\ exists g, In g (ParsedDat.games sampleDoc) /\ DatGame.regions g = []))
  /\ (forall r, In r available -> In r CANONICAL_REGIONS)
  /\ (In "Unknown" available <->
        (exists g, In g (ParsedDat.games sampleDoc) /\ DatGame.regions g = [])
        \/ (exists g, In g (ParsedDat.games sampleDoc)
                      /\ In "Unknown" (DatGame.regions g))).
Proof.
  apply (C3_vocabulary_sorted_distinct_reachable codeUnitCompare
           codeUnitCompare_total codeUnitCompare_transitive sampleDat sampleDoc).
  vm_compute. reflexivity.
Defined.

(** C2, as the claim states it, fails: the sample document has an entry
    without regions, its availableRegions list holds "Unknown", and the
    filter on that list keeps three entries where the empty selection
    keeps four. *)
Lemma C2_counterexample :
  parseDat codeUnitCompare sampleDat = Ok sampleDoc
  /\ filteredCount
       (filterDatByRegions sampleDoc (ParsedDat.availableRegions sampleDoc) None sampleNow)
     = Some 3
  /\ filteredCount (filterDatByRegions sampleDoc [] None sampleNow) = Some 4.
Proof.
  split; [exact sampleDoc_parsed |].
  split; vm_compute; reflexivity.
Qed.

Lemma filter_all {A} (f : A -> bool) (l : list A) :
  (forall x, In x l -> f x = true) -> filter f l = l.
Proof.
  induction l as [| a l IH]; simpl; intros H; [reflexivity |].
  rewrite (H a (or_introl eq_refl)). f_equal. apply IH. intros x Hx. apply H. now right.
Qed.

Lemma filteredCount_kept (doc : ParsedDat.t) (sel : list string) (base : option string)
    (now : string) :
  filteredCount (filterDatByRegions doc sel base now)
  = match keptGames doc sel with
    | [] => None
    | kept => Some (List.length kept)
    end.
Proof.
  rewrite filter_unfold. destruct (keptGames doc sel); reflexivity.
Qed.

(** C2 (amended).  For every parsed document in which every entry has at
    least one detected region, filtering with the document's full
    availableRegions list keeps the entries that filtering with the empty
    selection keeps, so both report the same filtered count (or both
    fail). *)
Theorem C2_full_selection_same_count
    (localeCompare : string -> string -> Z) (parsed : RawValue) (doc : ParsedDat.t)
    (base : option string) (now : string) :
  parseDat localeCompare parsed = Ok doc ->
  (forall g, In g (ParsedDat.games doc) -> DatGame.regions g <> []) ->
  keptGames doc (ParsedDat.availableRegions doc) = keptGames doc []
  /\ filteredCount (filterDatByRegions doc (ParsedDat.availableRegions doc) base now)
     = filteredCount (filterDatByRegions doc [] base now).
Proof.
  intros H Hall.
  assert (K : keptGames doc (ParsedDat.availableRegions doc) = keptGames doc []).
  { rewrite (keptGames_inactive doc []) by reflexivity.
    destruct (canonicalSelections (ParsedDat.availableRegions doc)) eqn:E.
    - now apply keptGames_inactive.
    - rewrite keptGames_active by congruence. apply filter_all. intros g Hg.
      apply keeps_shares. specialize (Hall g Hg).
      destruct (DatGame.regions g) as [| r rs] eqn:Er; [congruence |].
      exists r. split; [now left |].
      assert (Hr : In r (DatGame.regions g)) by (rewrite Er; now left).
      apply In_canonicalSelections. left. exists r. split.
      + apply (In_availableRegions localeCompare parsed doc r H). left. exists g. auto.
      + apply canonical_fixed. eapply parsed_regions_canonical; eassumption. }
  split; [exact K |]. now rewrite !filteredCount_kept, K.
Qed.

Lemma C2_witness :
  keptGames taggedDoc (ParsedDat.availableRegions taggedDoc) = keptGames taggedDoc []
  /\ filteredCount
       (filterDatByRegions taggedDoc (ParsedDat.availableRegions taggedDoc) None sampleNow)
     = filteredCount (filterDatByRegions taggedDoc [] None sampleNow).
Proof.
  apply (C2_full_selection_same_count codeUnitCompare taggedDat taggedDoc None sampleNow).
  - vm_compute. reflexivity.
  - intros g [<- | [<- | [<- | []]]]; vm_compute; discriminate.
Defined.

(* ================================================================== *)
(** ** The rebuilt header *)
(* ================================================================== *)

Section Header.

Lemma canonicalSelections_truthy (sel : list string) (r : string) :
  In r (canonicalSelections sel) -> Js.truthy r = true.
Proof.
  unfold canonicalSelections. rewrite In_setOf, filter_In. tauto.
Qed.

Lemma truthy_append (a b : string) : Js.truthy a = true -> Js.truthy (a ++ b) = true.
Proof. destruct a; [discriminate | reflexivity]. Qed.

Lemma truthy_join (sep x : string) (xs : list string) :
  Js.truthy x = true -> Js.truthy (Js.join sep (x :: xs)) = true.
Proof.
  intros H. unfold Js.join. simpl. destruct xs; [assumption | now apply truthy_append].
Qed.

Lemma createRegionLabel_truthy (sel : list string) :
  canonicalSelections sel <> [] ->
  Js.truthy (createRegionLabel (canonicalSelections sel)) = true.
Proof.
  intros H. pose proof (canonicalSelections_truthy sel) as T.
  destruct (canonicalSelections sel) as [| x xs]; [congruence |].
  unfold createRegionLabel. apply truthy_join. apply T. now left.
Qed.

(** C8.  After a successful filter of a parsed document the name of the
    rebuilt header is the original name when the canonicalized selection
    is empty, and otherwise the original name, a space, and in
    parentheses the selected regions joined by a comma and a space, in
    the order of the selection (a selection of distinct canonical labels
    is taken as it is).  Its description is the rebuilt name, " - ", the
    descriptor the summary reports (the document's, or "Datfile" when
    that is empty), the number of kept entries in parentheses, and the
    version label in parentheses: the version field of the header, else
    its date field, else the date part of the clock reading. *)
Theorem C8_rebuilt_header
    (localeCompare : string -> string -> Z) (parsed : RawValue) (doc : ParsedDat.t)
    (sel : list string) (base : option string) (now : string)
    (res : FilteredDatResult.t) :
  parseDat localeCompare parsed = Ok doc ->
  filterDatByRegions doc sel base now = Ok res ->
  let original := ParsedDat.header doc in
  let rebuilt := FilteredDatResult.header res in
  let chosen := FilterSummary.selectedRegions (FilteredDatResult.summary res) in
  let descriptor := FilterSummary.descriptor (FilteredDatResult.summary res) in
  let count := List.length (FilteredDatResult.games res) in
  let versionText :=
    match DatHeader.version original with
    | Some v => v
    | None =>
        match DatHeader.date original with
        | Some d => d
        | None => Js.beforeFirst "T" now
        end
    end in
  chosen = canonicalSelections sel
  /\ (NoDup sel -> (forall r, In r sel -> In r CANONICAL_REGIONS) -> chosen = sel)
  /\ DatHeader.name rebuilt
     = match chosen with
       | [] => DatHeader.name original
       | _ => (DatHeader.name original ++ " (" ++ String.concat ", " chosen ++ ")")%string
       end
  /\ DatHeader.description rebuilt
     = Some (DatHeader.name rebuilt ++ " - " ++ descriptor
               ++ " (" ++ Js.ofNat count ++ ") (" ++ versionText ++ ")")%string
  /\ descriptor
     = (if Js.truthy (ParsedDat.descriptor doc) then ParsedDat.descriptor doc else "Datfile")
  /\ FilterSummary.filteredGames (FilteredDatResult.summary res) = count.
Proof.
  intros Hp Hf. cbv zeta.
  apply parseDat_Ok_inv in Hp. destruct Hp as [_ [_ [_ [_ [Hv _]]]]].
  apply filter_Ok_inv in Hf. destruct Hf as [_ [Hg [Hs [Hc [Hd Hh]]]]].
  rewrite Hs, Hg, Hh, Hc.
  split; [reflexivity |].
  split; [apply canonicalSelections_fixed |].
  assert (Hname : DatHeader.name
                    (buildFilteredHeader (ParsedDat.header doc)
                       (List.length (keptGames doc sel)) (canonicalSelections sel)
                       (FilterSummary.descriptor (FilteredDatResult.summary res))
                       (ParsedDat.versionLabel doc) now)
                  = match canonicalSelections sel with
                    | [] => DatHeader.name (ParsedDat.header doc)
                    | _ => (DatHeader.name (ParsedDat.header doc) ++ " ("
                              ++ String.concat ", " (canonicalSelections sel) ++ ")")%string
                    end).
  { unfold buildFilteredHeader. cbn [DatHeader.name].
    destruct (canonicalSelections sel) as [| x xs] eqn:E; [reflexivity |].
    rewrite <- E. rewrite createRegionLabel_truthy by congruence.
    rewrite E. reflexivity. }
  split; [exact Hname |].
  split.
  { rewrite Hname. unfold buildFilteredHeader at 1. cbn [DatHeader.description].
    rewrite Hv. do 2 f_equal.
    - destruct (canonicalSelections sel) as [| x xs] eqn:E; [reflexivity |].
      rewrite <- E. rewrite createRegionLabel_truthy by congruence.
      rewrite E. reflexivity.
    - do 5 f_equal. unfold orElse.
      destruct (DatHeader.version (ParsedDat.header doc)); [reflexivity |].
      destruct (DatHeader.date (ParsedDat.header doc)); reflexivity. }
  split; [exact Hd | reflexivity].
Qed.

Lemma C8_witness :
  exists res,
    filterDatByRegions sampleDoc ["World"; "usa"; "USA"] None sampleNow = Ok res
    /\ DatHeader.name (FilteredDatResult.header res) = "Microsoft - Xbox (World, USA)"
    /\ DatHeader.description (FilteredDatResult.header res)
       = Some "Microsoft - Xbox (World, USA) - Datfile (2) (2025-11-07 05-38-55)"
    /\ FilterSummary.selectedRegions (FilteredDatResult.summary res)
       = canonicalSelections ["World"; "usa"; "USA"].
Proof.
  eexists. split; [vm_compute; reflexivity |].
  split; [vm_compute; reflexivity |].
  split; [vm_compute; reflexivity |].
  apply (C8_rebuilt_header codeUnitCompare sampleDat sampleDoc
           ["World"; "usa"; "USA"] None sampleNow);
    vm_compute; reflexivity.
Defined.

End Header.

(* ================================================================== *)
(** ** Descriptors *)
(* ================================================================== *)

Section DescriptorFacts.

Lemma matchHere_ignoreCase (word : string) :
  forall (s : string) (st : caps),
    (exists x, matchHere (literalIgnoreCase word) s st = Some x) <->
    (exists mid post, s = (mid ++ post)%string /\ lowerAscii mid = lowerAscii word).
Proof.
  induction word as [| c word IH]; intros s st; cbn [literalIgnoreCase matchHere].
  - split.
    + intros _. exists "", s. auto.
    + intros _. eexists. reflexivity.
  - destruct s as [| d s].
    + split; [intros [x H]; discriminate H |].
      intros [[| m mid] [post [Hs Hm]]]; simpl in *; discriminate.
    + destruct (Ascii.eqb (asciiLower d) (asciiLower c)) eqn:E.
      * rewrite IH. apply Ascii.eqb_eq in E. split.
        -- intros [mid [post [-> Hm]]]. exists (String d mid), post.
           split; [reflexivity |]. simpl. now rewrite E, Hm.
        -- intros [[| m mid] [post [Hs Hm]]]; simpl in *; [discriminate |].
           injection Hs as <- ->. injection Hm as _ Hm. exists mid, post. auto.
      * apply Ascii.eqb_neq in E. split; [intros [x H]; discriminate H |].
        intros [[| m mid] [post [Hs Hm]]]; simpl in *; [discriminate |].
        injection Hs as <- ->. injection Hm as Hc _. contradiction.
Qed.

Lemma exec_Some_iff (r : regex) (s : string) :
  (exists m, exec r s = Some m) <->
  (exists pre post x, s = (pre ++ post)%string /\ matchHere r post start = Some x).
Proof.
  induction s as [| c s IH]; cbn [exec].
  - destruct (matchHere r "" start) as [[g rest] |] eqn:E.
    + split; [| intros _; eexists; reflexivity].
      intros _. exists "", "", (g, rest). auto.
    + split; [intros [m H]; discriminate H |].
      intros [[| p pre] [post [x [Hs Hm]]]]; simpl in Hs; [| discriminate].
      subst post. congruence.
  - destruct (matchHere r (String c s) start) as [[g rest] |] eqn:E.
    + split; [| intros _; eexists; reflexivity].
      intros _. exists "", (String c s), (g, rest). auto.
    + split.
      * intros [m H]. destruct (exec r s) as [m' |] eqn:Es; [| discriminate H].
        destruct (proj1 IH (ex_intro _ m' eq_refl)) as [pre [post [x [Hs Hm]]]].
        exists (String c pre), post, x. subst s. auto.
      * intros [[| p pre] [post [x [Hs Hm]]]]; simpl in Hs.
        -- subst post. congruence.
        -- injection Hs as <- ->.
           destruct (proj2 IH (ex_intro _ pre (ex_intro _ post (ex_intro _ x (conj eq_refl Hm)))))
             as [m' Hm'].
           rewrite Hm'. eexists. reflexivity.
Qed.

(** The [i]-flagged literal patterns test for a mention of the word. *)
Lemma test_ignoreCase (word text : string) :
  test (literalIgnoreCase word) text = true <-> mentions word text.
Proof.
  unfold test, mentions. split.
  - destruct (exec (literalIgnoreCase word) text) as [m |] eqn:E; [| discriminate].
    intros _. destruct (proj1 (exec_Some_iff _ _) (ex_intro _ m E)) as [pre [post [x [Hs Hm]]]].
    destruct (proj1 (matchHere_ignoreCase word post start) (ex_intro _ x Hm))
      as [mid [post' [Hp Hmid]]].
    exists pre, mid, post'. subst. auto.
  - intros [pre [mid [post [Hs Hmid]]]].
    destruct (proj2 (matchHere_ignoreCase word (mid ++ post)%string start)
                (ex_intro _ mid (ex_intro _ post (conj eq_refl Hmid)))) as [x Hx].
    destruct (proj2 (exec_Some_iff (literalIgnoreCase word) text)
                (ex_intro _ pre (ex_intro _ (mid ++ post)%string
                                   (ex_intro _ x (conj Hs Hx))))) as [m Hm].
    now rewrite Hm.
Qed.

Lemma test_ignoreCase_false (word text : string) :
  test (literalIgnoreCase word) text = false <-> ~ mentions word text.
Proof.
  rewrite <- test_ignoreCase. destruct (test _ _); split; congruence.
Qed.

(** C9.  When neither the anchored pattern nor the looser pattern matches
    the description, the derived descriptor and its normalized form are
    both "Datfile", whether the description mentions "datfile" (the
    generic descriptor is then "Datfile") or nothing is derivable.
    Normalization maps a label that mentions "datfile" or "disc", in any
    letter case, to "Datfile", and returns any other label as it is. *)
Theorem C9_descriptor_fallback_and_normalization
    (header : DatHeader.t) (totalGames : nat) :
  let description :=
    match DatHeader.description header with Some d => d | None => "" end in
  (tryExtractDescriptor description (DatHeader.name header) totalGames = None ->
   exec reGenericDescriptor description = None ->
   deriveDescriptors header totalGames = ("Datfile", "Datfile")
   /\ (mentions "datfile" description ->
       extractGenericDescriptor description = Some "Datfile")
   /\ (~ mentions "datfile" description ->
       extractGenericDescriptor description = None))
  /\ (forall label, mentions "datfile" label \/ mentions "disc" label ->
                    normalizeDescriptorLabel label = "Datfile")
  /\ (forall label, ~ mentions "datfile" label -> ~ mentions "disc" label ->
                    normalizeDescriptorLabel label = label).
Proof.
  intros description.
  assert (N : normalizeDescriptorLabel "Datfile" = "Datfile") by (vm_compute; reflexivity).
  split.
  { intros Ha Hl.
    assert (G : extractGenericDescriptor description
                = if test reDatfile description then Some "Datfile" else None).
    { unfold extractGenericDescriptor. now rewrite Hl. }
    split.
    - unfold deriveDescriptors. fold description. rewrite Ha, G. unfold orElse.
      destruct (test reDatfile description); now rewrite N.
    - rewrite G. unfold reDatfile. split.
      + intros M. apply test_ignoreCase in M. now rewrite M.
      + intros M. apply test_ignoreCase_false in M. now rewrite M. }
  split.
  - intros label [M | M]; unfold normalizeDescriptorLabel, reDatfile, reDisc.
    + apply test_ignoreCase in M. now rewrite M.
    + apply test_ignoreCase in M. rewrite M.
      destruct (test (literalIgnoreCase "datfile") label); reflexivity.
  - intros label M1 M2. unfold normalizeDescriptorLabel, reDatfile, reDisc.
    apply test_ignoreCase_false in M1, M2. now rewrite M1, M2.
Qed.

Lemma C9_witness :
  deriveDescriptors bareHeader 3 = ("Datfile", "Datfile")
  /\ (mentions "datfile" "Redump DATFILE" ->
      extractGenericDescriptor "Redump DATFILE" = Some "Datfile")
  /\ (~ mentions "datfile" "Redump DATFILE" ->
      extractGenericDescriptor "Redump DATFILE" = None).
Proof.
  apply (proj1 (C9_descriptor_fallback_and_normalization bareHeader 3));
    vm_compute; reflexivity.
Defined.

End DescriptorFacts.

(* ================================================================== *)
(** ** Characters through the global replacements and splits *)
(* ================================================================== *)

Section CharacterFacts.

Lemma allChars_app (q : ascii -> bool) (a b : string) :
  allChars q (a ++ b)%string = allChars q a && allChars q b.
Proof.
  induction a as [| c a IH]; simpl; [reflexivity |].
  now rewrite IH, andb_assoc.
Qed.

Lemma allChars_weaken (q q' : ascii -> bool) (s : string) :
  (forall c, q c = true -> q' c = true) -> allChars q s = true -> allChars q' s = true.
Proof.
  intros H. induction s as [| c s IH]; simpl; [reflexivity |].
  intros Hs. apply andb_prop in Hs. destruct Hs as [Hc Hs].
  now rewrite (H c Hc), IH.
Qed.

Lemma allChars_trimStart (q : ascii -> bool) (s : string) :
  allChars q s = true -> allChars q (Js.trimStart s) = true.
Proof.
  induction s as [| c s IH]; simpl; [reflexivity |].
  intros H. destruct (Js.isWhiteSpace c); [| exact H].
  apply andb_prop in H. now apply IH.
Qed.

Lemma allChars_trimEnd (q : ascii -> bool) (s : string) :
  allChars q s = true -> allChars q (Js.trimEnd s) = true.
Proof.
  induction s as [| c s IH]; simpl; [reflexivity |].
  intros H. apply andb_prop in H. destruct H as [Hc Hs]. specialize (IH Hs).
  destruct (Js.trimEnd s) as [| d r].
  - destruct (Js.isWhiteSpace c); simpl; [reflexivity | now rewrite Hc].
  - change (q c && allChars q (String d r) = true). now rewrite Hc, IH.
Qed.

Lemma allChars_trim (q : ascii -> bool) (s : string) :
  allChars q s = true -> allChars q (Js.trim s) = true.
Proof. intros H. unfold Js.trim. now apply allChars_trimEnd, allChars_trimStart. Qed.

Lemma repeatClass_suffixing (greedy : bool) (min : nat) (p : ascii -> bool)
    (k : continuation) :
  suffixing k -> forall n, suffixing (repeatClass greedy min p k n).
Proof.
  intros Hk n s. revert n. induction s as [| d s IH]; intros n st x; cbn [repeatClass].
  - destruct (Nat.leb min n); [apply Hk | discriminate].
  - assert (Hstop : (if Nat.leb min n then k (String d s) st else None) = Some x ->
                    exists mid, String d s = (mid ++ snd x)%string).
    { destruct (Nat.leb min n); [apply Hk | discriminate]. }
    assert (Hmore : forall m, repeatClass greedy min p k m s (feed d st) = Some x ->
                              exists mid, String d s = (mid ++ snd x)%string).
    { intros m H. apply IH in H. destruct H as [mid ->]. now exists (String d mid). }
    destruct (p d); [| exact Hstop].
    destruct greedy.
    + destruct (repeatClass true min p k (S n) s (feed d st)) as [y |] eqn:E;
        [| exact Hstop].
      intros H. injection H as <-. now apply (Hmore (S n)).
    + destruct (if Nat.leb min n then k (String d s) st else None) as [y |] eqn:E.
      * intros H. injection H as <-. now apply Hstop.
      * apply Hmore.
Qed.

Lemma matchHere_suffixing (r : regex) : suffixing (matchHere r).
Proof.
  induction r as [| a r IH]; cbn [matchHere].
  - intros s st x H. injection H as <-. now exists "".
  - destruct a as [c | p | greedy min p | | |].
    + intros [| d s] st x; [discriminate |].
      destruct (Ascii.eqb c d); [| discriminate]. intros H. apply IH in H.
      destruct H as [mid ->]. now exists (String d mid).
    + intros [| d s] st x; [discriminate |].
      destruct (p d); [| discriminate]. intros H. apply IH in H.
      destruct H as [mid ->]. now exists (String d mid).
    + now apply repeatClass_suffixing.
    + intros s st x H. now apply IH in H.
    + intros s st x H. now apply IH in H.
    + intros [| d s] st x; [| discriminate]. intros H. now apply IH in H.
Qed.

(** The text searched is what precedes the match, the match, and what
    follows it. *)
Lemma exec_parts (r : regex) (s : string) (m : found) :
  exec r s = Some m -> exists mid, s = (before m ++ mid ++ after m)%string.
Proof.
  revert m. induction s as [| c s IH]; intros m; cbn [exec].
  - destruct (matchHere r "" start) as [[g rest] |] eqn:E; [| discriminate].
    intros H. injection H as <-. apply matchHere_suffixing in E. exact E.
  - destruct (matchHere r (String c s) start) as [[g rest] |] eqn:E.
    + intros H. injection H as <-. apply matchHere_suffixing in E. exact E.
    + destruct (exec r s) as [m' |]; [| discriminate].
      intros H. injection H as <-. destruct (IH m' eq_refl) as [mid Hs].
      exists mid. simpl. now rewrite <- Hs.
Qed.

Lemma exec_before_clear (p : ascii -> bool) (r : regex) (s : string) (m : found) :
  triggeredBy p r -> exec r s = Some m ->
  allChars (fun c => negb (p c)) (before m) = true.
Proof.
  intros Ht. revert m. induction s as [| c s IH]; intros m; cbn [exec].
  - destruct (matchHere r "" start) as [[g rest] |]; [| discriminate].
    intros H. injection H as <-. reflexivity.
  - destruct (matchHere r (String c s) start) as [[g rest] |] eqn:E.
    + intros H. injection H as <-. reflexivity.
    + destruct (exec r s) as [m' |]; [| discriminate].
      intros H. injection H as <-. cbn [before allChars]. rewrite (IH m' eq_refl).
      destruct (p c) eqn:Ep; [| reflexivity]. now apply Ht in E.
Qed.

Lemma exec_None_clear (p : ascii -> bool) (r : regex) (s : string) :
  triggeredBy p r -> exec r s = None -> allChars (fun c => negb (p c)) s = true.
Proof.
  intros Ht. induction s as [| c s IH]; cbn [exec]; [reflexivity |].
  destruct (matchHere r (String c s) start) as [[g rest] |] eqn:E; [discriminate |].
  destruct (exec r s) as [m' |]; [discriminate |]. intros _. cbn [allChars].
  rewrite (IH eq_refl). destruct (p c) eqn:Ep; [| reflexivity]. now apply Ht in E.
Qed.

(** Replacing the matches of a pattern triggered by [p]: when every
    character of the text is in [p] or passes [q], and the replacement
    passes [q], the result passes [q]. *)
Lemma replaceAll_allChars (p q : ascii -> bool) (r : regex) (by_ : string) :
  consumes r = true -> triggeredBy p r -> allChars q by_ = true ->
  forall s, allChars (fun c => p c || q c) s = true ->
            allChars q (replaceAll r by_ s) = true.
Proof.
  intros Hc Ht Hby s. remember (String.length s) as n eqn:Hn. revert s Hn.
  induction n as [n IH] using lt_wf_ind. intros s Hn Hs.
  rewrite (replaceAll_step r by_ s Hc).
  assert (Hq : forall t, allChars (fun c => p c || q c) t = true ->
                         allChars (fun c => negb (p c)) t = true ->
                         allChars q t = true).
  { induction t as [| c t IHt]; simpl; [reflexivity |].
    intros H1 H2. apply andb_prop in H1, H2. destruct H1 as [H1 H1'], H2 as [H2 H2'].
    rewrite (IHt H1' H2'). destruct (p c); [discriminate |].
    simpl in H1. now rewrite H1. }
  destruct (exec r s) as [m |] eqn:E.
  - destruct (exec_parts r s m E) as [mid Hparts].
    pose proof (exec_after_shorter r s m Hc E) as Hlen.
    rewrite Hparts in Hs. rewrite !allChars_app in Hs.
    apply andb_prop in Hs. destruct Hs as [Hb Hs]. apply andb_prop in Hs.
    destruct Hs as [_ Ha].
    rewrite !allChars_app, Hby.
    rewrite (Hq _ Hb (exec_before_clear p r s m Ht E)).
    rewrite (IH (String.length (after m))); [reflexivity | lia | reflexivity | exact Ha].
  - apply Hq; [exact Hs | now apply (exec_None_clear p r s Ht)].
Qed.

(** The pieces of a split keep the characters of the text, and hold no
    character that triggers the separator. *)
Lemma split_allChars (q : ascii -> bool) (r : regex) :
  consumes r = true ->
  forall s, allChars q s = true -> Forall (fun piece => allChars q piece = true) (split r s).
Proof.
  intros Hc s. remember (String.length s) as n eqn:Hn. revert s Hn.
  induction n as [n IH] using lt_wf_ind. intros s Hn Hs.
  rewrite (split_step r s Hc).
  destruct (exec r s) as [m |] eqn:E; [| now constructor].
  destruct (exec_parts r s m E) as [mid Hparts].
  pose proof (exec_after_shorter r s m Hc E) as Hlen.
  rewrite Hparts in Hs. rewrite !allChars_app in Hs.
  apply andb_prop in Hs. destruct Hs as [Hb Hs]. apply andb_prop in Hs.
  destruct Hs as [_ Ha].
  constructor; [exact Hb |].
  apply (IH (String.length (after m))); [lia | reflexivity | exact Ha].
Qed.

Lemma split_clear (p : ascii -> bool) (r : regex) :
  consumes r = true -> triggeredBy p r ->
  forall s, Forall (fun piece => allChars (fun c => negb (p c)) piece = true) (split r s).
Proof.
  intros Hc Ht s. remember (String.length s) as n eqn:Hn. revert s Hn.
  induction n as [n IH] using lt_wf_ind. intros s Hn.
  rewrite (split_step r s Hc).
  destruct (exec r s) as [m |] eqn:E.
  - pose proof (exec_after_shorter r s m Hc E) as Hlen.
    constructor; [now apply (exec_before_clear p r s m Ht) |].
    apply (IH (String.length (after m))); [lia | reflexivity].
  - constructor; [now apply (exec_None_clear p r s Ht) | constructor].
Qed.

Lemma triggered_class (p : ascii -> bool) : triggeredBy p [Cls p].
Proof. intros c s Hp. cbn [matchHere]. now rewrite Hp. Qed.

Lemma run_matches (p : ascii -> bool) (s : string) :
  forall n st, 1 <= n -> repeatClass true 1 p (matchHere []) n s st <> None.
Proof.
  induction s as [| d s IH]; intros n st Hn; cbn [repeatClass matchHere];
    destruct n as [| n]; try lia; cbn [Nat.leb].
  - discriminate.
  - destruct (p d); [| discriminate].
    match goal with
    | |- match ?x with Some _ => _ | None => _ end <> None => destruct x; discriminate
    end.
Qed.

Lemma triggered_run (p : ascii -> bool) : triggeredBy p [Rep true 1 p].
Proof.
  intros c s Hp. cbn [matchHere repeatClass]. rewrite Hp.
  pose proof (run_matches p s 1 (feed c start) (le_n 1)) as H. cbn [matchHere] in H.
  match goal with
  | |- match ?x with Some _ => _ | None => _ end <> None =>
      destruct x; [discriminate | now elim H]
  end.
Qed.

End CharacterFacts.

(* ================================================================== *)
(** ** Trimming *)
(* ================================================================== *)

Section TrimFacts.

Lemma trimEnd_idempotent (s : string) : Js.trimEnd (Js.trimEnd s) = Js.trimEnd s.
Proof.
  induction s as [| c s IH]; [reflexivity |]. cbn [Js.trimEnd].
  destruct (Js.trimEnd s) as [| d r] eqn:E.
  - destruct (Js.isWhiteSpace c) eqn:W; [reflexivity |].
    cbn [Js.trimEnd]. now rewrite W.
  - change (Js.trimEnd (String c (String d r)))
      with (match Js.trimEnd (String d r) with
            | EmptyString => if Js.isWhiteSpace c then EmptyString else String c EmptyString
            | r' => String c r'
            end).
    now rewrite IH.
Qed.

Lemma trimEnd_head (c : ascii) (s : string) :
  Js.isWhiteSpace c = false -> exists r, Js.trimEnd (String c s) = String c r.
Proof.
  intros W. cbn [Js.trimEnd]. destruct (Js.trimEnd s) as [| d r].
  - rewrite W. now exists "".
  - now exists (String d r).
Qed.

Lemma trimStart_head (s : string) :
  match Js.trimStart s with
  | String c _ => Js.isWhiteSpace c = false
  | EmptyString => True
  end.
Proof.
  induction s as [| c s IH]; simpl; [exact I |].
  destruct (Js.isWhiteSpace c) eqn:W; [exact IH | exact W].
Qed.

(** [trim] leaves a trimmed string as it is. *)
Lemma trim_idempotent (s : string) : Js.trim (Js.trim s) = Js.trim s.
Proof.
  unfold Js.trim. pose proof (trimStart_head s) as H.
  destruct (Js.trimStart s) as [| c r]; [reflexivity |].
  destruct (trimEnd_head c r H) as [r' E]. rewrite E.
  cbn [Js.trimStart]. rewrite H. rewrite <- E. apply trimEnd_idempotent.
Qed.

End TrimFacts.

(* ================================================================== *)
(** ** More on token normalization *)
(* ================================================================== *)

Section NormalizationFacts.

Lemma normalizeRegionToken_unfold (token : string) :
  normalizeRegionToken token
  = if negb (Js.truthy token) then None
    else if negb (Js.truthy (cleanToken token)) then None
    else match mapGet REGION_SYNONYMS (Js.toLowerCase (cleanToken token)) with
         | Some synonym => Some synonym
         | None =>
             if Js.has (cleanToken token) CANONICAL_REGIONS
             then Some (cleanToken token) else None
         end.
Proof. reflexivity. Qed.

Lemma canonical_reached : forallb reachedBySynonym CANONICAL_REGIONS = true.
Proof. vm_compute. reflexivity. Qed.

Lemma synonym_not_sentinel (k v : string) :
  mapGet REGION_SYNONYMS k = Some v -> v <> DEFAULT_REGION.
Proof.
  intros H E. subst v. apply mapGet_In in H.
  apply (proj2 (has_In DEFAULT_REGION (map snd REGION_SYNONYMS))) in H.
  vm_compute in H. discriminate H.
Qed.

Lemma toLowerCase_empty (s : string) : Js.toLowerCase s = "" -> s = "".
Proof. destruct s; [reflexivity | discriminate]. Qed.

#[local] Opaque CANONICAL_REGIONS REGION_SYNONYMS cleanToken.

(** X1.  What token normalization returns is a canonical label, is not
    empty, and is returned again when it is normalized itself. *)
Theorem normalizeRegionToken_idempotent (token c : string) :
  normalizeRegionToken token = Some c ->
  normalizeRegionToken c = Some c /\ In c CANONICAL_REGIONS /\ c <> "".
Proof.
  intros H. pose proof (normalizeRegionToken_canonical token c H) as Hc.
  split; [now apply canonical_fixed |]. split; [exact Hc |].
  apply truthy_nonempty. now apply canonical_truthy.
Qed.

Lemma normalizeRegionToken_idempotent_witness :
  normalizeRegionToken " North   America. " = Some "USA"
  /\ normalizeRegionToken "USA" = Some "USA" /\ In "USA" CANONICAL_REGIONS /\ "USA" <> "".
Proof.
  split; [vm_compute; reflexivity |].
  apply (normalizeRegionToken_idempotent " North   America. " "USA").
  vm_compute. reflexivity.
Defined.

(** X2.  Recognition ignores letter case for every label but the
    sentinel: a token gets a label other than "Unknown" exactly when the
    lower-case form of its cleaned text is a key of the synonym table
    with that label, so two tokens with the same lower-case cleaned text
    get the same such label.  "Unknown" is returned exactly for a token
    whose cleaned text is "Unknown" in that spelling. *)
Theorem recognition_ignores_case_except_sentinel :
  (forall token c,
     c <> "Unknown" ->
     (normalizeRegionToken token = Some c <->
      token <> ""
      /\ mapGet REGION_SYNONYMS (Js.toLowerCase (cleanToken token)) = Some c))
  /\ (forall token,
        normalizeRegionToken token = Some "Unknown" <->
        token <> "" /\ cleanToken token = "Unknown")
  /\ (forall t1 t2 c,
        c <> "Unknown" -> t2 <> "" ->
        Js.toLowerCase (cleanToken t1) = Js.toLowerCase (cleanToken t2) ->
        normalizeRegionToken t1 = Some c -> normalizeRegionToken t2 = Some c).
Proof.
  assert (A : forall token c,
     c <> "Unknown" ->
     (normalizeRegionToken token = Some c <->
      token <> ""
      /\ mapGet REGION_SYNONYMS (Js.toLowerCase (cleanToken token)) = Some c)).
  { intros token c Hc. rewrite normalizeRegionToken_unfold.
    destruct (Js.truthy token) eqn:T; cbn [negb].
    2:{ apply not_true_iff_false in T. rewrite truthy_nonempty in T.
        split; [intros H; discriminate H | intros [H _]; tauto]. }
    apply truthy_nonempty in T.
    destruct (Js.truthy (cleanToken token)) eqn:Tc; cbn [negb].
    - destruct (mapGet REGION_SYNONYMS (Js.toLowerCase (cleanToken token))) as [v |] eqn:E.
      + split; [intros H; injection H as ->; auto | intros [_ H]; exact H].
      + split; [| intros [_ H]; discriminate H].
        destruct (Js.has (cleanToken token) CANONICAL_REGIONS) eqn:Hh;
          [| intros H; discriminate H].
        intros H. injection H as H. exfalso.
        apply has_In in Hh. pose proof canonical_reached as R.
        rewrite forallb_forall in R. specialize (R _ Hh). unfold reachedBySynonym in R.
        rewrite E, orb_false_r in R. apply String.eqb_eq in R.
        unfold DEFAULT_REGION in R. congruence.
    - split; [intros H; discriminate H |]. intros [_ H]. exfalso.
      destruct (cleanToken token); [| discriminate Tc].
      vm_compute in H. discriminate H. }
  split; [exact A |]. split.
  - intros token. rewrite normalizeRegionToken_unfold.
    destruct (Js.truthy token) eqn:T; cbn [negb].
    2:{ apply not_true_iff_false in T. rewrite truthy_nonempty in T.
        split; [intros H; discriminate H | intros [H _]; tauto]. }
    apply truthy_nonempty in T.
    destruct (Js.truthy (cleanToken token)) eqn:Tc; cbn [negb].
    + destruct (mapGet REGION_SYNONYMS (Js.toLowerCase (cleanToken token))) as [v |] eqn:E.
      * split.
        -- intros H. injection H as ->. now apply synonym_not_sentinel in E.
        -- intros [_ H]. rewrite H in E. vm_compute in E. discriminate E.
      * split.
        -- destruct (Js.has (cleanToken token) CANONICAL_REGIONS);
             intros H; [injection H as H; auto | discriminate H].
        -- intros [_ H]. rewrite H.
           replace (Js.has "Unknown" CANONICAL_REGIONS) with true
             by (vm_compute; reflexivity).
           reflexivity.
    + split; [intros H; discriminate H |]. intros [_ H]. rewrite H in Tc. discriminate Tc.
  - intros t1 t2 c Hc Ht2 Hl H. apply (A t1 c Hc) in H. destruct H as [_ H].
    apply (A t2 c Hc). split; [exact Ht2 | now rewrite <- Hl].
Qed.

#[local] Transparent cleanToken.

Lemma allChars_always (q : ascii -> bool) (s : string) :
  (forall c, q c = true) -> allChars q s = true.
Proof.
  intros H. induction s as [| c s IH]; cbn [allChars]; [reflexivity |].
  now rewrite H, IH.
Qed.

Lemma lowerChar_notDot (c : ascii) : notDot c = true -> notDot (Js.lowerChar c) = true.
Proof.
  destruct c as [[] [] [] [] [] [] [] []]; vm_compute; intros H;
    first [reflexivity | discriminate H].
Qed.

Lemma toLowerCase_notDot (s : string) :
  allChars notDot s = true -> allChars notDot (Js.toLowerCase s) = true.
Proof.
  induction s as [| c s IH]; simpl; [reflexivity |].
  intros H. apply andb_prop in H. destruct H as [Hc Hs].
  now rewrite (lowerChar_notDot c Hc), IH.
Qed.

Lemma cleanToken_notDot (token : string) : allChars notDot (cleanToken token) = true.
Proof.
  unfold cleanToken. apply allChars_trim.
  apply (replaceAll_allChars Js.isWhiteSpace notDot reSpaces " ");
    [reflexivity | apply triggered_run | reflexivity |].
  apply (allChars_weaken notDot); [intros c Hc; rewrite Hc; apply orb_true_r |].
  apply (replaceAll_allChars (Ascii.eqb ".") notDot reDots "");
    [reflexivity | apply triggered_run | reflexivity |].
  apply allChars_always. intros c. unfold notDot. rewrite (Ascii.eqb_sym "." c).
  destruct (Ascii.eqb c "."); reflexivity.
Qed.

(** X3.  The key looked up in the synonym table never holds a period, so
    the table's entries "u.s.a." and "u.s." are never the entry found. *)
Theorem synonym_key_has_no_period (token : string) :
  allChars notDot (Js.toLowerCase (cleanToken token)) = true
  /\ Js.toLowerCase (cleanToken token) <> "u.s.a."
  /\ Js.toLowerCase (cleanToken token) <> "u.s."
  /\ (forall k, allChars notDot k = false -> Js.toLowerCase (cleanToken token) <> k).
Proof.
  pose proof (toLowerCase_notDot _ (cleanToken_notDot token)) as H.
  assert (G : forall k, allChars notDot k = false ->
                        Js.toLowerCase (cleanToken token) <> k).
  { intros k Hk E. rewrite E in H. congruence. }
  split; [exact H |]. split; [apply G; reflexivity |]. split; [apply G; reflexivity | exact G].
Qed.

(** X4.  Every token of a group is non-empty, holds none of the
    separators slash, comma and ampersand, and has no white space at
    either end. *)
Theorem tokens_are_clean (segment token : string) :
  In token (tokenizeRegionSegment segment) ->
  token <> "" /\ allChars notSeparator token = true /\ Js.trim token = token.
Proof.
  unfold tokenizeRegionSegment. rewrite filter_In, in_map_iff.
  intros [[piece [Ht Hin]] Htruthy].
  split; [now apply truthy_nonempty |]. split.
  - subst token. apply allChars_trim.
    apply in_flat_map in Hin. destruct Hin as [part [Hpart Hpiece]].
    apply in_map_iff in Hpart. destruct Hpart as [raw [Hraw Hsplit]].
    assert (Hp : allChars notSeparator part = true).
    { subst part. apply allChars_trim.
      pose proof (split_clear
                    (fun c => Ascii.eqb c "/" || Ascii.eqb c "," || Ascii.eqb c "&")
                    reSeparators eq_refl (triggered_class _) segment) as F.
      rewrite Forall_forall in F. exact (F raw Hsplit). }
    pose proof (split_allChars notSeparator reWideGap eq_refl part Hp) as F.
    rewrite Forall_forall in F. exact (F piece Hpiece).
  - subst token. apply trim_idempotent.
Qed.

Lemma tokens_are_clean_witness :
  In "hong kong" (tokenizeRegionSegment " USA ,Europe / Japan  Asia & hong kong ")
  /\ "hong kong" <> "" /\ allChars notSeparator "hong kong" = true
  /\ Js.trim "hong kong" = "hong kong".
Proof.
  assert (H : In "hong kong" (tokenizeRegionSegment " USA ,Europe / Japan  Asia & hong kong "))
    by (vm_compute; tauto).
  split; [exact H |].
  exact (tokens_are_clean " USA ,Europe / Japan  Asia & hong kong " "hong kong" H).
Defined.

Lemma sanitizeFilename_chars (input : string) :
  allChars legalInFilename (sanitizeFilename input) = true.
Proof.
  unfold sanitizeFilename. apply allChars_trim.
  apply (replaceAll_allChars Js.isWhiteSpace legalInFilename reSpaces " ");
    [reflexivity | apply triggered_run | reflexivity |].
  apply (allChars_weaken legalInFilename); [intros c Hc; rewrite Hc; apply orb_true_r |].
  apply (replaceAll_allChars illegalInFilename legalInFilename [Cls illegalInFilename] " ");
    [reflexivity | apply triggered_class | reflexivity |].
  apply allChars_always. intros c. unfold legalInFilename.
  destruct (illegalInFilename c); reflexivity.
Qed.

(** X5.  A sanitized file name holds none of the nine characters that
    are illegal in file names and has no white space at either end. *)
Theorem sanitizeFilename_is_legal (input : string) :
  allChars legalInFilename (sanitizeFilename input) = true
  /\ Js.trim (sanitizeFilename input) = sanitizeFilename input.
Proof.
  split; [apply sanitizeFilename_chars | apply trim_idempotent].
Qed.

End NormalizationFacts.

(* ================================================================== *)
(** ** More on the filter *)
(* ================================================================== *)

Section FilterFacts.

#[local] Opaque normalizeRegionToken CANONICAL_REGIONS.

Lemma keptGames_as_filter (doc : ParsedDat.t) (sel : list string) :
  exists keep, keptGames doc sel = filter keep (ParsedDat.games doc).
Proof.
  destruct (canonicalSelections sel) as [| x xs] eqn:E.
  - exists (fun _ => true). rewrite keptGames_inactive by assumption.
    symmetry. now apply filter_all.
  - exists (keeps (canonicalSelections sel)). apply keptGames_active. congruence.
Qed.

(** X6.  The summary of a successful filter counts the entries of the
    document and of the result; at least one entry is kept, no more than
    the document has, and removed plus kept is the initial count. *)
Theorem summary_counts_add_up (doc : ParsedDat.t) (sel : list string)
    (base : option string) (now : string) (res : FilteredDatResult.t) :
  filterDatByRegions doc sel base now = Ok res ->
  let summary := FilteredDatResult.summary res in
  FilterSummary.initialGames summary = List.length (ParsedDat.games doc)
  /\ FilterSummary.filteredGames summary = List.length (FilteredDatResult.games res)
  /\ 1 <= FilterSummary.filteredGames summary <= FilterSummary.initialGames summary
  /\ FilterSummary.removedGames summary + FilterSummary.filteredGames summary
     = FilterSummary.initialGames summary.
Proof.
  rewrite filter_unfold. destruct (keptGames_as_filter doc sel) as [keep K].
  destruct (keptGames doc sel) as [| g gs] eqn:E; [intros H; discriminate H |].
  intros H. injection H as <-. cbn -[Nat.sub].
  pose proof (filter_length_le keep (ParsedDat.games doc)) as L.
  rewrite <- K in L. cbn [List.length] in L.
  repeat split; try lia.
Qed.

Lemma summary_counts_add_up_witness :
  exists res,
    filterDatByRegions sampleDoc ["Japan"] None sampleNow = Ok res
    /\ FilterSummary.initialGames (FilteredDatResult.summary res) = 4
    /\ FilterSummary.removedGames (FilteredDatResult.summary res)
       + FilterSummary.filteredGames (FilteredDatResult.summary res)
       = FilterSummary.initialGames (FilteredDatResult.summary res).
Proof.
  eexists. split; [vm_compute; reflexivity |].
  split; [vm_compute; reflexivity |].
  apply (summary_counts_add_up sampleDoc ["Japan"] None sampleNow).
  vm_compute. reflexivity.
Defined.

Lemma canonicalSelections_member (sel : list string) (r : string) :
  In r (canonicalSelections sel) ->
  Js.truthy r = true
  /\ match normalizeRegionToken r with Some c => c | None => r end = r.
Proof.
  intros H. split; [now apply (canonicalSelections_truthy sel) |].
  apply In_canonicalSelections in H. destruct H as [[v [_ Hv]] | [_ [Hn _]]].
  - rewrite (canonical_fixed r); [reflexivity |].
    eapply normalizeRegionToken_canonical, Hv.
  - now rewrite Hn.
Qed.

Lemma canonicalSelections_idempotent (sel : list string) :
  canonicalSelections (canonicalSelections sel) = canonicalSelections sel.
Proof.
  assert (E : forall l, (forall r, In r l -> In r (canonicalSelections sel)) ->
            filter Js.truthy
              (map (fun value => match normalizeRegionToken value with
                                 | Some canonical => canonical
                                 | None => value
                                 end) l) = l).
  { induction l as [| x l IH]; intros Hl; [reflexivity |]. cbn [map filter].
    destruct (canonicalSelections_member sel x (Hl x (or_introl eq_refl))) as [T F].
    rewrite F, T. f_equal. apply IH. intros r Hr. apply Hl. now right. }
  unfold canonicalSelections at 1. rewrite E by auto.
  apply setOf_NoDup, canonicalSelections_NoDup.
Qed.

Lemma filter_by_selection (doc : ParsedDat.t) (s1 s2 : list string)
    (base : option string) (now : string) :
  canonicalSelections s1 = canonicalSelections s2 ->
  filterDatByRegions doc s1 base now = filterDatByRegions doc s2 base now.
Proof.
  intros E. rewrite !filter_unfold.
  assert (K : keptGames doc s1 = keptGames doc s2) by (unfold keptGames; now rewrite E).
  now rewrite K, E.
Qed.

(** X7.  Filtering again with the selected regions a result reports
    gives the same result: the canonicalized selection is a fixed point
    of canonicalization. *)
Theorem refilter_with_reported_selection (doc : ParsedDat.t) (sel : list string)
    (base : option string) (now : string) :
  canonicalSelections (canonicalSelections sel) = canonicalSelections sel
  /\ filterDatByRegions doc (canonicalSelections sel) base now
     = filterDatByRegions doc sel base now
  /\ (forall res,
        filterDatByRegions doc sel base now = Ok res ->
        filterDatByRegions doc
          (FilterSummary.selectedRegions (FilteredDatResult.summary res)) base now
        = Ok res).
Proof.
  split; [apply canonicalSelections_idempotent |].
  split; [apply filter_by_selection, canonicalSelections_idempotent |].
  intros res H. pose proof (filter_Ok_inv doc sel base now res H) as [_ [_ [Hs _]]].
  rewrite Hs, <- H. apply filter_by_selection, canonicalSelections_idempotent.
Qed.

Lemma keeps_ext (s1 s2 : list string) (g : DatGame.t) :
  (forall r, In r s1 <-> In r s2) -> keeps s1 g = keeps s2 g.
Proof.
  intros H. unfold keeps.
  induction (DatGame.regions g) as [| r rs IH]; [reflexivity |]. cbn [existsb].
  rewrite IH. f_equal.
  destruct (Js.has r s1) eqn:E1, (Js.has r s2) eqn:E2; try reflexivity.
  - apply has_In in E1. apply H, has_In in E1. congruence.
  - apply has_In in E2. apply H, has_In in E2. congruence.
Qed.

Lemma nil_iff_no_member (l : list string) : l = [] <-> forall r, ~ In r l.
Proof.
  split; [intros -> r [] |]. destruct l as [| x l]; [reflexivity |].
  intros H. destruct (H x (or_introl eq_refl)).
Qed.

(** X8.  Which entries are kept depends on the set of selected strings
    only, not on their order or on repetitions. *)
Theorem kept_entries_ignore_selection_order (doc : ParsedDat.t) (s1 s2 : list string)
    (base : option string) (now : string) :
  (forall v, In v s1 <-> In v s2) ->
  keptGames doc s1 = keptGames doc s2
  /\ filteredCount (filterDatByRegions doc s1 base now)
     = filteredCount (filterDatByRegions doc s2 base now).
Proof.
  intros H.
  assert (M : forall r, In r (canonicalSelections s1) <-> In r (canonicalSelections s2)).
  { intros r. rewrite !In_canonicalSelections. split.
    - intros [[v [Hv Hn]] | [Hr Hn]]; [left; exists v; split; [now apply H | exact Hn] |].
      right. split; [now apply H | exact Hn].
    - intros [[v [Hv Hn]] | [Hr Hn]]; [left; exists v; split; [now apply H | exact Hn] |].
      right. split; [now apply H | exact Hn]. }
  assert (K : keptGames doc s1 = keptGames doc s2).
  { destruct (canonicalSelections s1) as [| x xs] eqn:E1.
    - assert (E2 : canonicalSelections s2 = []).
      { apply nil_iff_no_member. intros r Hr. apply M in Hr. destruct Hr. }
      now rewrite !keptGames_inactive.
    - assert (A1 : canonicalSelections s1 <> []) by congruence.
      assert (A2 : canonicalSelections s2 <> []).
      { intros E2. assert (Hx : In x (x :: xs)) by now left.
        apply M in Hx. rewrite E2 in Hx. destruct Hx. }
      rewrite !keptGames_active by assumption.
      apply filter_ext. intros g. apply keeps_ext. now rewrite E1. }
  split; [exact K |]. now rewrite !filteredCount_kept, K.
Qed.

Lemma kept_entries_ignore_selection_order_witness :
  keptGames sampleDoc ["Japan"; "usa"; "Japan"] = keptGames sampleDoc ["usa"; "Japan"]
  /\ filteredCount (filterDatByRegions sampleDoc ["Japan"; "usa"; "Japan"] None sampleNow)
     = filteredCount (filterDatByRegions sampleDoc ["usa"; "Japan"] None sampleNow).
Proof.
  apply (kept_entries_ignore_selection_order sampleDoc
           ["Japan"; "usa"; "Japan"] ["usa"; "Japan"] None sampleNow).
  intros v. simpl. tauto.
Defined.

Lemma filter_length_monotone {A} (f g : A -> bool) (l : list A) :
  (forall x, f x = true -> g x = true) ->
  List.length (filter f l) <= List.length (filter g l).
Proof.
  intros H. induction l as [| a l IH]; simpl; [lia |].
  destruct (f a) eqn:Ef.
  - rewrite (H a Ef). simpl. lia.
  - destruct (g a); simpl; lia.
Qed.

(** X9.  Adding strings to a selection that is already active removes no
    entry: every entry kept before is kept after, the count does not
    drop, and a filter that succeeded still succeeds. *)
Theorem widening_an_active_selection_keeps_entries (doc : ParsedDat.t)
    (sel more : list string) (base : option string) (now : string) :
  canonicalSelections sel <> [] ->
  (forall g, In g (keptGames doc sel) -> In g (keptGames doc (sel ++ more)))
  /\ List.length (keptGames doc sel) <= List.length (keptGames doc (sel ++ more))
  /\ (forall res, filterDatByRegions doc sel base now = Ok res ->
                  exists res', filterDatByRegions doc (sel ++ more) base now = Ok res').
Proof.
  intros A.
  assert (M : forall r, In r (canonicalSelections sel) ->
                        In r (canonicalSelections (sel ++ more))).
  { intros r. rewrite !In_canonicalSelections.
    intros [[v [Hv Hn]] | [Hr Hn]].
    - left. exists v. split; [apply in_or_app; now left | exact Hn].
    - right. split; [apply in_or_app; now left | exact Hn]. }
  assert (A' : canonicalSelections (sel ++ more) <> []).
  { destruct (canonicalSelections sel) as [| x xs] eqn:E; [congruence |].
    intros E'. specialize (M x (or_introl eq_refl)). rewrite E' in M. destruct M. }
  assert (I : forall g, keeps (canonicalSelections sel) g = true ->
                        keeps (canonicalSelections (sel ++ more)) g = true).
  { intros g Hg. apply keeps_shares in Hg. destruct Hg as [r [Hr Hs]].
    apply keeps_shares. exists r. auto. }
  rewrite !keptGames_active by assumption.
  split.
  { intros g Hg. apply filter_In in Hg. apply filter_In. destruct Hg; auto. }
  split; [now apply filter_length_monotone |].
  intros res H. apply filter_Ok_inv in H. destruct H as [Hne _].
  apply filter_Ok_exists. rewrite keptGames_active in * by assumption.
  destruct (filter (keeps (canonicalSelections sel)) (ParsedDat.games doc))
    as [| g gs] eqn:E; [congruence |].
  assert (Hg : In g (filter (keeps (canonicalSelections sel)) (ParsedDat.games doc)))
    by (rewrite E; now left).
  apply filter_In in Hg. destruct Hg as [Hin Hk].
  intros E'.
  assert (Hg' : In g (filter (keeps (canonicalSelections (sel ++ more)))
                        (ParsedDat.games doc))) by (apply filter_In; auto).
  rewrite E' in Hg'. destruct Hg'.
Qed.

Lemma widening_an_active_selection_keeps_entries_witness :
  canonicalSelections ["Japan"] <> []
  /\ List.length (keptGames sampleDoc ["Japan"])
     <= List.length (keptGames sampleDoc (["Japan"] ++ ["Europe"; "Mars"])).
Proof.
  split; [vm_compute; discriminate |].
  apply (widening_an_active_selection_keeps_entries sampleDoc ["Japan"]
           ["Europe"; "Mars"] None sampleNow).
  vm_compute. discriminate.
Defined.

(** X10.  A successful filter leaves version, date, author, homepage,
    url and the unrecognized header fields as they were, always sets a
    description, and only appends to the name. *)
Theorem filter_preserves_header_metadata (doc : ParsedDat.t) (sel : list string)
    (base : option string) (now : string) (res : FilteredDatResult.t) :
  filterDatByRegions doc sel base now = Ok res ->
  let original := ParsedDat.header doc in
  let rebuilt := FilteredDatResult.header res in
  DatHeader.version rebuilt = DatHeader.version original
  /\ DatHeader.date rebuilt = DatHeader.date original
  /\ DatHeader.author rebuilt = DatHeader.author original
  /\ DatHeader.homepage rebuilt = DatHeader.homepage original
  /\ DatHeader.url rebuilt = DatHeader.url original
  /\ DatHeader.extra rebuilt = DatHeader.extra original
  /\ DatHeader.description rebuilt <> None
  /\ exists suffix, DatHeader.name rebuilt = (DatHeader.name original ++ suffix)%string.
Proof.
  intros H. apply filter_Ok_inv in H. destruct H as [_ [_ [_ [_ [_ Hh]]]]].
  cbv zeta. rewrite Hh. unfold buildFilteredHeader.
  cbn [DatHeader.version DatHeader.date DatHeader.author DatHeader.homepage
       DatHeader.url DatHeader.extra DatHeader.description DatHeader.name].
  repeat (split; [reflexivity |]).
  split; [discriminate |].
  destruct (Js.truthy (createRegionLabel (canonicalSelections sel))).
  - eexists. reflexivity.
  - exists "". now rewrite append_nil_r.
Qed.

Lemma filter_preserves_header_metadata_witness :
  exists res,
    filterDatByRegions taggedDoc ["Japan"] None sampleNow = Ok res
    /\ DatHeader.date (FilteredDatResult.header res) = Some "2024-05-01"
    /\ DatHeader.version (FilteredDatResult.header res)
       = DatHeader.version (ParsedDat.header taggedDoc).
Proof.
  eexists. split; [vm_compute; reflexivity |].
  split; [vm_compute; reflexivity |].
  apply (filter_preserves_header_metadata taggedDoc ["Japan"] None sampleNow).
  vm_compute. reflexivity.
Defined.

End FilterFacts.

(* ================================================================== *)
(** ** The renderer's selection *)
(* ================================================================== *)

Section RendererFacts.

#[local] Opaque normalizeRegionToken CANONICAL_REGIONS.

Lemma pickDefaultRegions_spec (regions : list string) (r : string) :
  In r (pickDefaultRegions regions) <-> In r preferredDefaultRegions /\ In r regions.
Proof.
  unfold pickDefaultRegions.
  assert (E : match filter (fun region => Js.has region regions) preferredDefaultRegions with
              | [] => []
              | _ :: _ => filter (fun region => Js.has region regions) preferredDefaultRegions
              end = filter (fun region => Js.has region regions) preferredDefaultRegions)
    by (destruct (filter _ _); reflexivity).
  cbv zeta. rewrite E, filter_In, has_In. tauto.
Qed.

(** X11.  The selection the renderer makes when a document is loaded
    (those of "USA" and "World" that the document offers) never fails
    with NoMatches on a document that has entries. *)
Theorem default_selection_always_matches
    (localeCompare : string -> string -> Z) (parsed : RawValue) (doc : ParsedDat.t)
    (base : option string) (now : string) :
  parseDat localeCompare parsed = Ok doc ->
  ParsedDat.games doc <> [] ->
  exists res,
    filterDatByRegions doc (pickDefaultRegions (ParsedDat.availableRegions doc)) base now
    = Ok res.
Proof.
  intros Hp Hg. apply filter_Ok_exists.
  set (defaults := pickDefaultRegions (ParsedDat.availableRegions doc)).
  destruct (canonicalSelections defaults) as [| x xs] eqn:E.
  - now rewrite keptGames_inactive.
  - assert (Hx : In x (canonicalSelections defaults)) by (rewrite E; now left).
    assert (A : canonicalSelections defaults <> []) by congruence.
    apply In_canonicalSelections in Hx.
    assert (D : exists d, In d defaults /\ In d (canonicalSelections defaults)).
    { destruct Hx as [[v [Hv Hn]] | [Hr _]].
      - exists v. split; [exact Hv |]. apply In_canonicalSelections. left. exists v.
        split; [exact Hv |]. apply pickDefaultRegions_spec in Hv. destruct Hv as [Hv _].
        destruct Hv as [<- | [<- | []]]; vm_compute; reflexivity.
      - exists x. split; [exact Hr |]. rewrite E. now left. }
    destruct D as [d [Hd Hsel]].
    apply pickDefaultRegions_spec in Hd. destruct Hd as [Hpref Hav].
    apply (In_availableRegions localeCompare parsed doc d Hp) in Hav.
    destruct Hav as [[g [Hin Hr]] | [Hu _]].
    + rewrite keptGames_active by assumption. intros K.
      assert (Hk : In g (filter (keeps (canonicalSelections defaults)) (ParsedDat.games doc))).
      { apply filter_In. split; [exact Hin |]. apply keeps_shares. exists d. auto. }
      rewrite K in Hk. destruct Hk.
    + destruct Hpref as [<- | [<- | []]]; discriminate Hu.
Qed.

Lemma default_selection_always_matches_witness :
  pickDefaultRegions (ParsedDat.availableRegions sampleDoc) = ["USA"]
  /\ exists res,
       filterDatByRegions sampleDoc
         (pickDefaultRegions (ParsedDat.availableRegions sampleDoc)) None sampleNow
       = Ok res.
Proof.
  split; [vm_compute; reflexivity |].
  apply (default_selection_always_matches codeUnitCompare sampleDat sampleDoc None sampleNow).
  - vm_compute. reflexivity.
  - vm_compute. discriminate.
Defined.

Lemma filter_differs_id (r : string) (l : list string) :
  ~ In r l -> filter (fun value => negb (String.eqb value r)) l = l.
Proof.
  intros H. apply filter_all. intros x Hx.
  destruct (String.eqb x r) eqn:E; [| reflexivity].
  apply String.eqb_eq in E. subst x. contradiction.
Qed.

(** X12.  Toggling a region in the renderer's selection flips its
    membership and leaves the other members; it keeps the selection free
    of repetitions; and toggling twice a region that was not selected
    restores the selection. *)
Theorem toggleRegion_flips_membership (current : list string) (region : string) :
  (forall x, In x (toggleRegion current region) <->
             (x <> region /\ In x current) \/ (x = region /\ ~ In region current))
  /\ (NoDup current -> NoDup (toggleRegion current region))
  /\ (~ In region current ->
      toggleRegion (toggleRegion current region) region = current).
Proof.
  unfold toggleRegion at 1 2. split; [| split].
  - intros x. destruct (Js.has region current) eqn:E.
    + apply has_In in E. rewrite filter_In. split.
      * intros [Hx Hn]. left. split; [| exact Hx]. intros ->.
        rewrite String.eqb_refl in Hn. discriminate Hn.
      * intros [[Hn Hx] | [_ Hn]]; [| contradiction]. split; [exact Hx |].
        apply String.eqb_neq in Hn. now rewrite Hn.
    + apply has_false in E. rewrite in_app_iff. simpl. split.
      * intros [Hx | [<- | []]]; [| now right]. left. split; [| exact Hx].
        intros ->. contradiction.
      * intros [[_ Hx] | [-> _]]; auto.
  - intros Hn. destruct (Js.has region current) eqn:E.
    + now apply NoDup_filter.
    + apply has_false in E. apply NoDup_app; [exact Hn | repeat constructor; intros [] |].
      intros a Ha [<- | []]. contradiction.
  - intros Hn. unfold toggleRegion.
    rewrite (proj2 (has_false region current) Hn).
    assert (Hin : Js.has region (current ++ [region]) = true).
    { apply has_In, in_or_app. right. now left. }
    rewrite Hin, filter_app, (filter_differs_id region current Hn).
    simpl. rewrite String.eqb_refl. simpl. apply app_nil_r.
Qed.

End RendererFacts.

(* ================================================================== *)
(** ** More on the parsed document *)
(* ================================================================== *)

Section DocumentFacts.

Variable localeCompare : string -> string -> Z.

Lemma normalizeGame_raw (raw : RawValue) (g : DatGame.t) :
  normalizeGame raw = Ok g -> DatGame.raw g = raw.
Proof.
  unfold normalizeGame.
  destruct raw; intros H; try discriminate H; injection H as <-; reflexivity.
Qed.

Lemma mapM_raw (raws : list RawValue) (games : list DatGame.t) :
  mapM normalizeGame raws = Ok games -> map DatGame.raw games = raws.
Proof.
  revert games. induction raws as [| raw raws IH]; intros games; cbn [mapM].
  - intros H. injection H as <-. reflexivity.
  - destruct (normalizeGame raw) as [g | e] eqn:E; cbn [bind]; [| intros H; discriminate H].
    destruct (mapM normalizeGame raws) as [gs | e]; cbn [bind]; [| intros H; discriminate H].
    intros H. injection H as <-. cbn [map].
    now rewrite (normalizeGame_raw raw g E), (IH gs eq_refl).
Qed.

(** X13.  The entries of a parsed document are the game elements of the
    tree, in their order and each with its original sub-tree; a single
    game element (not an array) gives one entry, and none gives an empty
    list. *)
Theorem entries_follow_the_source (parsed : RawValue) (doc : ParsedDat.t) :
  parseDat localeCompare parsed = Ok doc ->
  let rawGame := getProp (getProp parsed "datafile") "game" in
  map DatGame.raw (ParsedDat.games doc) = toArray (gamesOrEmpty rawGame)
  /\ (forall items, rawGame = RArray items ->
                    List.length (ParsedDat.games doc) = List.length items)
  /\ (forall fields, rawGame = RObject fields -> List.length (ParsedDat.games doc) = 1)
  /\ (rawGame = RUndefined -> ParsedDat.games doc = []).
Proof.
  intros H rawGame. apply parseDat_Ok_inv in H. destruct H as [_ [_ [Hm _]]].
  apply mapM_raw in Hm. fold rawGame in Hm.
  split; [exact Hm |].
  assert (L : List.length (ParsedDat.games doc)
              = List.length (toArray (gamesOrEmpty rawGame)))
    by (rewrite <- Hm; now rewrite length_map).
  split; [intros items E; now rewrite L, E |].
  split; [intros fields E; now rewrite L, E |].
  intros E. rewrite E in L. destruct (ParsedDat.games doc); [reflexivity | discriminate L].
Qed.

#[local] Opaque extractRegions.

Lemma extractRegions_NoDup (input : option string) (found : list string) :
  extractRegions input = Some found -> NoDup found.
Proof.
  destruct input as [s |]; [| intros H; discriminate H].
  rewrite extractRegions_groups, firstRecognized_Some.
  intros [b [i [a [_ [_ [_ ->]]]]]]. apply NoDup_setOf.
Qed.

Lemma normalizeGame_NoDup (raw : RawValue) (g : DatGame.t) :
  normalizeGame raw = Ok g -> NoDup (DatGame.regions g).
Proof.
  intros H. rewrite (normalizeGame_regions raw g H). unfold detected, orElse.
  destruct (extractRegions (Some (DatGame.name g))) eqn:E1;
    [eapply extractRegions_NoDup; eassumption |].
  destruct (extractRegions (Some (DatGame.description g))) eqn:E2;
    [eapply extractRegions_NoDup; eassumption |].
  destruct (DatGame.roms g) as [| first rest]; [constructor |].
  destruct (extractRegions (lookup (DatRom.attributes first) "name")) eqn:E3;
    [eapply extractRegions_NoDup; eassumption | constructor].
Qed.

(** X14.  The region list of every entry of a parsed document has no
    repetition and holds canonical labels only. *)
Theorem entry_regions_are_distinct_canonical (parsed : RawValue) (doc : ParsedDat.t)
    (g : DatGame.t) :
  parseDat localeCompare parsed = Ok doc ->
  In g (ParsedDat.games doc) ->
  NoDup (DatGame.regions g)
  /\ (forall r, In r (DatGame.regions g) -> In r CANONICAL_REGIONS).
Proof.
  intros H Hg. split.
  - apply parseDat_Ok_inv in H. destruct H as [_ [_ [Hm _]]].
    destruct (mapM_Ok_In _ _ _ _ Hm Hg) as [raw [_ Hraw]].
    eapply normalizeGame_NoDup, Hraw.
  - intros r Hr. eapply parsed_regions_canonical; eassumption.
Qed.

(** X15.  A parsed document offers no region exactly when it has no
    entry. *)
Theorem no_region_offered_iff_no_entry (parsed : RawValue) (doc : ParsedDat.t) :
  parseDat localeCompare parsed = Ok doc ->
  (ParsedDat.availableRegions doc = [] <-> ParsedDat.games doc = []).
Proof.
  intros H. pose proof (In_availableRegions localeCompare parsed doc) as M. split.
  - intros E. destruct (ParsedDat.games doc) as [| g gs] eqn:G; [reflexivity |]. exfalso.
    destruct (DatGame.regions g) as [| r rs] eqn:R.
    + assert (Hin : In DEFAULT_REGION (ParsedDat.availableRegions doc)).
      { apply (M DEFAULT_REGION H). right. split; [reflexivity |].
        exists g. split; [now left | exact R]. }
      rewrite E in Hin. destruct Hin.
    + assert (Hin : In r (ParsedDat.availableRegions doc)).
      { apply (M r H). left. exists g. split; [now left | rewrite R; now left]. }
      rewrite E in Hin. destruct Hin.
  - intros E. destruct (ParsedDat.availableRegions doc) as [| r rs] eqn:A; [reflexivity |].
    exfalso. assert (Hin : In r (r :: rs)) by now left.
    apply (M r H) in Hin. rewrite E in Hin.
    destruct Hin as [[g [[] _]] | [_ [g [[] _]]]].
Qed.

End DocumentFacts.

Lemma entries_follow_the_source_witness :
  map DatGame.raw (ParsedDat.games unknownTaggedDoc)
  = [RObject [("@_name", RString "Mystery (Unknown)")]]
  /\ map DatGame.raw (ParsedDat.games unknownTaggedDoc)
     = toArray (gamesOrEmpty (getProp (getProp unknownTaggedDat "datafile") "game")).
Proof.
  split; [vm_compute; reflexivity |].
  apply (entries_follow_the_source codeUnitCompare unknownTaggedDat unknownTaggedDoc).
  vm_compute. reflexivity.
Defined.

Lemma entry_regions_are_distinct_canonical_witness :
  exists g,
    In g (ParsedDat.games sampleDoc)
    /\ DatGame.regions g = ["Japan"; "USA"]
    /\ NoDup (DatGame.regions g)
    /\ (forall r, In r (DatGame.regions g) -> In r CANONICAL_REGIONS).
Proof.
  destruct (rev (ParsedDat.games sampleDoc)) as [| g rest] eqn:E; [discriminate E |].
  assert (Hin : In g (ParsedDat.games sampleDoc)).
  { apply in_rev. rewrite E. now left. }
  exists g. split; [exact Hin |].
  split; [vm_compute in E; injection E as <- _; reflexivity |].
  apply (entry_regions_are_distinct_canonical codeUnitCompare sampleDat sampleDoc g);
    [vm_compute; reflexivity | exact Hin].
Defined.

Lemma no_region_offered_iff_no_entry_witness :
  ParsedDat.games sampleDoc <> []
  /\ (ParsedDat.availableRegions sampleDoc = [] <-> ParsedDat.games sampleDoc = []).
Proof.
  split; [vm_compute; discriminate |].
  apply (no_region_offered_iff_no_entry codeUnitCompare sampleDat sampleDoc).
  vm_compute. reflexivity.
Defined.

(* ================================================================== *)
(** ** Descriptors and file names *)
(* ================================================================== *)

Section NamingFacts.

Lemma normalizeDescriptorLabel_cases (label : string) :
  normalizeDescriptorLabel label = "Datfile" \/ normalizeDescriptorLabel label = label.
Proof.
  unfold normalizeDescriptorLabel.
  destruct (test reDatfile label); [now left |].
  destruct (test reDisc label); [now left | now right].
Qed.

Lemma normalizeDescriptorLabel_Datfile : normalizeDescriptorLabel "Datfile" = "Datfile".
Proof. vm_compute. reflexivity. Qed.

Lemma normalizeDescriptorLabel_idempotent (label : string) :
  normalizeDescriptorLabel (normalizeDescriptorLabel label) = normalizeDescriptorLabel label.
Proof.
  remember (normalizeDescriptorLabel label) as n eqn:Hn.
  unfold normalizeDescriptorLabel in Hn.
  destruct (test reDatfile label) eqn:E1; [subst n; apply normalizeDescriptorLabel_Datfile |].
  destruct (test reDisc label) eqn:E2; [subst n; apply normalizeDescriptorLabel_Datfile |].
  subst n. unfold normalizeDescriptorLabel. now rewrite E1, E2.
Qed.

Lemma deriveDescriptors_normalized (header : DatHeader.t) (totalGames : nat) :
  snd (deriveDescriptors header totalGames)
  = normalizeDescriptorLabel (fst (deriveDescriptors header totalGames)).
Proof.
  unfold deriveDescriptors. cbv zeta.
  destruct (orElse _ _) as [g |]; cbn [fst snd]; [reflexivity |].
  now rewrite normalizeDescriptorLabel_idempotent.
Qed.

Lemma normalizeDescriptorLabel_empty (label : string) :
  normalizeDescriptorLabel label = "" -> label = "".
Proof.
  destruct (normalizeDescriptorLabel_cases label) as [E | E]; rewrite E;
    [intros H; discriminate H | auto].
Qed.

#[local] Opaque normalizeDescriptorLabel deriveDescriptors.

(** X16.  The normalized descriptor of a parsed document is the
    normalization of its descriptor, and normalizing twice changes
    nothing.  The descriptors a filter of such a document reports are
    never empty, and the normalized one is again the normalization of
    the other. *)
Theorem descriptors_stay_consistent
    (localeCompare : string -> string -> Z) (parsed : RawValue) (doc : ParsedDat.t) :
  parseDat localeCompare parsed = Ok doc ->
  ParsedDat.normalizedDescriptor doc = normalizeDescriptorLabel (ParsedDat.descriptor doc)
  /\ (forall label, normalizeDescriptorLabel (normalizeDescriptorLabel label)
                    = normalizeDescriptorLabel label)
  /\ (forall sel base now res,
        filterDatByRegions doc sel base now = Ok res ->
        let summary := FilteredDatResult.summary res in
        FilterSummary.descriptor summary <> ""
        /\ FilterSummary.normalizedDescriptor summary <> ""
        /\ FilterSummary.normalizedDescriptor summary
           = normalizeDescriptorLabel (FilterSummary.descriptor summary)).
Proof.
  intros H. apply parseDat_Ok_inv in H. destruct H as [_ [_ [_ [_ [_ Hd]]]]].
  pose proof (deriveDescriptors_normalized (ParsedDat.header doc)
                (List.length (ParsedDat.games doc))) as N.
  rewrite <- Hd in N. cbn [fst snd] in N.
  split; [exact N |]. split; [apply normalizeDescriptorLabel_idempotent |].
  intros sel base now res. rewrite filter_unfold.
  destruct (keptGames doc sel); [intros F; discriminate F |].
  intros F. injection F as <-.
  cbn [FilteredDatResult.summary FilterSummary.descriptor FilterSummary.normalizedDescriptor].
  rewrite N.
  destruct (ParsedDat.descriptor doc) as [| c d] eqn:D; cbn [Js.truthy].
  - replace (normalizeDescriptorLabel "") with "" by (vm_compute; reflexivity).
    cbn [Js.truthy]. rewrite normalizeDescriptorLabel_Datfile.
    repeat split; discriminate.
  - destruct (normalizeDescriptorLabel (String c d)) as [| c' d'] eqn:E.
    + apply normalizeDescriptorLabel_empty in E. discriminate E.
    + cbn [Js.truthy]. repeat split; discriminate.
Qed.

Lemma descriptors_stay_consistent_witness :
  ParsedDat.descriptor sampleDoc = "Datfile"
  /\ ParsedDat.normalizedDescriptor sampleDoc
     = normalizeDescriptorLabel (ParsedDat.descriptor sampleDoc).
Proof.
  split; [vm_compute; reflexivity |].
  apply (descriptors_stay_consistent codeUnitCompare sampleDat sampleDoc).
  vm_compute. reflexivity.
Defined.

#[local] Transparent normalizeDescriptorLabel deriveDescriptors.

Lemma allChars_takeWhile (p : ascii -> bool) (s : string) :
  allChars p (takeWhile p s) = true.
Proof.
  induction s as [| c s IH]; cbn [takeWhile]; [reflexivity |].
  destruct (p c) eqn:E; [| reflexivity]. cbn [allChars]. now rewrite E, IH.
Qed.

(** One match of the extension pattern at the start of a text: the text
    is a period and a non-empty run without period, and is the capture. *)
Lemma reExtension_matchHere (s : string) (g : list string) (rest : string) :
  matchHere reExtension s start = Some (g, rest) ->
  rest = "" /\ g = [s]
  /\ exists run, s = String "." run /\ run <> "" /\ allChars notDot run = true.
Proof.
  unfold reExtension. cbn [matchHere].
  destruct s as [| c0 s1]; [intros H; discriminate H |].
  destruct (Ascii.eqb "." c0) eqn:E0; [| intros H; discriminate H].
  apply Ascii.eqb_eq in E0. subst c0.
  rewrite repeatClass_greedy_run.
  2:{ intros d s st _. reflexivity. }
  assert (T : allChars notDot (takeWhile (fun c => negb (Ascii.eqb c ".")) s1) = true).
  { exact (allChars_takeWhile notDot s1). }
  pose proof (takeWhile_dropWhile (fun c => negb (Ascii.eqb c ".")) s1) as P.
  destruct (takeWhile (fun c => negb (Ascii.eqb c ".")) s1) as [| x run] eqn:Et;
    [intros H; discriminate H |].
  cbn [String.length Nat.add Nat.leb matchHere].
  destruct (dropWhile (fun c => negb (Ascii.eqb c ".")) s1) as [| d more];
    [| intros H; discriminate H].
  rewrite append_nil_r in P.
  change (feed "." (openGroup start)) with {| closed := []; opened := ["."] |}.
  unfold closeGroup. rewrite feedAll_opened_one. cbn [closed]. rewrite feedAll_closed.
  cbn [closed rev app append]. intros H. injection H as <- <-.
  split; [reflexivity |]. split; [now rewrite P |].
  exists s1. rewrite <- P. repeat split; [discriminate | exact T].
Qed.

Lemma exec_reExtension (b : string) (m : found) :
  exec reExtension b = Some m ->
  b = (before m ++ group1 (groups m))%string
  /\ exists run, group1 (groups m) = String "." run
                 /\ run <> "" /\ allChars notDot run = true.
Proof.
  revert m. induction b as [| c b IH]; intros m; cbn [exec].
  - destruct (matchHere reExtension "" start) as [[g rest] |] eqn:E; [| intros H; discriminate H].
    apply reExtension_matchHere in E. destruct E as [_ [_ [run [E _]]]]. discriminate E.
  - destruct (matchHere reExtension (String c b) start) as [[g rest] |] eqn:E.
    + intros H. injection H as <-. apply reExtension_matchHere in E.
      destruct E as [-> [-> R]]. cbn [before groups group1 nth]. split; [reflexivity | exact R].
    + destruct (exec reExtension b) as [m' |]; [| intros H; discriminate H].
      intros H. injection H as <-. destruct (IH m' eq_refl) as [Hb R].
      cbn [before groups]. split; [cbn [append]; now rewrite <- Hb | exact R].
Qed.

Lemma exec_step (r : regex) (c : ascii) (s : string) :
  exec r (String c s)
  = match matchHere r (String c s) start with
    | Some (g, rest) => Some {| before := EmptyString; groups := g; after := rest |}
    | None =>
        match exec r s with
        | Some m => Some {| before := String c (before m);
                            groups := groups m; after := after m |}
        | None => None
        end
    end.
Proof. reflexivity. Qed.

Lemma dropWhile_period (a run : string) :
  dropWhile (fun c => negb (Ascii.eqb c ".")) (a ++ String "." run) <> "".
Proof.
  induction a as [| c a IH]; cbn [append dropWhile].
  - cbn. discriminate.
  - destruct (negb (Ascii.eqb c ".")); [exact IH | discriminate].
Qed.

Lemma takeWhile_all (p : ascii -> bool) (s : string) :
  allChars p s = true -> takeWhile p s = s /\ dropWhile p s = "".
Proof.
  induction s as [| c s IH]; cbn [allChars takeWhile dropWhile]; [auto |].
  intros H. apply andb_prop in H. destruct H as [Hc Hs]. rewrite Hc.
  destruct (IH Hs) as [-> ->]. auto.
Qed.

(** The extension pattern matches at a period that a non-empty run
    without period follows to the end. *)
Lemma reExtension_matchHere_last (run : string) :
  run <> "" -> allChars notDot run = true ->
  matchHere reExtension (String "." run) start = Some ([String "." run], "").
Proof.
  intros Hne Hd. unfold reExtension. cbn [matchHere]. cbn [Ascii.eqb Bool.eqb].
  rewrite repeatClass_greedy_run.
  2:{ intros d s st _. reflexivity. }
  destruct (takeWhile_all notDot run Hd) as [T D].
  change (fun c : ascii => negb (Ascii.eqb c ".")) with notDot.
  rewrite T, D. destruct run as [| x run]; [congruence |].
  cbn [String.length Nat.add Nat.leb matchHere].
  change (feed "." (openGroup start)) with {| closed := []; opened := ["."] |}.
  unfold closeGroup. rewrite feedAll_opened_one. cbn [closed]. rewrite feedAll_closed.
  reflexivity.
Qed.

(** It matches at no character that a later period follows. *)
Lemma reExtension_matchHere_inner (c : ascii) (pre run : string) :
  matchHere reExtension (String c (pre ++ String "." run)) start = None.
Proof.
  unfold reExtension. cbn [matchHere].
  destruct (Ascii.eqb "." c); [| reflexivity].
  rewrite repeatClass_greedy_run.
  2:{ intros d s st _. reflexivity. }
  destruct (Nat.leb 1 _); [| reflexivity].
  pose proof (dropWhile_period pre run) as D.
  destruct (dropWhile (fun c0 => negb (Ascii.eqb c0 ".")) (pre ++ String "." run));
    [congruence | reflexivity].
Qed.

Lemma exec_reExtension_last (pre run : string) :
  run <> "" -> allChars notDot run = true ->
  exec reExtension (pre ++ String "." run)
  = Some {| before := pre; groups := [String "." run]; after := "" |}.
Proof.
  intros Hne Hd. induction pre as [| c pre IH]; cbn [append]; rewrite exec_step.
  - now rewrite (reExtension_matchHere_last run Hne Hd).
  - now rewrite reExtension_matchHere_inner, IH.
Qed.

Lemma exec_reExtension_trailing (pre : string) :
  exec reExtension (pre ++ ".") = None.
Proof.
  induction pre as [| c pre IH]; cbn [append].
  - reflexivity.
  - now rewrite exec_step, reExtension_matchHere_inner, IH.
Qed.

Lemma exec_reExtension_plain (b : string) :
  allChars notDot b = true -> exec reExtension b = None.
Proof.
  intros H. destruct (exec reExtension b) as [m |] eqn:E; [| reflexivity].
  apply exec_reExtension in E. destruct E as [Hb [run [Hg _]]].
  rewrite Hb, Hg, allChars_app in H. apply andb_prop in H. destruct H as [_ H].
  discriminate H.
Qed.

(** X17.  The suggested file name is a sanitized stem followed by an
    extension.  The extension is ".dat" when there is no original file
    name, when that name holds no period, and when it ends with a period;
    otherwise it is the end of the original name from its last period
    on. *)
Theorem suggested_filename_keeps_extension
    (baseFilename headerDescription : option string)
    (decoratedSystem descriptorNormalized : string) (filteredCount : nat)
    (versionLabel : option string) :
  (exists stem,
     deriveFilteredFilename baseFilename headerDescription decoratedSystem
       descriptorNormalized filteredCount versionLabel
     = (sanitizeFilename stem ++ fileExtension baseFilename)%string
     /\ allChars legalInFilename (sanitizeFilename stem) = true)
  /\ fileExtension None = ".dat"
  /\ (forall b, allChars notDot b = true -> fileExtension (Some b) = ".dat")
  /\ (forall pre : string, fileExtension (Some (pre ++ ".")%string) = ".dat")
  /\ (forall pre run : string,
        run <> "" -> allChars notDot run = true ->
        fileExtension (Some (pre ++ String "." run)%string) = String "." run).
Proof.
  split; [| split; [reflexivity | split; [| split]]].
  - assert (L : forall stem, allChars legalInFilename (sanitizeFilename stem) = true)
      by (intros stem; apply sanitizeFilename_chars).
    unfold deriveFilteredFilename, fileExtension. cbv zeta.
    set (ext := match baseFilename with
                | Some b => match exec reExtension b with
                            | Some m => group1 (groups m)
                            | None => ".dat"
                            end
                | None => ".dat"
                end).
    assert (E : match match baseFilename with
                      | Some b => exec reExtension b
                      | None => None
                      end with
                | Some m => group1 (groups m)
                | None => ".dat"
                end = ext).
    { subst ext. destruct baseFilename as [b |]; reflexivity. }
    rewrite E.
    repeat match goal with
           | |- context [match ?x with _ => _ end] =>
               lazymatch x with
               | context [match _ with _ => _ end] => fail
               | _ => destruct x
               end
           | |- context [if ?x then _ else _] => destruct x
           end;
      eexists; (split; [reflexivity | apply L]).
  - intros b H. unfold fileExtension. now rewrite (exec_reExtension_plain b H).
  - intros pre. unfold fileExtension. now rewrite exec_reExtension_trailing.
  - intros pre run Hne Hd. unfold fileExtension.
    now rewrite (exec_reExtension_last pre run Hne Hd).
Qed.

End NamingFacts.

Lemma suggested_filename_keeps_extension_witness :
  deriveFilteredFilename (Some "Microsoft - Xbox - Datfile (4) (v1.2).xml") None
    "Microsoft - Xbox (USA)" "Datfile" 2 (Some "v1.2")
  = "Microsoft - Xbox (USA) - Datfile (2) (v1.2).xml"
  /\ "xml" <> ""
  /\ allChars notDot "xml" = true
  /\ fileExtension (Some ("Microsoft - Xbox - Datfile (4) (v1.2" ++ ".xml")%string) = ".xml".
Proof.
  split; [vm_compute; reflexivity |].
  split; [discriminate |]. split; [reflexivity |].
  apply (suggested_filename_keeps_extension
           (Some "Microsoft - Xbox - Datfile (4) (v1.2).xml") None
           "Microsoft - Xbox (USA)" "Datfile" 2 (Some "v1.2")).
  - discriminate.
  - reflexivity.
Defined.

(* ================================================================== *)
(** ** Objects: assignment and lookup *)
(* ================================================================== *)

Section ObjectFacts.

Context {A : Type}.

Lemma lookup_absent (m : list (string * A)) (k : string) :
  ~ In k (map fst m) -> lookup m k = None.
Proof.
  induction m as [| [k0 x] m IH]; cbn [lookup map fst]; [reflexivity |].
  intros H. rewrite IH by (intros Hin; apply H; now right).
  destruct (String.eqb k k0) eqn:E; [| reflexivity].
  apply String.eqb_eq in E. subst k0. exfalso. apply H. now left.
Qed.

Lemma lookup_present (m : list (string * A)) (k : string) :
  In k (map fst m) -> exists x, lookup m k = Some x.
Proof.
  induction m as [| [k0 x] m IH]; cbn [lookup map fst In]; [intros [] |].
  intros [-> | H].
  - rewrite String.eqb_refl. destruct (lookup m k); eexists; reflexivity.
  - destruct (IH H) as [y ->]. eexists; reflexivity.
Qed.

Lemma hasKey_In (m : list (string * A)) (k : string) :
  hasKey m k = true <-> In k (map fst m).
Proof.
  unfold hasKey. rewrite existsb_exists, in_map_iff. split.
  - intros [e [He E]]. apply String.eqb_eq in E. exists e. auto.
  - intros [e [E He]]. exists e. split; [exact He |]. now apply String.eqb_eq.
Qed.

Lemma keys_replaceValue (m : list (string * A)) (k : string) (v : A) :
  map fst (replaceValue m k v) = map fst m.
Proof.
  unfold replaceValue. rewrite map_map. apply map_ext. intros [k0 x]. cbn [fst].
  destruct (String.eqb k0 k); reflexivity.
Qed.

Lemma keys_insertKey (m : list (string * A)) (k : string) (v : A) (k' : string) :
  In k' (map fst (insertKey m k v)) <-> In k' (map fst m) \/ k' = k.
Proof.
  induction m as [| [k0 x] m IH]; cbn [insertKey map fst In].
  - intuition congruence.
  - destruct (entersBefore k k0); cbn [map fst In].
    + intuition congruence.
    + rewrite IH. tauto.
Qed.

Lemma NoDup_insertKey (m : list (string * A)) (k : string) (v : A) :
  ~ In k (map fst m) -> NoDup (map fst m) -> NoDup (map fst (insertKey m k v)).
Proof.
  induction m as [| [k0 x] m IH]; cbn [insertKey map fst In]; intros Hk H.
  - repeat constructor. intros [].
  - destruct (entersBefore k k0); cbn [map fst].
    + constructor; [exact Hk | exact H].
    + inversion H as [| ? ? H0 Hm]; subst. constructor.
      * rewrite keys_insertKey. intros [Hin | ->]; [contradiction | apply Hk; now left].
      * apply IH; [intros Hin; apply Hk; now right | exact Hm].
Qed.

Lemma keys_setKey (m : list (string * A)) (k : string) (v : A) (k' : string) :
  In k' (map fst (setKey m k v)) <->
  In k' (map fst m) \/ (k' = k /\ k <> "__proto__").
Proof.
  unfold setKey. destruct (String.eqb k "__proto__") eqn:P.
  - apply String.eqb_eq in P. intuition congruence.
  - apply String.eqb_neq in P. destruct (hasKey m k) eqn:H.
    + rewrite keys_replaceValue. apply hasKey_In in H. intuition congruence.
    + rewrite keys_insertKey. intuition congruence.
Qed.

Lemma NoDup_setKey (m : list (string * A)) (k : string) (v : A) :
  NoDup (map fst m) -> NoDup (map fst (setKey m k v)).
Proof.
  unfold setKey. intros H. destruct (String.eqb k "__proto__"); [exact H |].
  destruct (hasKey m k) eqn:E.
  - now rewrite keys_replaceValue.
  - apply NoDup_insertKey; [| exact H]. intros Hin. apply hasKey_In in Hin. congruence.
Qed.

Lemma lookup_replaceValue (m : list (string * A)) (k : string) (v : A) (k' : string) :
  lookup (replaceValue m k v) k'
  = match lookup m k' with
    | Some y => if String.eqb k' k then Some v else Some y
    | None => None
    end.
Proof.
  induction m as [| [k0 x] m IH]; [reflexivity |].
  change (replaceValue ((k0, x) :: m) k v)
    with ((if String.eqb k0 k then (k0, v) else (k0, x)) :: replaceValue m k v).
  assert (E : lookup ((if String.eqb k0 k then (k0, v) else (k0, x)) :: replaceValue m k v) k'
              = match lookup (replaceValue m k v) k' with
                | Some y => Some y
                | None => if String.eqb k' k0
                          then Some (if String.eqb k0 k then v else x) else None
                end).
  { destruct (String.eqb k0 k); reflexivity. }
  rewrite E, IH. cbn [lookup]. destruct (lookup m k') as [y |].
  - destruct (String.eqb k' k); reflexivity.
  - destruct (String.eqb k' k0) eqn:E0; [| reflexivity].
    apply String.eqb_eq in E0. subst k'. destruct (String.eqb k0 k); reflexivity.
Qed.

Lemma lookup_insertKey (m : list (string * A)) (k : string) (v : A) (k' : string) :
  ~ In k (map fst m) ->
  lookup (insertKey m k v) k' = if String.eqb k' k then Some v else lookup m k'.
Proof.
  induction m as [| [k0 x] m IH]; cbn [insertKey map fst In]; intros Hk.
  - reflexivity.
  - destruct (entersBefore k k0).
    + set (fields := (k0, x) :: m). cbn [lookup].
      destruct (String.eqb k' k) eqn:E.
      * apply String.eqb_eq in E. subst k'. now rewrite (lookup_absent fields k Hk).
      * destruct (lookup fields k'); reflexivity.
    + cbn [lookup]. rewrite IH by (intros Hin; apply Hk; now right).
      destruct (String.eqb k' k) eqn:E; [reflexivity |]. reflexivity.
Qed.

(** Reading a key of an object after an assignment. *)
Lemma lookup_setKey (m : list (string * A)) (k : string) (v : A) (k' : string) :
  lookup (setKey m k v) k'
  = if String.eqb k "__proto__" then lookup m k'
    else if String.eqb k' k then Some v else lookup m k'.
Proof.
  unfold setKey. destruct (String.eqb k "__proto__"); [reflexivity |].
  destruct (hasKey m k) eqn:H.
  - rewrite lookup_replaceValue. destruct (String.eqb k' k) eqn:E.
    + apply String.eqb_eq in E. subst k'. apply hasKey_In in H.
      destruct (lookup_present m k H) as [y ->]. reflexivity.
    + destruct (lookup m k'); reflexivity.
  - apply lookup_insertKey. intros Hin. apply hasKey_In in Hin. congruence.
Qed.

End ObjectFacts.

(* ================================================================== *)
(** ** Header fields and sub-record attributes *)
(* ================================================================== *)

Section FieldFacts.

Lemma assignHeader_extra (h : DatHeader.t) (k : string) (v : RawValue) :
  DatHeader.extra (assignHeader h (k, v))
  = if knownHeaderKey k then DatHeader.extra h
    else setKey (DatHeader.extra h) k (coerceText v).
Proof.
  unfold assignHeader, knownHeaderKey. destruct h as [n d ver dt a hp u ex].
  cbn [existsb DatHeader.extra].
  repeat match goal with
         | |- context [String.eqb k ?s] => destruct (String.eqb k s)
         end; reflexivity.
Qed.

Lemma fold_assignHeader_extra (entries : list (string * RawValue)) :
  forall h k,
    lookup (DatHeader.extra (fold_left assignHeader entries h)) k
    = if keptApart k then lookup (DatHeader.extra h) k
      else match fieldText entries k with
           | Some t => Some t
           | None => lookup (DatHeader.extra h) k
           end.
Proof.
  unfold fieldText.
  induction entries as [| [k0 v] entries IH]; intros h k; cbn [fold_left lookup].
  - destruct (keptApart k); reflexivity.
  - rewrite (IH _ k), assignHeader_extra.
    assert (L : lookup (if knownHeaderKey k0 then DatHeader.extra h
                        else setKey (DatHeader.extra h) k0 (coerceText v)) k
                = if keptApart k0 then lookup (DatHeader.extra h) k
                  else if String.eqb k k0 then Some (coerceText v)
                       else lookup (DatHeader.extra h) k).
    { unfold keptApart. destruct (knownHeaderKey k0); [reflexivity |].
      rewrite lookup_setKey. cbn [orb]. reflexivity. }
    rewrite L. clear L.
    destruct (keptApart k) eqn:Kk.
    + destruct (keptApart k0) eqn:K0; [reflexivity |].
      destruct (String.eqb k k0) eqn:E; [| reflexivity].
      apply String.eqb_eq in E. congruence.
    + destruct (lookup entries k); [reflexivity |].
      destruct (String.eqb k k0) eqn:E.
      * apply String.eqb_eq in E. subst k0. now rewrite Kk.
      * destruct (keptApart k0); reflexivity.
Qed.

Lemma NoDup_fold_assignHeader (entries : list (string * RawValue)) :
  forall h,
    NoDup (map fst (DatHeader.extra h)) ->
    NoDup (map fst (DatHeader.extra (fold_left assignHeader entries h))).
Proof.
  induction entries as [| [k0 v] entries IH]; intros h H; cbn [fold_left]; [exact H |].
  apply IH. rewrite assignHeader_extra.
  destruct (knownHeaderKey k0); [exact H | now apply NoDup_setKey].
Qed.

Lemma assignHeader_optional (h : DatHeader.t) (k : string) (v : RawValue) :
  DatHeader.description (assignHeader h (k, v))
  = (if String.eqb "description" k then Some (coerceText v) else DatHeader.description h)
  /\ DatHeader.version (assignHeader h (k, v))
     = (if String.eqb "version" k then Some (coerceText v) else DatHeader.version h)
  /\ DatHeader.date (assignHeader h (k, v))
     = (if String.eqb "date" k then Some (coerceText v) else DatHeader.date h)
  /\ DatHeader.author (assignHeader h (k, v))
     = (if String.eqb "author" k then Some (coerceText v) else DatHeader.author h)
  /\ DatHeader.homepage (assignHeader h (k, v))
     = (if String.eqb "homepage" k then Some (coerceText v) else DatHeader.homepage h)
  /\ DatHeader.url (assignHeader h (k, v))
     = (if String.eqb "url" k then Some (coerceText v) else DatHeader.url h).
Proof.
  unfold assignHeader. destruct h as [n d ver dt a hp u ex].
  rewrite !(String.eqb_sym _ k).
  destruct (String.eqb k "name") eqn:E1;
    [apply String.eqb_eq in E1; subst k; repeat split; reflexivity |].
  destruct (String.eqb k "description") eqn:E2;
    [apply String.eqb_eq in E2; subst k; repeat split; reflexivity |].
  destruct (String.eqb k "version") eqn:E3;
    [apply String.eqb_eq in E3; subst k; repeat split; reflexivity |].
  destruct (String.eqb k "date") eqn:E4;
    [apply String.eqb_eq in E4; subst k; repeat split; reflexivity |].
  destruct (String.eqb k "author") eqn:E5;
    [apply String.eqb_eq in E5; subst k; repeat split; reflexivity |].
  destruct (String.eqb k "homepage") eqn:E6;
    [apply String.eqb_eq in E6; subst k; repeat split; reflexivity |].
  destruct (String.eqb k "url") eqn:E7;
    [apply String.eqb_eq in E7; subst k; repeat split; reflexivity |].
  repeat split; reflexivity.
Qed.

Lemma fold_assignHeader_optional (entries : list (string * RawValue)) :
  forall h,
    let h' := fold_left assignHeader entries h in
    DatHeader.description h' = orKeep (fieldText entries "description") (DatHeader.description h)
    /\ DatHeader.version h' = orKeep (fieldText entries "version") (DatHeader.version h)
    /\ DatHeader.date h' = orKeep (fieldText entries "date") (DatHeader.date h)
    /\ DatHeader.author h' = orKeep (fieldText entries "author") (DatHeader.author h)
    /\ DatHeader.homepage h' = orKeep (fieldText entries "homepage") (DatHeader.homepage h)
    /\ DatHeader.url h' = orKeep (fieldText entries "url") (DatHeader.url h).
Proof.
  unfold fieldText, orKeep.
  induction entries as [| [k v] entries IH]; intros h; cbn [fold_left lookup].
  - repeat split; reflexivity.
  - cbv zeta. destruct (IH (assignHeader h (k, v))) as [H1 [H2 [H3 [H4 [H5 H6]]]]].
    destruct (assignHeader_optional h k v) as [A1 [A2 [A3 [A4 [A5 A6]]]]].
    rewrite H1, H2, H3, H4, H5, H6, A1, A2, A3, A4, A5, A6.
    repeat split;
      match goal with
      | |- context [lookup entries ?s] => destruct (lookup entries s); [reflexivity |]
      end;
      match goal with
      | |- context [String.eqb ?s k] => destruct (String.eqb s k); reflexivity
      end.
Qed.

(** X18.  [normalizeHeader] on a header object: each known field holds
    the text of the child of that name (absent when there is no such
    child).  The extra mapping holds every other child under its name
    with its text, except a child named [__proto__], which an assignment
    to a plain object does not store; it holds nothing else, none of the
    known names, and no name twice. *)
Theorem header_fields_are_routed (fields : list (string * RawValue)) (h : DatHeader.t) :
  normalizeHeader (RObject fields) = Ok h ->
  fieldText fields "name" = Some (DatHeader.name h)
  /\ DatHeader.description h = fieldText fields "description"
  /\ DatHeader.version h = fieldText fields "version"
  /\ DatHeader.date h = fieldText fields "date"
  /\ DatHeader.author h = fieldText fields "author"
  /\ DatHeader.homepage h = fieldText fields "homepage"
  /\ DatHeader.url h = fieldText fields "url"
  /\ (forall key, lookup (DatHeader.extra h) key
                  = if knownHeaderKey key || String.eqb key "__proto__" then None
                    else fieldText fields key)
  /\ NoDup (map fst (DatHeader.extra h)).
Proof.
  unfold normalizeHeader. cbn [isNullish objectEntries]. cbv zeta.
  destruct (Js.truthy (DatHeader.name (fold_left assignHeader fields emptyHeader))) eqn:T;
    cbn [negb]; intros H; [| discriminate H].
  injection H as <-.
  rewrite fold_assignHeader_name in T |- *.
  destruct (fold_assignHeader_optional fields emptyHeader) as [H1 [H2 [H3 [H4 [H5 H6]]]]].
  rewrite H1, H2, H3, H4, H5, H6. unfold orKeep, fieldText. cbn [emptyHeader
    DatHeader.description DatHeader.version DatHeader.date DatHeader.author
    DatHeader.homepage DatHeader.url DatHeader.name] in *.
  split.
  { destruct (lookup fields "name"); [reflexivity | discriminate T]. }
  repeat (split; [match goal with
                  | |- context [lookup fields ?s] => destruct (lookup fields s); reflexivity
                  end |]).
  split.
  - intros key. rewrite fold_assignHeader_extra.
    unfold fieldText, keptApart. cbn [emptyHeader DatHeader.extra lookup].
    destruct (knownHeaderKey key || String.eqb key "__proto__"); [reflexivity |].
    destruct (lookup fields key); reflexivity.
  - apply NoDup_fold_assignHeader. constructor.
Qed.

Lemma header_fields_are_routed_witness :
  exists h,
    normalizeHeader
      (RObject [("name", RString "Sega - Saturn"); ("comment", RString "No-Intro");
                ("date", RString "2024-05-01"); ("clrmamepro", RObject [])]) = Ok h
    /\ DatHeader.extra h = [("comment", "No-Intro"); ("clrmamepro", "")]
    /\ fieldText [("name", RString "Sega - Saturn"); ("comment", RString "No-Intro");
                  ("date", RString "2024-05-01"); ("clrmamepro", RObject [])] "name"
       = Some (DatHeader.name h)
    /\ DatHeader.description h
       = fieldText [("name", RString "Sega - Saturn"); ("comment", RString "No-Intro");
                    ("date", RString "2024-05-01"); ("clrmamepro", RObject [])] "description"
    /\ DatHeader.version h
       = fieldText [("name", RString "Sega - Saturn"); ("comment", RString "No-Intro");
                    ("date", RString "2024-05-01"); ("clrmamepro", RObject [])] "version"
    /\ DatHeader.date h
       = fieldText [("name", RString "Sega - Saturn"); ("comment", RString "No-Intro");
                    ("date", RString "2024-05-01"); ("clrmamepro", RObject [])] "date"
    /\ DatHeader.author h
       = fieldText [("name", RString "Sega - Saturn"); ("comment", RString "No-Intro");
                    ("date", RString "2024-05-01"); ("clrmamepro", RObject [])] "author"
    /\ DatHeader.homepage h
       = fieldText [("name", RString "Sega - Saturn"); ("comment", RString "No-Intro");
                    ("date", RString "2024-05-01"); ("clrmamepro", RObject [])] "homepage"
    /\ DatHeader.url h
       = fieldText [("name", RString "Sega - Saturn"); ("comment", RString "No-Intro");
                    ("date", RString "2024-05-01"); ("clrmamepro", RObject [])] "url"
    /\ (forall key,
          lookup (DatHeader.extra h) key
          = if knownHeaderKey key || String.eqb key "__proto__" then None
            else fieldText [("name", RString "Sega - Saturn"); ("comment", RString "No-Intro");
                            ("date", RString "2024-05-01"); ("clrmamepro", RObject [])] key)
    /\ NoDup (map fst (DatHeader.extra h)).
Proof.
  eexists. split; [vm_compute; reflexivity |].
  split; [vm_compute; reflexivity |].
  apply (header_fields_are_routed
           [("name", RString "Sega - Saturn"); ("comment", RString "No-Intro");
            ("date", RString "2024-05-01"); ("clrmamepro", RObject [])]).
  vm_compute. reflexivity.
Defined.

Lemma substring_all (s : string) : String.substring 0 (String.length s) s = s.
Proof. induction s as [| c s IH]; simpl; [reflexivity | now rewrite IH]. Qed.

Lemma startsWith_at (key : string) :
  startsWith "@_" key = true -> key = ("@_" ++ slice2 key)%string.
Proof.
  unfold startsWith, slice2.
  destruct key as [| a [| b rest]]; cbn [String.prefix]; try discriminate.
  - destruct (ascii_dec "@" a); discriminate.
  - destruct (ascii_dec "@" a) as [<- |]; [| discriminate].
    destruct (ascii_dec "_" b) as [<- |]; [| discriminate].
    intros _. cbn [String.length Nat.sub String.substring].
    rewrite Nat.sub_0_r, substring_all. reflexivity.
Qed.

Lemma startsWith_at_intro (k : string) : startsWith "@_" ("@_" ++ k) = true.
Proof.
  unfold startsWith. cbn [append String.prefix].
  destruct (ascii_dec "@" "@"); [| congruence].
  destruct (ascii_dec "_" "_"); [| congruence]. destruct k; reflexivity.
Qed.

Lemma NoDup_fold_romStep (entries : list (string * RawValue)) :
  forall acc, NoDup (map fst acc) -> NoDup (map fst (fold_left romStep entries acc)).
Proof.
  induction entries as [| [key v] entries IH]; intros acc H; cbn [fold_left]; [exact H |].
  apply IH. unfold romStep. destruct (startsWith "@_" key); [now apply NoDup_setKey | exact H].
Qed.

Lemma fold_romStep (entries : list (string * RawValue)) :
  forall acc k,
    lookup (fold_left romStep entries acc) k
    = if String.eqb k "__proto__" then lookup acc k
      else match fieldText entries ("@_" ++ k) with
           | Some t => Some t
           | None => lookup acc k
           end.
Proof.
  unfold fieldText.
  induction entries as [| [key v] entries IH]; intros acc k; cbn [fold_left lookup].
  - destruct (String.eqb k "__proto__"); reflexivity.
  - rewrite IH.
    assert (L : lookup (romStep acc (key, v)) k
                = if String.eqb k "__proto__" then lookup acc k
                  else if String.eqb ("@_" ++ k) key then Some (coerceText v)
                       else lookup acc k).
    { unfold romStep. destruct (startsWith "@_" key) eqn:S.
      - rewrite lookup_setKey. apply startsWith_at in S.
        destruct (String.eqb k (slice2 key)) eqn:E.
        + apply String.eqb_eq in E. subst k. rewrite <- S, String.eqb_refl. reflexivity.
        + assert (E' : String.eqb ("@_" ++ k) key = false).
          { apply String.eqb_neq. intros F. rewrite S in F. cbn [append] in F.
            injection F as F. subst k. rewrite String.eqb_refl in E. discriminate E. }
          rewrite E'. destruct (String.eqb (slice2 key) "__proto__");
            destruct (String.eqb k "__proto__"); reflexivity.
      - assert (E' : String.eqb ("@_" ++ k) key = false).
        { apply String.eqb_neq. intros <-. rewrite startsWith_at_intro in S. discriminate S. }
        rewrite E'. destruct (String.eqb k "__proto__"); reflexivity. }
    rewrite L. destruct (String.eqb k "__proto__"); [reflexivity |].
    destruct (lookup entries ("@_" ++ k)); [reflexivity |].
    destruct (String.eqb ("@_" ++ k) key); reflexivity.
Qed.

(** X19.  The attribute mapping of a sub-record object holds, under each
    name other than [__proto__], the text of the property of that name
    prefixed with "@_", and nothing else: child elements and text are left
    out, an attribute named [__proto__] is not stored, and each name
    occurs once.  A missing or empty sub-record has no attributes. *)
Theorem rom_attributes_are_the_prefixed_properties (fields : list (string * RawValue)) :
  (forall name, lookup (mapRomAttributes (RObject fields)) name
                = if String.eqb name "__proto__" then None
                  else fieldText fields ("@_" ++ name))
  /\ NoDup (map fst (mapRomAttributes (RObject fields)))
  /\ mapRomAttributes RUndefined = []
  /\ mapRomAttributes (RString "") = [].
Proof.
  assert (E : mapRomAttributes (RObject fields) = fold_left romStep fields [])
    by reflexivity.
  rewrite E. split; [| split; [| split; reflexivity]].
  - intros name. rewrite fold_romStep. cbn [lookup].
    destruct (String.eqb name "__proto__"); [reflexivity |].
    destruct (fieldText fields ("@_" ++ name)); reflexivity.
  - apply NoDup_fold_romStep. constructor.
Qed.

End FieldFacts.

(* ================================================================== *)
(** ** The selection of the renderer and the filter *)
(* ================================================================== *)

Section SelectionState.

Variable localeCompare : string -> string -> Z.

#[local] Opaque normalizeRegionToken CANONICAL_REGIONS.

Lemma In_toggleRegion (current : list string) (region x : string) :
  In x (toggleRegion current region) -> In x current \/ x = region.
Proof.
  unfold toggleRegion. destruct (Js.has region current).
  - rewrite filter_In. tauto.
  - rewrite in_app_iff. simpl. intuition congruence.
Qed.

Lemma NoDup_toggleRegion (current : list string) (region : string) :
  NoDup current -> NoDup (toggleRegion current region).
Proof.
  unfold toggleRegion. intros H. destruct (Js.has region current) eqn:E.
  - now apply NoDup_filter.
  - apply has_false in E. apply NoDup_app; [exact H | repeat constructor; intros [] |].
    intros x Hx [<- | []]. contradiction.
Qed.

Lemma NoDup_pickDefaultRegions (regions : list string) :
  NoDup (pickDefaultRegions regions).
Proof.
  unfold pickDefaultRegions. cbv zeta.
  assert (N : NoDup (filter (fun region => Js.has region regions) preferredDefaultRegions)).
  { apply NoDup_filter. unfold preferredDefaultRegions.
    repeat constructor; simpl; intuition discriminate. }
  destruct (filter _ preferredDefaultRegions); [constructor | exact N].
Qed.

Lemma selection_invariant (regions : list string) (actions : list SelectionAction) :
  NoDup regions ->
  forallb (offered regions) actions = true ->
  forall current,
    NoDup current -> (forall r, In r current -> In r regions) ->
    NoDup (fold_left (applyAction regions) actions current)
    /\ (forall r, In r (fold_left (applyAction regions) actions current) -> In r regions).
Proof.
  intros Hr. induction actions as [| a actions IH]; cbn [forallb fold_left];
    intros Ho current Hn Hi; [auto |].
  apply andb_prop in Ho. destruct Ho as [Ha Ho].
  apply (IH Ho); destruct a as [region | |]; cbn [applyAction offered] in *.
  - now apply NoDup_toggleRegion.
  - exact Hr.
  - constructor.
  - intros r H. apply In_toggleRegion in H. destruct H as [H | ->]; [now apply Hi |].
    now apply has_In.
  - auto.
  - intros r [].
Qed.

Lemma availableRegions_NoDup (parsed : RawValue) (doc : ParsedDat.t) :
  parseDat localeCompare parsed = Ok doc -> NoDup (ParsedDat.availableRegions doc).
Proof.
  intros H. apply parseDat_Ok_inv in H. destruct H as [_ [_ [_ [-> _]]]].
  apply NoDup_sort. rewrite collectRegions_fold. apply NoDup_fold_collect. constructor.
Qed.

Lemma availableRegions_canonical (parsed : RawValue) (doc : ParsedDat.t) (r : string) :
  parseDat localeCompare parsed = Ok doc ->
  In r (ParsedDat.availableRegions doc) -> In r CANONICAL_REGIONS.
Proof.
  intros H Hr. apply (In_availableRegions localeCompare parsed doc r H) in Hr.
  destruct Hr as [[g [Hg Hin]] | [-> _]].
  - eapply parsed_regions_canonical; eassumption.
  - apply (proj1 (has_In DEFAULT_REGION CANONICAL_REGIONS)). vm_compute. reflexivity.
Qed.

(** X20.  Whatever the user does in the renderer after a document is
    loaded (toggling offered regions, selecting all, clearing), the
    selection holds no region twice and only regions the document offers;
    the filter therefore takes it as it is, a successful filter reports
    exactly that selection, and for a selection that is not empty the label
    the renderer shows is the label of the summary. *)
Theorem renderer_selection_is_canonical (parsed : RawValue) (doc : ParsedDat.t)
    (actions : list SelectionAction) (base : option string) (now : string) :
  parseDat localeCompare parsed = Ok doc ->
  forallb (offered (ParsedDat.availableRegions doc)) actions = true ->
  let regions := ParsedDat.availableRegions doc in
  let selection := fold_left (applyAction regions) actions (pickDefaultRegions regions) in
  NoDup selection
  /\ (forall r, In r selection -> In r regions)
  /\ canonicalSelections selection = selection
  /\ (forall res, filterDatByRegions doc selection base now = Ok res ->
                  FilterSummary.selectedRegions (FilteredDatResult.summary res) = selection)
  /\ (selection <> [] ->
      regionLabel selection = createRegionLabel (canonicalSelections selection)).
Proof.
  intros Hp Ho regions selection.
  destruct (selection_invariant regions actions (availableRegions_NoDup parsed doc Hp) Ho
              (pickDefaultRegions regions) (NoDup_pickDefaultRegions regions))
    as [Hn Hi].
  { intros r Hr. apply pickDefaultRegions_spec in Hr. tauto. }
  fold selection in Hn, Hi.
  assert (Hc : canonicalSelections selection = selection).
  { apply canonicalSelections_fixed; [exact Hn |].
    intros r Hr. eapply availableRegions_canonical; [exact Hp | now apply Hi]. }
  split; [exact Hn |]. split; [exact Hi |]. split; [exact Hc |]. split.
  - intros res Hres. apply filter_Ok_inv in Hres.
    destruct Hres as [_ [_ [-> _]]]. exact Hc.
  - intros Hne. rewrite Hc. unfold regionLabel, createRegionLabel.
    destruct selection; [congruence | reflexivity].
Qed.

(** X21.  With an active selection, a filter that succeeds has selected
    a region the document offers; and selecting an offered region other
    than "Unknown" always succeeds.  ("Unknown" is also offered for
    entries without a region, which no selection keeps.) *)
Theorem active_selection_and_offered_regions (parsed : RawValue) (doc : ParsedDat.t)
    (sel : list string) (base : option string) (now : string) :
  parseDat localeCompare parsed = Ok doc ->
  canonicalSelections sel <> [] ->
  ((exists res, filterDatByRegions doc sel base now = Ok res) ->
   exists c, In c (canonicalSelections sel) /\ In c (ParsedDat.availableRegions doc))
  /\ (forall c, In c (canonicalSelections sel) ->
                In c (ParsedDat.availableRegions doc) ->
                c <> DEFAULT_REGION ->
                exists res, filterDatByRegions doc sel base now = Ok res)
  /\ (forall g, In g (ParsedDat.games doc) -> DatGame.regions g = [] ->
                ~ In g (keptGames doc sel)).
Proof.
  intros Hp Ha. split; [| split].
  - intros [res Hres]. apply filter_Ok_inv in Hres. destruct Hres as [Hk _].
    rewrite keptGames_active in Hk by exact Ha.
    destruct (filter (keeps (canonicalSelections sel)) (ParsedDat.games doc))
      as [| g gs] eqn:E; [congruence |].
    assert (Hg : In g (filter (keeps (canonicalSelections sel)) (ParsedDat.games doc)))
      by (rewrite E; now left).
    apply filter_In in Hg. destruct Hg as [Hg Hkeep].
    apply keeps_shares in Hkeep. destruct Hkeep as [r [Hr Hs]].
    exists r. split; [exact Hs |].
    apply (In_availableRegions localeCompare parsed doc r Hp). left. exists g. auto.
  - intros c Hc Hav Hd. apply filter_Ok_exists.
    apply (In_availableRegions localeCompare parsed doc c Hp) in Hav.
    destruct Hav as [[g [Hg Hr]] | [Hu _]]; [| contradiction].
    rewrite keptGames_active by exact Ha. intros K.
    assert (Hk : In g (filter (keeps (canonicalSelections sel)) (ParsedDat.games doc))).
    { apply filter_In. split; [exact Hg |]. apply keeps_shares. exists c. auto. }
    rewrite K in Hk. destruct Hk.
  - intros g Hg Hempty. rewrite keptGames_active by exact Ha.
    rewrite filter_In. intros [_ Hkeep]. apply keeps_shares in Hkeep.
    destruct Hkeep as [r [Hr _]]. rewrite Hempty in Hr. destruct Hr.
Qed.

End SelectionState.

Lemma renderer_selection_is_canonical_witness :
  fold_left (applyAction (ParsedDat.availableRegions sampleDoc))
    [ToggleRegion "Japan"; ToggleRegion "USA"; SelectAll; ToggleRegion "Unknown"]
    (pickDefaultRegions (ParsedDat.availableRegions sampleDoc))
  = ["Europe"; "Japan"; "USA"]
  /\ let regions := ParsedDat.availableRegions sampleDoc in
     let selection :=
       fold_left (applyAction regions)
         [ToggleRegion "Japan"; ToggleRegion "USA"; SelectAll; ToggleRegion "Unknown"]
         (pickDefaultRegions regions) in
     NoDup selection
     /\ (forall r, In r selection -> In r regions)
     /\ canonicalSelections selection = selection
     /\ (forall res, filterDatByRegions sampleDoc selection None sampleNow = Ok res ->
                     FilterSummary.selectedRegions (FilteredDatResult.summary res) = selection)
     /\ (selection <> [] ->
         regionLabel selection = createRegionLabel (canonicalSelections selection)).
Proof.
  split; [vm_compute; reflexivity |].
  apply (renderer_selection_is_canonical codeUnitCompare sampleDat sampleDoc).
  - vm_compute. reflexivity.
  - vm_compute. reflexivity.
Defined.

Lemma active_selection_and_offered_regions_witness :
  (exists res,
     filterDatByRegions sampleDoc ["japan"; "Atlantis"] None sampleNow = Ok res
     /\ map DatGame.name (FilteredDatResult.games res) = ["Otogi (Japan, USA)"])
  /\ canonicalSelections ["japan"; "Atlantis"] = ["Japan"; "Atlantis"]
  /\ ParsedDat.availableRegions sampleDoc = ["Europe"; "Japan"; "USA"; "Unknown"]
  /\ (exists g, In g (ParsedDat.games sampleDoc) /\ DatGame.regions g = [])
  /\ ((exists res, filterDatByRegions sampleDoc ["japan"; "Atlantis"] None sampleNow = Ok res) ->
      exists c, In c (canonicalSelections ["japan"; "Atlantis"])
                /\ In c (ParsedDat.availableRegions sampleDoc))
  /\ (forall c, In c (canonicalSelections ["japan"; "Atlantis"]) ->
                In c (ParsedDat.availableRegions sampleDoc) ->
                c <> DEFAULT_REGION ->
                exists res, filterDatByRegions sampleDoc ["japan"; "Atlantis"] None sampleNow
                            = Ok res)
  /\ (forall g, In g (ParsedDat.games sampleDoc) -> DatGame.regions g = [] ->
                ~ In g (keptGames sampleDoc ["japan"; "Atlantis"])).
Proof.
  split; [eexists; split; vm_compute; reflexivity |].
  split; [vm_compute; reflexivity |].
  split; [vm_compute; reflexivity |].
  split; [eexists; split; [right; right; left; reflexivity | vm_compute; reflexivity] |].
  apply (active_selection_and_offered_regions codeUnitCompare sampleDat sampleDoc).
  - vm_compute. reflexivity.
  - vm_compute. discriminate.
Defined.

(* ================================================================== *)
(** ** The text of the filtered document *)
(* ================================================================== *)

Section TextFacts.

Lemma string_length_ind (P : string -> Prop) :
  (forall s, (forall t, String.length t < String.length s -> P t) -> P s) ->
  forall s, P s.
Proof.
  intros H s. remember (String.length s) as n eqn:E.
  revert s E. induction n as [n IH] using lt_wf_ind. intros s ->.
  apply H. intros t Ht. now apply (IH (String.length t)).
Qed.

Lemma normalizeLineEndings_LF (rest : string) :
  normalizeLineEndings (String LF rest)
  = String CR (String LF (normalizeLineEndings rest)).
Proof. reflexivity. Qed.

Lemma normalizeLineEndings_CRLF (rest : string) :
  normalizeLineEndings (String CR (String LF rest))
  = String CR (String LF (normalizeLineEndings rest)).
Proof. reflexivity. Qed.

Lemma normalizeLineEndings_CR (d : ascii) (rest : string) :
  Ascii.eqb d LF = false ->
  normalizeLineEndings (String CR (String d rest))
  = String CR (normalizeLineEndings (String d rest)).
Proof.
  intros H. change (normalizeLineEndings (String CR (String d rest)))
    with (if Ascii.eqb d LF then String CR (String LF (normalizeLineEndings rest))
          else String CR (normalizeLineEndings (String d rest))).
  now rewrite H.
Qed.

Lemma normalizeLineEndings_other (c : ascii) (rest : string) :
  Ascii.eqb c LF = false -> Ascii.eqb c CR = false ->
  normalizeLineEndings (String c rest) = String c (normalizeLineEndings rest).
Proof. intros H1 H2. cbn [normalizeLineEndings]. now rewrite H1, H2. Qed.

(** The shapes of a text, as [normalizeLineEndings] reads it. *)
Lemma line_cases (s : string) :
  s = ""
  \/ (exists rest, s = String LF rest)
  \/ (exists rest, s = String CR (String LF rest))
  \/ s = String CR ""
  \/ (exists d rest, s = String CR (String d rest) /\ Ascii.eqb d LF = false)
  \/ (exists c rest, s = String c rest /\ Ascii.eqb c LF = false /\ Ascii.eqb c CR = false).
Proof.
  destruct s as [| c rest]; [now left | right].
  destruct (Ascii.eqb c LF) eqn:E1.
  { apply Ascii.eqb_eq in E1. subst c. left. now exists rest. }
  right. destruct (Ascii.eqb c CR) eqn:E2.
  - apply Ascii.eqb_eq in E2. subst c. destruct rest as [| d rest].
    + right. now left.
    + destruct (Ascii.eqb d LF) eqn:E3.
      * apply Ascii.eqb_eq in E3. subst d. left. now exists rest.
      * right. right. left. now exists d, rest.
  - right. right. right. now exists c, rest.
Qed.

Lemma normalizeLineEndings_head (d : ascii) (rest : string) :
  Ascii.eqb d LF = false ->
  exists t, normalizeLineEndings (String d rest) = String d t.
Proof.
  intros H. cbn [normalizeLineEndings]. rewrite H.
  destruct (Ascii.eqb d CR) eqn:E; [| eexists; reflexivity].
  apply Ascii.eqb_eq in E. subst d.
  destruct rest as [| e rest]; [eexists; reflexivity |].
  destruct (Ascii.eqb e LF); eexists; reflexivity.
Qed.

Lemma normalized_lineFeeds (s : string) :
  forall b, lineFeedsFollowReturns b (normalizeLineEndings s) = true.
Proof.
  induction s as [s IH] using string_length_ind. intros b.
  destruct (line_cases s)
    as [-> | [[rest ->] | [[rest ->] | [-> | [[d [rest [-> Hd]]] | [c [rest [-> [H1 H2]]]]]]]]].
  - reflexivity.
  - rewrite normalizeLineEndings_LF. cbn [lineFeedsFollowReturns]. cbn [Ascii.eqb CR LF Bool.eqb].
    cbn [andb]. apply IH. simpl. lia.
  - rewrite normalizeLineEndings_CRLF. cbn [lineFeedsFollowReturns]. cbn [Ascii.eqb CR LF Bool.eqb].
    cbn [andb]. apply IH. simpl. lia.
  - reflexivity.
  - rewrite (normalizeLineEndings_CR d rest Hd). cbn [lineFeedsFollowReturns].
    cbn [Ascii.eqb CR LF Bool.eqb]. apply IH. simpl. lia.
  - rewrite (normalizeLineEndings_other c rest H1 H2). cbn [lineFeedsFollowReturns].
    rewrite H1. apply IH. simpl. lia.
Qed.

Lemma normalizeLineEndings_twice (s : string) :
  normalizeLineEndings (normalizeLineEndings s) = normalizeLineEndings s.
Proof.
  induction s as [s IH] using string_length_ind.
  destruct (line_cases s)
    as [-> | [[rest ->] | [[rest ->] | [-> | [[d [rest [-> Hd]]] | [c [rest [-> [H1 H2]]]]]]]]].
  - reflexivity.
  - rewrite normalizeLineEndings_LF, normalizeLineEndings_CRLF. do 2 f_equal.
    apply IH. simpl. lia.
  - rewrite !normalizeLineEndings_CRLF. do 2 f_equal. apply IH. simpl. lia.
  - reflexivity.
  - rewrite (normalizeLineEndings_CR d rest Hd).
    destruct (normalizeLineEndings_head d rest Hd) as [t Ht].
    rewrite Ht, (normalizeLineEndings_CR d t Hd), <- Ht. f_equal. apply IH. simpl. lia.
  - rewrite (normalizeLineEndings_other c rest H1 H2).
    rewrite (normalizeLineEndings_other c _ H1 H2). f_equal. apply IH. simpl. lia.
Qed.

Lemma normalized_withoutReturns (s : string) :
  withoutReturns (normalizeLineEndings s) = withoutReturns s.
Proof.
  induction s as [s IH] using string_length_ind.
  destruct (line_cases s)
    as [-> | [[rest ->] | [[rest ->] | [-> | [[d [rest [-> Hd]]] | [c [rest [-> [H1 H2]]]]]]]]].
  - reflexivity.
  - rewrite normalizeLineEndings_LF. cbn [withoutReturns]. cbn [Ascii.eqb CR LF Bool.eqb].
    f_equal. apply IH. simpl. lia.
  - rewrite normalizeLineEndings_CRLF. cbn [withoutReturns]. cbn [Ascii.eqb CR LF Bool.eqb].
    f_equal. apply IH. simpl. lia.
  - reflexivity.
  - rewrite (normalizeLineEndings_CR d rest Hd).
    change (withoutReturns (String CR (normalizeLineEndings (String d rest))))
      with (withoutReturns (normalizeLineEndings (String d rest))).
    change (withoutReturns (String CR (String d rest)))
      with (withoutReturns (String d rest)).
    apply IH. simpl. lia.
  - rewrite (normalizeLineEndings_other c rest H1 H2). cbn [withoutReturns]. rewrite H2.
    f_equal. apply IH. simpl. lia.
Qed.

(** X22.  Rewriting the line endings is idempotent, changes nothing but
    carriage returns, and leaves every line feed behind a carriage
    return. *)
Theorem line_endings_become_CRLF (s : string) :
  lineFeedsFollowReturns false (normalizeLineEndings s) = true
  /\ normalizeLineEndings (normalizeLineEndings s) = normalizeLineEndings s
  /\ withoutReturns (normalizeLineEndings s) = withoutReturns s.
Proof.
  split; [apply normalized_lineFeeds |].
  split; [apply normalizeLineEndings_twice | apply normalized_withoutReturns].
Qed.

Lemma plain_inv (c : ascii) :
  plain c = true ->
  Ascii.eqb c LF = false /\ Ascii.eqb c CR = false /\ Ascii.eqb c "&" = false.
Proof.
  unfold plain. intros H. apply andb_prop in H. destruct H as [H H3].
  apply andb_prop in H. destruct H as [H1 H2].
  repeat split; apply negb_true_iff; assumption.
Qed.

Lemma apos_consumes : consumes (literal "&apos;") = true.
Proof. reflexivity. Qed.

Lemma replaceApos_other (c : ascii) (s : string) :
  Ascii.eqb c "&" = false ->
  replaceAll (literal "&apos;") "'" (String c s)
  = String c (replaceAll (literal "&apos;") "'" s).
Proof.
  intros H. rewrite (replaceAll_step _ _ (String c s) apos_consumes).
  rewrite (replaceAll_step _ _ s apos_consumes).
  assert (M : matchHere (literal "&apos;") (String c s) start = None).
  { cbn [literal matchHere]. rewrite Ascii.eqb_sym in H. rewrite H. reflexivity. }
  cbn [exec]. rewrite M. destruct (exec (literal "&apos;") s) as [m |]; reflexivity.
Qed.

Lemma replaceApos_plain (p s : string) :
  allChars plain p = true ->
  replaceAll (literal "&apos;") "'" (p ++ s) = (p ++ replaceAll (literal "&apos;") "'" s)%string.
Proof.
  induction p as [| c p IH]; cbn [append allChars]; intros H; [reflexivity |].
  apply andb_prop in H. destruct H as [Hc Hp]. apply plain_inv in Hc.
  rewrite replaceApos_other by tauto. now rewrite IH.
Qed.

Lemma normalizeLineEndings_plain (p s : string) :
  allChars plain p = true ->
  normalizeLineEndings (p ++ s) = (p ++ normalizeLineEndings s)%string.
Proof.
  induction p as [| c p IH]; cbn [append allChars]; intros H; [reflexivity |].
  apply andb_prop in H. destruct H as [Hc Hp]. apply plain_inv in Hc.
  rewrite normalizeLineEndings_other by tauto. now rewrite IH.
Qed.

(** X23.  The text of a filtered document is the XML declaration, the
    DOCTYPE line and the built content, each on a line of its own; in the
    content every "&apos;" is replaced by an apostrophe; every line ends
    with a carriage return and a line feed. *)
Theorem filtered_text_layout (xmlContent : string) :
  finishXml xmlContent
  = (XML_DECLARATION ++ String CR (String LF "")
     ++ DATAFILE_DOCTYPE ++ String CR (String LF "")
     ++ normalizeLineEndings (replaceAll (literal "&apos;") "'" xmlContent))%string
  /\ lineFeedsFollowReturns false (finishXml xmlContent) = true.
Proof.
  split; [| apply normalized_lineFeeds].
  unfold finishXml, Js.join. cbv zeta. cbn [String.concat].
  rewrite replaceApos_plain by (vm_compute; reflexivity).
  rewrite normalizeLineEndings_plain by (vm_compute; reflexivity).
  f_equal. cbn [append]. rewrite replaceApos_other by reflexivity.
  rewrite normalizeLineEndings_LF. cbn [append]. do 2 f_equal.
  rewrite replaceApos_plain by (vm_compute; reflexivity).
  rewrite normalizeLineEndings_plain by (vm_compute; reflexivity).
  f_equal. cbn [append]. rewrite replaceApos_other by reflexivity.
  rewrite normalizeLineEndings_LF. reflexivity.
Qed.

End TextFacts.

(* ================================================================== *)
(** ** Loading and the loaded document *)
(* ================================================================== *)

Section MainProcess.

Variable w : World.t.

#[local] Opaque parseDat.

Lemma loadStateFromFile_Done (filePath : string) (state : LoadedDatState.t) :
  loadStateFromFile w filePath = Done state ->
  LoadedDatState.sourcePath state = filePath
  /\ LoadedDatState.originalFilename state = World.basename w filePath
  /\ exists fileContent tree,
       World.readFile w filePath = Done fileContent
       /\ World.parse w fileContent = Done tree
       /\ parseDat (World.localeCompare w) tree = Ok (LoadedDatState.parsed state).
Proof.
  unfold loadStateFromFile.
  destruct (World.access w filePath) as [u | m]; [| discriminate].
  destruct (World.readFile w filePath) as [fileContent | m]; [| discriminate].
  destruct (World.parse w fileContent) as [tree | m] eqn:P; [| discriminate].
  destruct (parseDat (World.localeCompare w) tree) as [parsed | e] eqn:D; [| discriminate].
  intros H. injection H as <-. cbn [LoadedDatState.sourcePath
    LoadedDatState.originalFilename LoadedDatState.parsed].
  split; [reflexivity |]. split; [reflexivity |]. exists fileContent, tree. auto.
Qed.

Lemma loadDatFromPath_cases (loadedDat : option LoadedDatState.t) (filePath : string)
    (respondWithStatus : bool) :
  (exists message,
     loadDatFromPath w loadedDat filePath respondWithStatus
     = (loadFailure respondWithStatus message, loadedDat)
     /\ (filePath = "" -> message = "No file path provided."))
  \/ (exists state,
        loadDatFromPath w loadedDat filePath respondWithStatus
        = (loadSuccess respondWithStatus (buildLoadedPayload state), Some state)
        /\ filePath <> ""
        /\ loadStateFromFile w filePath = Done state).
Proof.
  unfold loadDatFromPath. destruct (Js.truthy filePath) eqn:T; cbn [negb].
  - destruct (loadStateFromFile w filePath) as [state | message] eqn:L.
    + right. exists state. repeat split. intros ->. discriminate T.
    + left. exists message. split; [reflexivity |]. intros ->. discriminate T.
  - left. eexists. split; reflexivity.
Qed.

Lemma loadDatFromPath_state (loadedDat : option LoadedDatState.t) (filePath : string)
    (respondWithStatus : bool) :
  (forall state, loadedDat = Some state -> readFrom w state) ->
  forall state, snd (loadDatFromPath w loadedDat filePath respondWithStatus) = Some state ->
                readFrom w state.
Proof.
  intros Hinv state.
  destruct (loadDatFromPath_cases loadedDat filePath respondWithStatus)
    as [[message [-> _]] | [loaded [-> [Hp Hl]]]]; cbn [snd].
  - apply Hinv.
  - intros H. injection H as <-. apply loadStateFromFile_Done in Hl.
    destruct Hl as [Hs [Hb He]]. unfold readFrom. rewrite Hs. auto.
Qed.

Lemma afterRequest_state (loadedDat : option LoadedDatState.t) (request : Request) :
  (forall state, loadedDat = Some state -> readFrom w state) ->
  forall state, afterRequest w loadedDat request = Some state -> readFrom w state.
Proof.
  intros Hinv. destruct request as [dialogResult | filePath | | regions nowISO];
    cbn [afterRequest].
  - unfold handleOpenDat.
    destruct (OpenDialogReturnValue.canceled dialogResult); [exact Hinv |].
    destruct (OpenDialogReturnValue.filePaths dialogResult) as [| filePath rest];
      [exact Hinv |].
    now apply loadDatFromPath_state.
  - now apply loadDatFromPath_state.
  - unfold handleGetCurrentDat. destruct loadedDat; exact Hinv.
  - unfold handlePreviewFilter. destruct loadedDat as [state |]; [| exact Hinv].
    destruct (runFilter state regions nowISO); exact Hinv.
Qed.

(** X24.  After any sequence of open, load, current and preview requests,
    the document the main process holds (if it holds one) is the one
    [parseDat] returned for the content read at its source path, and its
    original file name is the base name of that path.  A preview or a
    current request never changes it. *)
Theorem loaded_document_is_parsed (requests : list Request) (state : LoadedDatState.t) :
  (fold_left (afterRequest w) requests None = Some state -> readFrom w state)
  /\ (forall loadedDat regions nowISO,
        afterRequest w loadedDat (PreviewFilter regions nowISO) = loadedDat
        /\ afterRequest w loadedDat GetCurrent = loadedDat).
Proof.
  split.
  - assert (G : forall loadedDat,
               (forall s, loadedDat = Some s -> readFrom w s) ->
               forall s, fold_left (afterRequest w) requests loadedDat = Some s ->
                         readFrom w s).
    { induction requests as [| request requests IH]; intros loadedDat Hinv s;
        cbn [fold_left]; [apply Hinv |].
      apply IH. now apply afterRequest_state. }
    apply G. intros s H. discriminate H.
  - intros loadedDat regions nowISO. cbn [afterRequest]. split.
    + unfold handlePreviewFilter. destruct loadedDat as [s |]; [| reflexivity].
      destruct (runFilter s regions nowISO); reflexivity.
    + unfold handleGetCurrentDat. destruct loadedDat; reflexivity.
Qed.

(** X25.  A load that fails (no path, a file that cannot be read, a
    document that cannot be parsed) answers with an error and leaves the
    document loaded before in place; a load that succeeds answers without
    an error, and a current request then answers with the same data, whose
    path is the one given and whose total is the number of entries. *)
Theorem failed_load_keeps_the_document (loadedDat loadedDat' : option LoadedDatState.t)
    (filePath : string) (respondWithStatus : bool) (response : LoadResponse.t) :
  loadDatFromPath w loadedDat filePath respondWithStatus = (response, loadedDat') ->
  (LoadResponse.data response = None ->
   loadedDat' = loadedDat /\ LoadResponse.error response <> None)
  /\ (forall data, LoadResponse.data response = Some data ->
        LoadResponse.error response = None
        /\ fst (handleGetCurrentDat loadedDat')
           = {| CurrentDatResponse.loaded := true; CurrentDatResponse.data := Some data |}
        /\ LoadedDatPayload.filePath data = filePath
        /\ exists state,
             loadedDat' = Some state
             /\ LoadedDatPayload.totalGames data
                = List.length (ParsedDat.games (LoadedDatState.parsed state))
             /\ LoadedDatPayload.regions data
                = ParsedDat.availableRegions (LoadedDatState.parsed state))
  /\ (filePath = "" -> LoadResponse.error response = Some "No file path provided.").
Proof.
  intros H.
  destruct (loadDatFromPath_cases loadedDat filePath respondWithStatus)
    as [[message [E Hm]] | [state [E [Hp Hl]]]]; rewrite E in H; injection H as <- <-.
  - split; [| split].
    + intros _. split; [reflexivity |]. destruct respondWithStatus; discriminate.
    + intros data Hd. destruct respondWithStatus; discriminate Hd.
    + intros Hf. rewrite (Hm Hf). destruct respondWithStatus; reflexivity.
  - split; [| split].
    + intros Hd. destruct respondWithStatus; discriminate Hd.
    + intros data Hd.
      assert (D : data = buildLoadedPayload state)
        by (destruct respondWithStatus; cbn in Hd; congruence).
      subst data. split; [destruct respondWithStatus; reflexivity |].
      split; [reflexivity |]. split.
      * apply loadStateFromFile_Done in Hl. destruct Hl as [Hs _]. exact Hs.
      * exists state. repeat split.
    + intros Hf. contradiction.
Qed.

(** X26.  After a successful load, the preview with the empty selection
    succeeds exactly when the document has entries, and it then reports
    the total of the load as the initial and as the filtered count, with
    nothing removed and no region selected. *)
Theorem unfiltered_preview_after_load (loadedDat loadedDat' : option LoadedDatState.t)
    (filePath : string) (respondWithStatus : bool) (response : LoadResponse.t)
    (data : LoadedDatPayload.t) (nowISO : string) :
  loadDatFromPath w loadedDat filePath respondWithStatus = (response, loadedDat') ->
  LoadResponse.data response = Some data ->
  let preview := fst (handlePreviewFilter loadedDat' [] nowISO) in
  FilterPreviewResponse.success preview
  = negb (Nat.eqb (LoadedDatPayload.totalGames data) 0)
  /\ (LoadedDatPayload.totalGames data = 0 ->
      FilterPreviewResponse.error preview
      = Some "No games match the selected region filters.")
  /\ (LoadedDatPayload.totalGames data <> 0 ->
      exists summary,
        FilterPreviewResponse.summary preview = Some summary
        /\ FilterSummary.initialGames summary = LoadedDatPayload.totalGames data
        /\ FilterSummary.filteredGames summary = LoadedDatPayload.totalGames data
        /\ FilterSummary.removedGames summary = 0
        /\ FilterSummary.selectedRegions summary = []
        /\ FilterSummary.versionLabel summary = LoadedDatPayload.versionLabel data).
Proof.
  intros H Hd.
  destruct (loadDatFromPath_cases loadedDat filePath respondWithStatus)
    as [[message [E Hm]] | [state [E [Hp Hl]]]]; rewrite E in H; injection H as <- <-.
  { destruct respondWithStatus; discriminate Hd. }
  assert (D : data = buildLoadedPayload state)
    by (destruct respondWithStatus; cbn in Hd; congruence).
  subst data. cbn [buildLoadedPayload LoadedDatPayload.totalGames
    LoadedDatPayload.versionLabel].
  unfold handlePreviewFilter, runFilter. rewrite filter_unfold.
  rewrite (keptGames_inactive (LoadedDatState.parsed state) [] eq_refl).
  destruct (ParsedDat.games (LoadedDatState.parsed state)) as [| g gs] eqn:G.
  - cbn. split; [reflexivity |]. split; [reflexivity |]. intros K. congruence.
  - cbv zeta. cbn [fst FilterPreviewResponse.success FilterPreviewResponse.error
      FilterPreviewResponse.summary FilteredDatResult.summary List.length Nat.eqb negb].
    split; [reflexivity |]. split; [intros K; discriminate K |].
    intros _. eexists. split; [reflexivity |].
    cbn [FilterSummary.initialGames FilterSummary.filteredGames FilterSummary.removedGames
      FilterSummary.selectedRegions FilterSummary.versionLabel].
    repeat split. apply Nat.sub_diag.
Qed.

End MainProcess.

Lemma loaded_document_is_parsed_witness :
  exists state,
    fold_left (afterRequest sampleWorld)
      [GetCurrent; LoadFromPath "/dats/xbox.dat"; PreviewFilter ["USA"] sampleNow;
       LoadFromPath "/dats/missing.dat"] None = Some state
    /\ LoadedDatState.parsed state = sampleDoc
    /\ LoadedDatState.sourcePath state <> "".
Proof.
  eexists. split; [vm_compute; reflexivity |]. split; [reflexivity |].
  apply (proj1 (loaded_document_is_parsed sampleWorld
           [GetCurrent; LoadFromPath "/dats/xbox.dat"; PreviewFilter ["USA"] sampleNow;
            LoadFromPath "/dats/missing.dat"] _)).
  vm_compute. reflexivity.
Defined.

Lemma failed_load_keeps_the_document_witness :
  exists response loadedDat',
    loadDatFromPath sampleWorld None "/dats/xbox.dat" true = (response, loadedDat')
    /\ (LoadResponse.data response = None ->
        loadedDat' = None /\ LoadResponse.error response <> None)
    /\ (forall data, LoadResponse.data response = Some data ->
          LoadResponse.error response = None
          /\ fst (handleGetCurrentDat loadedDat')
             = {| CurrentDatResponse.loaded := true; CurrentDatResponse.data := Some data |}
          /\ LoadedDatPayload.filePath data = "/dats/xbox.dat"
          /\ exists state,
               loadedDat' = Some state
               /\ LoadedDatPayload.totalGames data
                  = List.length (ParsedDat.games (LoadedDatState.parsed state))
               /\ LoadedDatPayload.regions data
                  = ParsedDat.availableRegions (LoadedDatState.parsed state))
    /\ ("/dats/xbox.dat" = "" ->
        LoadResponse.error response = Some "No file path provided.").
Proof.
  eexists. eexists. split; [vm_compute; reflexivity |].
  apply (failed_load_keeps_the_document sampleWorld None _ "/dats/xbox.dat" true).
  vm_compute. reflexivity.
Defined.

Lemma unfiltered_preview_after_load_witness :
  exists response loadedDat' data,
    loadDatFromPath sampleWorld None "/dats/xbox.dat" false = (response, loadedDat')
    /\ LoadResponse.data response = Some data
    /\ LoadedDatPayload.totalGames data = 4
    /\ FilterPreviewResponse.success (fst (handlePreviewFilter loadedDat' [] sampleNow))
       = negb (Nat.eqb (LoadedDatPayload.totalGames data) 0).
Proof.
  eexists. eexists. eexists.
  split; [vm_compute; reflexivity |]. split; [reflexivity |]. split; [reflexivity |].
  eapply (unfiltered_preview_after_load sampleWorld None _ "/dats/xbox.dat" false).
  - vm_compute. reflexivity.
  - reflexivity.
Defined.
